(** * Container execution engine of n8n-nodes-claude-agent: model and properties

    The development embeds these source units of the repository:

    - the first Run Container node, whose [runContainer] talks to the Docker
      Engine over a Unix socket, walks the container lifecycle and splits the
      multiplexed log stream (module [Legacy], with the log parser in
      [DockerLogs]), and whose [execute] builds the environment and runs the
      items (module [LegacyNode]);
    - the current Run Container node, whose [execute] stages binary data,
      builds the container configuration and cleans temporary directories up
      (module [Node]);
    - [executeContainerWithBinary], the same pipeline for one item, used by
      the tool variant of the node (module [Tool]);
    - the message loop of the Claude Code Agent node (module
      [ClaudeCodeAgent]) and the handler that the MCP tool adapter wraps
      around a tool (module [McpToolAdapter]).

    Part I holds the model, Parts II and III the properties. *)

From Stdlib Require Import String Ascii NArith ZArith Bool Arith Lia Sorted List.
From Stdlib.Strings Require Import Byte.
From Stdlib Require Import DecimalString DecimalN.
Import ListNotations.

Set Implicit Arguments.

(* ===================================================================== *)
(** * Part I. Model                                                        *)
(* ===================================================================== *)

(** String concatenation, as template literals and [+] use it. *)
Infix "+++" := String.append (right associativity, at level 60).

(** JavaScript truthiness of a string: only the empty string is falsy. *)
Definition truthy (s : string) : bool :=
  match s with EmptyString => false | String _ _ => true end.

(** [s || undefined] *)
Definition orUndefined (s : string) : option string :=
  if truthy s then Some s else None.

(** [Array.prototype.join] *)
Fixpoint join (sep : string) (l : list string) : string :=
  match l with
  | [] => EmptyString
  | [x] => x
  | x :: rest => x +++ sep +++ join sep rest
  end.

(** The errors that travel through the modelled code. *)
Inductive Error : Type :=
| RangeError (message : string)
| TypeError (message : string)
| PlainError (message : string)
| SystemError (code : string) (message : string)
| NodeOperationError (message : string) (itemIndex : nat).

Definition errorMessage (e : Error) : string :=
  match e with
  | RangeError m | TypeError m | PlainError m => m
  | SystemError _ m => m
  | NodeOperationError m _ => m
  end.

Definition Buffer := list byte.

(* --------------------------------------------------------------------- *)
(** ** The multiplexed log stream                                          *)
(* --------------------------------------------------------------------- *)

Module DockerLogs.

(** [buf[i]]: [undefined] past the end. *)
Definition byteAt (buf : Buffer) (i : N) : option byte :=
  nth_error buf (N.to_nat i).

Definition bufLength (buf : Buffer) : N := N.of_nat (List.length buf).

(** [buf.readUInt32BE(offset)] of Node: the first and the last of the four
    bytes are fetched, and a bounds error (a [RangeError], under the code
    [ERR_OUT_OF_RANGE] or [ERR_BUFFER_OUT_OF_BOUNDS]) is raised when either
    is missing. *)
Definition readUInt32BE (buf : Buffer) (offset : N) : Error + N :=
  match byteAt buf offset, byteAt buf (offset + 1),
        byteAt buf (offset + 2), byteAt buf (offset + 3) with
  | Some first, Some b1, Some b2, Some last =>
      inr (Byte.to_N first * 2 ^ 24 + Byte.to_N b1 * 2 ^ 16
           + Byte.to_N b2 * 2 ^ 8 + Byte.to_N last)%N
  | _, _, _, _ => inl (RangeError "offset out of range")
  end.

(** [buf.slice(start, end)]: both indices are clamped to the length. *)
Definition slice (buf : Buffer) (start stop : N) : Buffer :=
  let len := bufLength buf in
  let s := N.min start len in
  let e := N.min stop len in
  firstn (N.to_nat (e - s)) (skipn (N.to_nat s) buf).

(** One round of the parsing loop appends the frame's content to the stream
    its type selects. *)
Definition appendByType (type : option byte) (content stdout stderr : Buffer)
  : Buffer * Buffer :=
  match type with
  | Some x01 => (stdout ++ content, stderr)
  | Some x02 => (stdout, stderr ++ content)
  | _ => (stdout, stderr)
  end.

(** The [while (offset < logsBuffer.length)] loop of [runContainer].  Every
    round moves [offset] forward by at least 8, so the number of rounds is
    bounded by the length of the buffer; [None] means the bound given was
    too small. *)
Fixpoint parseLoop (rounds : nat) (logsBuffer : Buffer) (offset : N)
  (stdout stderr : Buffer) : option (Error + Buffer * Buffer) :=
  if (offset <? bufLength logsBuffer)%N then
    match rounds with
    | O => None
    | S rounds' =>
        let type := byteAt logsBuffer offset in
        match readUInt32BE logsBuffer (offset + 4) with
        | inl e => Some (inl e)
        | inr size =>
            let content := slice logsBuffer (offset + 8) (offset + 8 + size) in
            let '(stdout', stderr') := appendByType type content stdout stderr in
            parseLoop rounds' logsBuffer (offset + 8 + size) stdout' stderr'
        end
    end
  else Some (inr (stdout, stderr)).

Definition parseDockerLogs (logsBuffer : Buffer) : option (Error + Buffer * Buffer) :=
  parseLoop (S (List.length logsBuffer)) logsBuffer 0 [] [].

(** *** The frame format the Engine writes

    The encoder is not part of the repository: it is the Engine's side of
    the protocol, written here as the specification describes it. *)

Inductive StreamType := StdoutStream | StderrStream.

Definition streamTag (t : StreamType) : byte :=
  match t with StdoutStream => x01 | StderrStream => x02 end.

Definition byteOfN (n : N) : byte :=
  match Byte.of_N (n mod 256) with Some b => b | None => x00 end.

Definition uint32BE (n : N) : Buffer :=
  [byteOfN (n / 2 ^ 24); byteOfN (n / 2 ^ 16); byteOfN (n / 2 ^ 8); byteOfN n]%N.

Definition frameHeader (t : StreamType) (declared : N) : Buffer :=
  [streamTag t; x00; x00; x00] ++ uint32BE declared.

Definition Frame : Type := StreamType * Buffer.

Definition encodeFrame (f : Frame) : Buffer :=
  frameHeader (fst f) (bufLength (snd f)) ++ snd f.

Definition encodeFrames (frames : list Frame) : Buffer :=
  concat (map encodeFrame frames).

Definition isType (t : StreamType) (f : Frame) : bool :=
  match t, fst f with
  | StdoutStream, StdoutStream | StderrStream, StderrStream => true
  | _, _ => false
  end.

(** All the payloads of one stream, in order. *)
Definition payloadsOf (t : StreamType) (frames : list Frame) : Buffer :=
  concat (map snd (filter (isType t) frames)).

Definition fitsUInt32 (f : Frame) : Prop := (bufLength (snd f) <= 2 ^ 32 - 1)%N.

(** What one round does to the streams, for a frame typed [t]. *)
Definition appended (t : StreamType) (content stdout stderr : Buffer) : Buffer * Buffer :=
  match t with
  | StdoutStream => (stdout ++ content, stderr)
  | StderrStream => (stdout, stderr ++ content)
  end.

(** A small stream: "hi" on stdout, "err" on stderr, an empty stdout frame
    and a newline on stdout. *)
Definition sampleFrames : list Frame :=
  [(StdoutStream, [x68; x69]); (StderrStream, [x65; x72; x72]);
   (StdoutStream, []); (StdoutStream, [x0a])].

(** *** Frames as the parser reads them

    The parser looks at the first byte of a header and at its last four; the
    three bytes in between are never read, and a first byte other than 1 or
    2 selects no stream. *)
Record RawFrame := {
  tag : byte;
  reserved : byte * byte * byte;
  payload : Buffer
}.

Definition rawHeader (f : RawFrame) : Buffer :=
  let '(r1, r2, r3) := reserved f in
  [tag f; r1; r2; r3] ++ uint32BE (bufLength (payload f)).

Definition encodeRaw (f : RawFrame) : Buffer := rawHeader f ++ payload f.

Definition encodeRawFrames (frames : list RawFrame) : Buffer :=
  concat (map encodeRaw frames).

(** The payloads of the frames tagged [t], in order. *)
Definition payloadsTagged (t : byte) (frames : list RawFrame) : Buffer :=
  concat (map payload (filter (fun f => Byte.eqb (tag f) t) frames)).

Definition rawFits (f : RawFrame) : Prop := (bufLength (payload f) < 2 ^ 32)%N.

(** A stream with a frame of type 0 (stdin), a frame of type 3 and reserved
    bytes that are not zero. *)
Definition sampleRawFrames : list RawFrame :=
  [{| tag := x01; reserved := (xff, x00, x07); payload := [x68; x69] |};
   {| tag := x00; reserved := (x00, x00, x00); payload := [x69; x6e] |};
   {| tag := x02; reserved := (x00, x00, x00); payload := [x65] |};
   {| tag := x03; reserved := (x00, x00, x00); payload := [] |};
   {| tag := x01; reserved := (x00, x00, x00); payload := [x21] |}].

End DockerLogs.

(* --------------------------------------------------------------------- *)
(** ** Effects: state, exceptions and a log of the calls made             *)
(* --------------------------------------------------------------------- *)

(** An asynchronous function of the source is a function of the state of
    the outside world.  It returns, or throws, leaves a new state behind in
    both cases, and logs the outside calls it made. *)
Section Effects.
Variables St Ev : Type.

Definition Eff (A : Type) : Type := St -> (Error + A) * St * list Ev.

Definition ret {A} (a : A) : Eff A := fun s => (inr a, s, []).

Definition throw {A} (e : Error) : Eff A := fun s => (inl e, s, []).

Definition settled {A} (r : Error + A) : Eff A := fun s => (r, s, []).

Definition bind {A B} (m : Eff A) (k : A -> Eff B) : Eff B := fun s =>
  let '(r, s1, t1) := m s in
  match r with
  | inl e => (inl e, s1, t1)
  | inr a => let '(r2, s2, t2) := k a s1 in (r2, s2, t1 ++ t2)
  end.

(** [try { m } catch (error) { handler(error) }] *)
Definition tryCatch {A} (m : Eff A) (handler : Error -> Eff A) : Eff A := fun s =>
  let '(r, s1, t1) := m s in
  match r with
  | inl e => let '(r2, s2, t2) := handler e s1 in (r2, s2, t1 ++ t2)
  | inr a => (inr a, s1, t1)
  end.

(** [try { m } finally { finalizer }]: the finalizer runs on both exits, and
    an error of its own replaces the outcome of [m]. *)
Definition tryFinally {A B} (m : Eff A) (finalizer : Eff B) : Eff A := fun s =>
  let '(r, s1, t1) := m s in
  let '(rf, s2, t2) := finalizer s1 in
  match rf with
  | inl e => (inl e, s2, t1 ++ t2)
  | inr _ => (r, s2, t1 ++ t2)
  end.

Definition resultOf {A} (x : (Error + A) * St * list Ev) : Error + A := fst (fst x).
Definition stateOf {A} (x : (Error + A) * St * list Ev) : St := snd (fst x).
Definition callsOf {A} (x : (Error + A) * St * list Ev) : list Ev := snd x.

End Effects.

Arguments ret {St Ev A} a _.
Arguments throw {St Ev A} e _.
Arguments settled {St Ev A} r _.
Arguments bind {St Ev A B} m k _.
Arguments tryCatch {St Ev A} m handler _.
Arguments tryFinally {St Ev A B} m finalizer _.

Notation "x <- m ;; k" := (bind m (fun x => k))
  (at level 61, m at next level, right associativity).
Notation "m ;;; k" := (bind m (fun _ => k))
  (at level 61, right associativity).

(** Decimal text of a number, as a template literal prints it. *)
Definition decimal (n : N) : string := NilEmpty.string_of_uint (N.to_uint n).

(* --------------------------------------------------------------------- *)
(** ** The first Run Container node: [runContainer] over the Engine API   *)
(* --------------------------------------------------------------------- *)

Module Legacy.

Inductive Method := GET | POST | DELETE.

(** The body of the create request. *)
Record CreateBody := {
  Image : string;
  Cmd : option (list string);
  Env : list string;
  Tty : bool
}.

(** What [http.request] is given. *)
Record HttpRequest := {
  socketPath : string;
  path : string;
  method : Method;
  jsonContentType : bool;
  body : option CreateBody
}.

(** How a request ends: with an ['error'] event, or with a response that
    was read to its end. *)
Inductive HttpOutcome :=
| RequestError (e : Error)
| Response (statusCode : option N) (buffer : Buffer).

(** The JavaScript values [dockerRequest] resolves with, and the built-in
    functions the code applies to them. *)
Class JsRuntime := {
  JsValue : Type;
  JSON_parse : string -> option JsValue;
  JSON_parse_empty : JSON_parse EmptyString = None;
  js_emptyObject : JsValue;
  js_string : string -> JsValue;
  js_get : JsValue -> string -> Error + JsValue;
  js_toString : JsValue -> string;
  Buffer_toString : Buffer -> string;
  encodeURIComponent : string -> string
}.

(** The Engine behind the socket. *)
Class Engine := {
  World : Type;
  http_request : HttpRequest -> World -> HttpOutcome * World
}.

Section RunContainer.
Context {rt : JsRuntime} {engine : Engine}.

Definition Async (A : Type) : Type := Eff World HttpRequest A.

(** [http.request(options, ...)] followed by [req.end()]. *)
Definition request (r : HttpRequest) : Async HttpOutcome := fun w =>
  let '(o, w') := http_request r w in (inr o, w', [r]).

(** [res.statusCode && res.statusCode >= 200 && res.statusCode < 300] *)
Definition isSuccess (statusCode : option N) : bool :=
  match statusCode with
  | Some c => negb (c =? 0)%N && (200 <=? c)%N && (c <? 300)%N
  | None => false
  end.

Definition statusText (statusCode : option N) : string :=
  match statusCode with
  | Some c => decimal c
  | None => "undefined"
  end.

(** The ['end'] handler of [dockerRequest]. *)
Definition onEnd (statusCode : option N) (buffer : Buffer) : Error + JsValue :=
  let responseBody := Buffer_toString buffer in
  if isSuccess statusCode then
    if truthy responseBody then
      match JSON_parse responseBody with
      | Some v => inr v
      | None => inr (js_string responseBody)
      end
    else inr js_emptyObject
  else
    inl (PlainError ("Docker API Error: " +++ statusText statusCode +++ " - "
                     +++ responseBody +++ " ")).

Definition dockerRequest (socketPath : string) (method : Method) (path : string)
  (body : option CreateBody) : Async JsValue :=
  o <- request {| socketPath := socketPath; path := path; method := method;
                  jsonContentType := true; body := body |} ;;
  match o with
  | RequestError e => throw e
  | Response statusCode buffer => settled (onEnd statusCode buffer)
  end.

(** [s.split(' ')] *)
Fixpoint splitSpaces (s : string) : list string :=
  match s with
  | EmptyString => [EmptyString]
  | String c rest =>
      if Ascii.eqb c " " then EmptyString :: splitSpaces rest
      else match splitSpaces rest with
           | w :: ws => String c w :: ws
           | [] => [String c EmptyString]
           end
  end.

Definition fullCmd (command args : string) : list string :=
  let cmd := if truthy command then [command] else [] in
  let cmdArgs := if truthy args then filter truthy (splitSpaces args) else [] in
  cmd ++ cmdArgs.

(** 1. Pull image: the response is consumed whatever its status. *)
Definition pullImage (socketPath image : string) : Async unit :=
  o <- request {| socketPath := socketPath;
                  path := "/images/create?fromImage=" +++ encodeURIComponent image;
                  method := POST; jsonContentType := false; body := None |} ;;
  match o with
  | RequestError e => throw e
  | Response _ _ => ret tt
  end.

(** 2. Create container, and read the [Id] of the answer. *)
Definition createContainer (socketPath image : string) (cmd envVars : list string)
  : Async JsValue :=
  let createBody := {| Image := image;
                       Cmd := match cmd with [] => None | _ => Some cmd end;
                       Env := envVars;
                       Tty := false |} in
  createRes <- dockerRequest socketPath POST "/containers/create" (Some createBody) ;;
  settled (js_get createRes "Id").

(** 3. Start container. *)
Definition startContainer (socketPath : string) (containerId : JsValue) : Async JsValue :=
  dockerRequest socketPath POST
    ("/containers/" +++ js_toString containerId +++ "/start") None.

(** 4. Wait for container, and read the [StatusCode] of the answer. *)
Definition waitContainer (socketPath : string) (containerId : JsValue) : Async JsValue :=
  waitRes <- dockerRequest socketPath POST
               ("/containers/" +++ js_toString containerId +++ "/wait") None ;;
  settled (js_get waitRes "StatusCode").

(** 5. Get logs: the raw bytes of the response, whatever its status. *)
Definition getLogs (socketPath : string) (containerId : JsValue) : Async Buffer :=
  o <- request {| socketPath := socketPath;
                  path := "/containers/" +++ js_toString containerId
                          +++ "/logs?stdout=1&stderr=1&stderr=1&logs=1";
                  method := GET; jsonContentType := false; body := None |} ;;
  match o with
  | RequestError e => throw e
  | Response _ buffer => ret buffer
  end.

(** Parse Docker logs (multiplexed).  The loop always returns
    ([parseDockerLogs_returns]); the last case is there for the type only. *)
Definition parseLogs (logsBuffer : Buffer) : Async (Buffer * Buffer) :=
  match DockerLogs.parseDockerLogs logsBuffer with
  | Some r => settled r
  | None => throw (RangeError "unreachable")
  end.

(** 6. Remove container. *)
Definition removeContainer (socketPath : string) (containerId : JsValue) : Async JsValue :=
  dockerRequest socketPath DELETE
    ("/containers/" +++ js_toString containerId +++ "?v=1") None.

Record RunResult := {
  stdout : Buffer;
  stderr : Buffer;
  statusCode : JsValue
}.

Definition runContainer (socketPath image command args : string) (envVars : list string)
  : Async RunResult :=
  pullImage socketPath image ;;;
  containerId <- createContainer socketPath image (fullCmd command args) envVars ;;
  startContainer socketPath containerId ;;;
  statusCode <- waitContainer socketPath containerId ;;
  logsBuffer <- getLogs socketPath containerId ;;
  streams <- parseLogs logsBuffer ;;
  removeContainer socketPath containerId ;;;
  ret {| stdout := fst streams; stderr := snd streams; statusCode := statusCode |}.

(** The request of the create step. *)
Definition createRequest (socketPath image : string) (cmd envVars : list string)
  : HttpRequest :=
  {| socketPath := socketPath; path := "/containers/create"; method := POST;
     jsonContentType := true;
     body := Some {| Image := image;
                     Cmd := match cmd with [] => None | _ => Some cmd end;
                     Env := envVars; Tty := false |} |}.

(** No space character occurs in [s]. *)
Definition spaceFree (s : string) : Prop :=
  forall c, In c (list_ascii_of_string s) -> c <> " "%char.

(** [n] spaces. *)
Fixpoint pad (n : nat) : string :=
  match n with
  | O => EmptyString
  | S n' => String " " (pad n')
  end.

(** Words laid out on a line: each word is followed by the given number of
    spaces, and by one more when another word follows. *)
Fixpoint spaced (words : list (string * nat)) : string :=
  match words with
  | [] => EmptyString
  | (word, gap) :: rest =>
      word +++ pad (match rest with [] => gap | _ => S gap end) +++ spaced rest
  end.

(** A word as [args.split(' ').filter((a) => a)] keeps them: not empty, and
    without a space. *)
Definition isWord (word : string) : Prop := word <> EmptyString /\ spaceFree word.


Definition logsRequest (socketPath : string) (containerId : JsValue) : HttpRequest :=
  {| socketPath := socketPath;
     path := "/containers/" +++ js_toString containerId
             +++ "/logs?stdout=1&stderr=1&stderr=1&logs=1";
     method := GET; jsonContentType := false; body := None |}.

Definition removeRequest (socketPath : string) (containerId : JsValue) : HttpRequest :=
  {| socketPath := socketPath;
     path := "/containers/" +++ js_toString containerId +++ "?v=1";
     method := DELETE; jsonContentType := true; body := None |}.

(** The status is in the 2xx range. *)
Definition status2xx (statusCode : option N) : Prop :=
  exists c, statusCode = Some c /\ (200 <= c < 300)%N.

Definition isRemove (r : HttpRequest) : bool :=
  match method r with DELETE => true | _ => false end.


End RunContainer.

(** *** A scripted Engine and a small runtime, to run the model on *)

Inductive Scalar := SString (s : string) | SNumber (n : Z).

Inductive SampleValue :=
| VUndefined
| VNull
| VScalar (x : Scalar)
| VObject (fields : list (string * Scalar)).

Definition quoted (s : string) : string :=
  String (ascii_of_nat 34) s +++ String (ascii_of_nat 34) EmptyString.

(** [{"Id":"c0ffee"}] and [{"StatusCode":0}], the two answers the lifecycle
    reads a field of. *)
Definition createdBody : string := "{" +++ quoted "Id" +++ ":" +++ quoted "c0ffee" +++ "}".
Definition waitedBody : string := "{" +++ quoted "StatusCode" +++ ":0}".

(** A parser that knows the sample documents only. *)
Definition sampleParse (s : string) : option SampleValue :=
  if String.eqb s createdBody then Some (VObject [("Id"%string, SString "c0ffee")])
  else if String.eqb s waitedBody then Some (VObject [("StatusCode"%string, SNumber 0)])
  else if String.eqb s "null" then Some VNull
  else if String.eqb s "{}" then Some (VObject [])
  else None.

Fixpoint lookupField (name : string) (fields : list (string * Scalar)) : SampleValue :=
  match fields with
  | [] => VUndefined
  | (k, v) :: rest => if String.eqb k name then VScalar v else lookupField name rest
  end.

Definition sampleGet (v : SampleValue) (name : string) : Error + SampleValue :=
  match v with
  | VUndefined | VNull =>
      inl (TypeError ("Cannot read properties of null or undefined: " +++ name))
  | VObject fields => inr (lookupField name fields)
  | VScalar _ => inr VUndefined
  end.

Definition sampleToString (v : SampleValue) : string :=
  match v with
  | VUndefined => "undefined"
  | VNull => "null"
  | VScalar (SString s) => s
  | VScalar (SNumber n) =>
      match n with
      | Z0 => "0"
      | Zpos p => decimal (Npos p)
      | Zneg p => "-" +++ decimal (Npos p)
      end
  | VObject _ => "[object Object]"
  end.

Definition hexDigit (n : N) : ascii :=
  match n with
  | 0 => "0" | 1 => "1" | 2 => "2" | 3 => "3" | 4 => "4" | 5 => "5" | 6 => "6"
  | 7 => "7" | 8 => "8" | 9 => "9" | 10 => "A" | 11 => "B" | 12 => "C"
  | 13 => "D" | 14 => "E" | _ => "F"
  end%N%char.

(** The characters [encodeURIComponent] leaves alone. *)
Definition unreserved (c : ascii) : bool :=
  let n := N_of_ascii c in
  ((48 <=? n) && (n <=? 57) || (65 <=? n) && (n <=? 90) || (97 <=? n) && (n <=? 122))%N
  || existsb (Ascii.eqb c) ["-"; "_"; "."; "!"; "~"; "*"; "'"; "("; ")"]%char.

(** [encodeURIComponent], on ASCII text. *)
Fixpoint sampleEncode (s : string) : string :=
  match s with
  | EmptyString => EmptyString
  | String c rest =>
      if unreserved c then String c (sampleEncode rest)
      else String "%" (String (hexDigit (N_of_ascii c / 16))
                         (String (hexDigit (N_of_ascii c mod 16)) (sampleEncode rest)))
  end.

#[export] Instance sampleRuntime : JsRuntime := {|
  JsValue := SampleValue;
  JSON_parse := sampleParse;
  JSON_parse_empty := eq_refl;
  js_emptyObject := VObject [];
  js_string := fun s => VScalar (SString s);
  js_get := sampleGet;
  js_toString := sampleToString;
  Buffer_toString := string_of_list_byte;
  encodeURIComponent := sampleEncode
|}.

(** [buffer.toString()] is a UTF-8 decoding: a well-formed sequence is kept,
    and each maximal ill-formed part is replaced by U+FFFD.  Strings are
    held here in UTF-8, so a kept sequence is its own bytes and U+FFFD is
    [EF BF BD]. *)
Definition replacement : list byte := [xef; xbf; xbd].

(** The sequence being read: the continuation bytes still needed, the range
    the next one must lie in, and the bytes read so far. *)
Record Utf8State := {
  needed : nat;
  lower : N;
  upper : N;
  pending : list byte
}.

Definition utf8Start : Utf8State :=
  {| needed := 0; lower := 128; upper := 191; pending := [] |}.

(** A byte read when no sequence is open. *)
Definition utf8Lead (b : byte) : list byte * Utf8State :=
  let n := Byte.to_N b in
  if (n <=? 127)%N then ([b], utf8Start)
  else if ((194 <=? n) && (n <=? 223))%N then
    ([], {| needed := 1; lower := 128; upper := 191; pending := [b] |})
  else if ((224 <=? n) && (n <=? 239))%N then
    ([], {| needed := 2;
            lower := if (n =? 224)%N then 160%N else 128%N;
            upper := if (n =? 237)%N then 159%N else 191%N;
            pending := [b] |})
  else if ((240 <=? n) && (n <=? 244))%N then
    ([], {| needed := 3;
            lower := if (n =? 240)%N then 144%N else 128%N;
            upper := if (n =? 244)%N then 143%N else 191%N;
            pending := [b] |})
  else (replacement, utf8Start).

Definition utf8Step (st : Utf8State) (b : byte) : list byte * Utf8State :=
  match needed st with
  | O => utf8Lead b
  | S k =>
      let n := Byte.to_N b in
      if ((lower st <=? n) && (n <=? upper st))%N then
        match k with
        | O => (pending st ++ [b], utf8Start)
        | S _ => ([], {| needed := k; lower := 128; upper := 191;
                         pending := pending st ++ [b] |})
        end
      else
        let '(out, st') := utf8Lead b in (replacement ++ out, st')
  end.

Fixpoint utf8Bytes (st : Utf8State) (buffer : Buffer) : list byte :=
  match buffer with
  | [] => match needed st with O => [] | S _ => replacement end
  | b :: rest => let '(out, st') := utf8Step st b in out ++ utf8Bytes st' rest
  end.

Definition utf8Decode (buffer : Buffer) : string :=
  string_of_list_byte (utf8Bytes utf8Start buffer).

(** The sample runtime, with the decoding of [buffer.toString()] in full. *)
Definition utf8Runtime : JsRuntime := {|
  JsValue := SampleValue;
  JSON_parse := sampleParse;
  JSON_parse_empty := eq_refl;
  js_emptyObject := VObject [];
  js_string := fun s => VScalar (SString s);
  js_get := sampleGet;
  js_toString := sampleToString;
  Buffer_toString := utf8Decode;
  encodeURIComponent := sampleEncode
|}.

(** The scripted Engine answers the requests with the outcomes of its
    script, in order, and refuses the connection once the script is over. *)
#[export] Instance scriptedEngine : Engine := {|
  World := list HttpOutcome;
  http_request := fun _ script =>
    match script with
    | o :: rest => (o, rest)
    | [] => (RequestError (SystemError "ECONNREFUSED" "connect ECONNREFUSED"), [])
    end
|}.

Definition respond (status : N) (text : string) : HttpOutcome :=
  Response (Some status) (list_byte_of_string text).

Definition connectionReset : Error := SystemError "ECONNRESET" "socket hang up".

(** Pull, create and start go well, then the wait request loses its
    connection. *)
Definition scriptWaitFails : list HttpOutcome :=
  [respond 200 ""; respond 201 createdBody; respond 204 ""; RequestError connectionReset].

(** Everything goes well up to the removal, which the Engine refuses. *)
Definition scriptRemoveFails : list HttpOutcome :=
  [respond 200 ""; respond 201 createdBody; respond 204 ""; respond 200 waitedBody;
   Response (Some 200%N) (DockerLogs.encodeFrames DockerLogs.sampleFrames);
   respond 409 "removal in progress"].

(** Every step goes well. *)
Definition scriptAllGood : list HttpOutcome :=
  [respond 200 ""; respond 201 createdBody; respond 204 ""; respond 200 waitedBody;
   Response (Some 200%N) (DockerLogs.encodeFrames DockerLogs.sampleFrames);
   respond 204 ""].


(** The logs request is answered with an error status and a text that is no
    log stream. *)
Definition scriptLogsRefused : list HttpOutcome :=
  [respond 200 ""; respond 201 createdBody; respond 204 ""; respond 200 waitedBody;
   respond 500 "Internal Server Error"; respond 204 ""].


(** [runContainer] for [echo hello] in [alpine:latest], against a script. *)
Definition sampleRun (script : list HttpOutcome)
  : (Error + RunResult) * list HttpOutcome * list HttpRequest :=
  runContainer (rt := sampleRuntime) (engine := scriptedEngine)
    "/var/run/docker.sock" "alpine:latest" "echo" "hello" [] script.

End Legacy.

(* --------------------------------------------------------------------- *)
(** ** The first Run Container node: [execute]                            *)
(* --------------------------------------------------------------------- *)

Module LegacyNode.

(** One entry of the [parametersEnv] collection. *)
Record EnvEntry := { name : string; value : option string }.

(** What the node needs besides the Engine and the runtime: Node's [fs],
    [os] and [path], [jsonParse] of the workflow library, [Object.entries],
    the test [typeof x === 'object' && x !== null], and the policy of the
    workflow host. *)
Class NodeHost {rt : Legacy.JsRuntime} {engine : Legacy.Engine} := {
  existsSync : string -> Legacy.World -> bool;
  os_platform : Legacy.World -> string;
  os_homedir : Legacy.World -> string;
  path_join : list string -> string;
  jsonParse : string -> Error + Legacy.JsValue;
  Object_entries : Legacy.JsValue -> Error + list (string * Legacy.JsValue);
  isNonNullObject : Legacy.JsValue -> bool;
  continueOnFail : Legacy.World -> bool
}.

Section Execute.
Context {rt : Legacy.JsRuntime} {engine : Legacy.Engine} {host : NodeHost}.

(** What [getNodeParameter] returns for an item. *)
Record NodeParameters := {
  socketPath : string;
  image : string;
  command : string;
  args : string;
  sendEnv : bool;
  specifyEnv : string;
  jsonEnv : string;
  parametersEnv : option (list EnvEntry);
  modelInput : string + Legacy.JsValue
}.

Inductive ItemJson :=
| ResultJson (stdout stderr : string) (exitCode : Legacy.JsValue)
| ErrorJson (error : string).

Record ItemData := { json : ItemJson; pairedItem : nat }.

Record State := { world : Legacy.World; returnData : list ItemData }.

(** A request, with the item it was issued for. *)
Definition Call : Type := nat * Legacy.HttpRequest.

Definition Async (A : Type) : Type := Eff State Call A.

Definition getWorld : Async Legacy.World := fun s => (inr (world s), s, []).

Definition getReturnData : Async (list ItemData) := fun s => (inr (returnData s), s, []).

Definition pushReturnData (data : ItemData) : Async unit := fun s =>
  (inr tt, {| world := world s; returnData := returnData s ++ [data] |}, []).

(** [await runContainer(...)], for item [itemIndex]. *)
Definition awaitEngine {A} (itemIndex : nat) (m : Legacy.Async A) : Async A := fun s =>
  let '(r, w', t) := m (world s) in
  (r, {| world := w'; returnData := returnData s |}, map (pair itemIndex) t).

(** "Auto-detect Docker socket if default path doesn't exist" *)
Definition detectSocket (socketPath : string) (w : Legacy.World) : string :=
  if String.eqb socketPath "/var/run/docker.sock" && negb (existsSync socketPath w) then
    if String.eqb (os_platform w) "darwin" then
      let colimaPath := path_join [os_homedir w; ".colima"; "default"; "docker.sock"]%string in
      if existsSync colimaPath w then colimaPath else socketPath
    else socketPath
  else socketPath.

(** [`${key}=${val}`] *)
Definition renderEntry (entry : string * Legacy.JsValue) : string :=
  fst entry +++ "=" +++ Legacy.js_toString (snd entry).

(** The loop over the [parametersEnv] collection. *)
Fixpoint pushKeypairs (values : list EnvEntry) (envVars : list string) : list string :=
  match values with
  | [] => envVars
  | envVar :: rest =>
      match value envVar with
      | Some v =>
          if truthy (name envVar) then pushKeypairs rest (envVars ++ [name envVar +++ "=" +++ v])
          else pushKeypairs rest envVars
      | None => pushKeypairs rest envVars
      end
  end.

(** The environment of an item: the [if (sendEnv)] block. *)
Definition environment (itemIndex : nat) (p : NodeParameters) : Error + list string :=
  if sendEnv p then
    if String.eqb (specifyEnv p) "json" then
      match jsonParse (jsonEnv p) with
      | inl error =>
          inl (NodeOperationError
                 ("Failed to parse JSON environment variables: " +++ errorMessage error)
                 itemIndex)
      | inr envData =>
          match Object_entries envData with
          | inl error =>
              inl (NodeOperationError
                     ("Failed to parse JSON environment variables: " +++ errorMessage error)
                     itemIndex)
          | inr entries => inr (map renderEntry entries)
          end
      end
    else if String.eqb (specifyEnv p) "keypair" then
      inr (pushKeypairs (match parametersEnv p with Some v => v | None => [] end) [])
    else if String.eqb (specifyEnv p) "model" then
      match (match modelInput p with inl text => jsonParse text | inr v => inr v end) with
      | inl error => inl error
      | inr envData =>
          if isNonNullObject envData then
            match Object_entries envData with
            | inl error => inl error
            | inr entries => inr (map renderEntry entries)
            end
          else inr []
      end
    else inr []
  else inr [].

(** What one entry of the collection contributes to the environment. *)
Definition rendered (envVar : EnvEntry) : list string :=
  match value envVar with
  | Some v => if truthy (name envVar) then [name envVar +++ "=" +++ v] else []
  | None => []
  end.

Definition imageRequired (itemIndex : nat) : Error :=
  NodeOperationError ("The " +++ Legacy.quoted "Image" +++ " parameter is required")
    itemIndex.

Variable getNodeParameter : nat -> NodeParameters.

(** The [try] block of an item, up to the record it builds. *)
Definition itemResult (itemIndex : nat) : Async ItemData :=
  let p := getNodeParameter itemIndex in
  w <- getWorld ;;
  let socketPath := detectSocket (socketPath p) w in
  envVars <- settled (environment itemIndex p) ;;
  if negb (truthy (image p)) then throw (imageRequired itemIndex)
  else
    result <- awaitEngine itemIndex
                (Legacy.runContainer socketPath (image p) (command p) (args p) envVars) ;;
    ret {| json := ResultJson (Legacy.Buffer_toString (Legacy.stdout result))
                     (Legacy.Buffer_toString (Legacy.stderr result))
                     (Legacy.statusCode result);
           pairedItem := itemIndex |}.

Definition tryItem (itemIndex : nat) : Async unit :=
  data <- itemResult itemIndex ;;
  pushReturnData data.

(** The [catch] block of an item. *)
Definition catchItem (itemIndex : nat) (error : Error) : Async unit :=
  w <- getWorld ;;
  if continueOnFail w then
    pushReturnData {| json := ErrorJson (errorMessage error); pairedItem := itemIndex |}
  else throw (NodeOperationError (errorMessage error) itemIndex).

Definition processItem (itemIndex : nat) : Async unit :=
  tryCatch (tryItem itemIndex) (catchItem itemIndex).

Fixpoint forItems (itemIndex remaining : nat) : Async unit :=
  match remaining with
  | O => ret tt
  | S remaining' => processItem itemIndex ;;; forItems (S itemIndex) remaining'
  end.

Definition execute (itemsLength : nat) (w : Legacy.World)
  : (Error + list ItemData) * State * list Call :=
  (forItems 0 itemsLength ;;; getReturnData) {| world := w; returnData := [] |}.

End Execute.

(** *** A sample host for the first node *)

Definition sampleEntries (v : Legacy.SampleValue)
  : Error + list (string * Legacy.SampleValue) :=
  match v with
  | Legacy.VUndefined | Legacy.VNull =>
      inl (TypeError "Cannot convert undefined or null to object")
  | Legacy.VObject fields => inr (map (fun kv => (fst kv, Legacy.VScalar (snd kv))) fields)
  | Legacy.VScalar _ => inr []
  end.

Definition sampleJsonParse (text : string) : Error + Legacy.SampleValue :=
  match Legacy.sampleParse text with
  | Some v => inr v
  | None => inl (PlainError "Unexpected token")
  end.

Definition sampleIsObject (v : Legacy.SampleValue) : bool :=
  match v with Legacy.VObject _ => true | _ => false end.

#[export] Instance sampleHost
  : @NodeHost Legacy.sampleRuntime Legacy.scriptedEngine :=
  @Build_NodeHost Legacy.sampleRuntime Legacy.scriptedEngine
    (fun _ _ => true)
    (fun _ => "linux"%string)
    (fun _ => "/root"%string)
    (join "/")
    sampleJsonParse
    sampleEntries
    sampleIsObject
    (fun _ => true).

(** Three items: a plain run; an item with no image; an item whose
    environment is given as pairs, some of them incomplete. *)
Definition sampleParameters (itemIndex : nat)
  : NodeParameters (rt := Legacy.sampleRuntime) :=
  {| socketPath := match itemIndex with 0 => "/run/user/1000/docker.sock"
                                   | _ => "/var/run/docker.sock" end;
     image := match itemIndex with 1 => "" | _ => "alpine:latest" end;
     command := "echo";
     args := "hello  world";
     sendEnv := match itemIndex with 2 => true | _ => false end;
     specifyEnv := "keypair";
     jsonEnv := "";
     parametersEnv := Some [{| name := "A"; value := Some "1"%string |};
                            {| name := ""; value := Some "x"%string |};
                            {| name := "B"; value := None |};
                            {| name := "C"; value := Some ""%string |}];
     modelInput := inl ""%string |}.

(** Two complete runs, for the two items of the sample that reach the
    Engine. *)
Definition sampleScript : list Legacy.HttpOutcome :=
  Legacy.scriptAllGood ++ Legacy.scriptAllGood.

Definition sampleExecute
  : (Error + list ItemData) * State * list Call :=
  execute (host := sampleHost) sampleParameters 3 sampleScript.

End LegacyNode.

(* --------------------------------------------------------------------- *)
(** ** The current Run Container node and its tool variant                *)
(* --------------------------------------------------------------------- *)

(** The records of [ContainerHelpers] and [BinaryDataHelpers] that the two
    callers build and read, the helper functions they import, and the block
    of statements the two callers share. *)
Module Pipeline.

Module ResourceLimits.
Record t := { memory : N; cpuQuota : N }.
End ResourceLimits.

Record Mapping := { binaryPropertyName : string; mappedContainerPath : string }.

Record MountPoint := { hostPath : string; containerPath : string }.

Record PreparedBinary := {
  tempDir : string;
  mountPoints : list MountPoint;
  fileSizes : list N
}.

Record ImageValidation := { valid : bool; errors : list string }.

Record EnvResult := { variables : list string; count : nat }.

Inductive PullPolicy := Always | Missing.

Record ContainerExecutionConfig := {
  image : string;
  entrypoint : option string;
  command : option string;
  environmentVariables : list string;
  socketPath : string;
  autoRemove : bool;
  pullPolicy : PullPolicy;
  volumes : option (list string);
  memory : option N;
  cpuQuota : option N
}.

Record ContainerExecutionResult := {
  stdout : string;
  stderr : string;
  exitCode : Z;
  success : bool;
  hasOutput : bool
}.

(** The outside calls of the pipeline, with the item they were made for and
    (where a property needs it) what they returned. *)
Inductive Event :=
| EvProcessEnvironmentVariables (itemIndex : nat)
| EvPrepareBinaryInput (itemIndex : nat) (mappings : list Mapping)
    (outcome : Error + PreparedBinary)
| EvMkdtemp (itemIndex : nat) (pathPrefix : string) (outcome : Error + string)
| EvCreateOutputDirectory (itemIndex : nat) (dir : string) (outcome : Error + unit)
| EvExecuteContainer (itemIndex : nat) (config : ContainerExecutionConfig)
    (outcome : Error + ContainerExecutionResult)
| EvCollectBinaryOutput (itemIndex : nat) (dir pattern : string)
| EvCleanupTempDirectory (dir : string) (outcome : Error + unit).

(** The collaborators of the two callers: the helper modules they import
    ([utils/socketDetector], [GenericFunctions], [BinaryDataHelpers],
    [ContainerHelpers]), Node's [fs], [os] and [path], and the workflow
    host.  A call that can fail or touch the file system or the Engine is a
    function of the state of the world. *)
Class Host := {
  HostWorld : Type;
  BinaryData : Type;
  detectDockerSocket : string -> HostWorld -> string;
  validateDockerImageName : string -> ImageValidation;
  processEnvironmentVariables : nat -> HostWorld -> (Error + EnvResult) * HostWorld;
  isDockerConnectionError : Error -> bool;
  formatDockerError : Error -> string -> string -> string;
  prepareBinaryInput :
    nat -> list Mapping -> HostWorld -> (Error + PreparedBinary) * HostWorld;
  createOutputDirectory : string -> HostWorld -> (Error + unit) * HostWorld;
  calculateResourceLimits : list N -> ResourceLimits.t;
  collectBinaryOutput :
    string -> string -> HostWorld -> (Error + list (string * BinaryData)) * HostWorld;
  cleanupTempDirectory : string -> HostWorld -> (Error + unit) * HostWorld;
  executeContainer :
    ContainerExecutionConfig -> HostWorld
    -> (Error + ContainerExecutionResult) * HostWorld;
  mkdtemp : string -> HostWorld -> (Error + string) * HostWorld;
  os_tmpdir : HostWorld -> string;
  path_join : string -> string -> string;
  continueOnFail : HostWorld -> bool
}.

(** The [container] entry of a result. *)
Record ContainerInfo := {
  infoImage : string;
  infoCommand : option string;
  infoEntrypoint : option string;
  environmentVariablesCount : nat;
  infoSocketPath : string;
  binaryInput : bool;
  binaryOutput : bool;
  outputFilesCount : option nat
}.

Inductive ExecutionJson :=
| ResultJson (result : ContainerExecutionResult) (container : ContainerInfo)
| ErrorJson (error : string) (success : bool) (exitCode : Z) (stdout stderr : string).

Section Shared.
Context {host : Host}.

Record ExecutionData := {
  json : ExecutionJson;
  binary : option (list (string * BinaryData));
  pairedItem : nat
}.

(** The world, and the two arrays of the callers that outlive a throw. *)
Record State := {
  world : HostWorld;
  tempDirectories : list string;
  returnData : list ExecutionData
}.

Definition initialState (w : HostWorld) : State :=
  {| world := w; tempDirectories := []; returnData := [] |}.

Definition Async (A : Type) : Type := Eff State Event A.

(** An awaited call of a collaborator. *)
Definition call {A} (f : HostWorld -> (Error + A) * HostWorld)
  (event : Error + A -> Event) : Async A := fun s =>
  let '(r, w') := f (world s) in
  (r, {| world := w'; tempDirectories := tempDirectories s;
         returnData := returnData s |}, [event r]).

Definition getWorld : Async HostWorld := fun s => (inr (world s), s, []).

Definition getTempDirectories : Async (list string) := fun s =>
  (inr (tempDirectories s), s, []).

Definition getReturnData : Async (list ExecutionData) := fun s =>
  (inr (returnData s), s, []).

(** [tempDirectories.push(dir)] *)
Definition pushTempDirectory (dir : string) : Async unit := fun s =>
  (inr tt, {| world := world s; tempDirectories := tempDirectories s ++ [dir];
              returnData := returnData s |}, []).

(** [returnData.push(data)] *)
Definition pushReturnData (data : ExecutionData) : Async unit := fun s =>
  (inr tt, {| world := world s; tempDirectories := tempDirectories s;
              returnData := returnData s ++ [data] |}, []).

(** The promise of an awaited call, settled: it never throws. *)
Definition settle {A} (m : Async A) : Async (Error + A) := fun s =>
  let '(r, s1, t1) := m s in (inr r, s1, t1).

(** [Promise.allSettled(dirs.map((dir) => cleanupTempDirectory(dir)))]:
    [cleanupTempDirectory] is called for every directory, in order, and
    answers each time with a promise, which [allSettled] lets settle either
    way. *)
Fixpoint cleanupAllSettled (dirs : list string) : Async (list (Error + unit)) :=
  match dirs with
  | [] => ret []
  | dir :: rest =>
      r <- settle (call (cleanupTempDirectory dir) (EvCleanupTempDirectory dir)) ;;
      rs <- cleanupAllSettled rest ;;
      ret (r :: rs)
  end.

(** The [finally] block of both callers. *)
Definition cleanupTempDirectories : Async (list (Error + unit)) :=
  dirs <- getTempDirectories ;;
  cleanupAllSettled dirs.

(** [`${mp.hostPath}:${mp.containerPath}:ro`] *)
Definition inputBind (mp : MountPoint) : string :=
  hostPath mp +++ ":" +++ containerPath mp +++ ":ro".

(** [`${tempDir}/output:/output:rw`] *)
Definition outputBind (dir : string) : string := dir +++ "/output:/output:rw".

Definition withVolumes (c : ContainerExecutionConfig) (v : list string)
  : ContainerExecutionConfig :=
  {| image := image c; entrypoint := entrypoint c; command := command c;
     environmentVariables := environmentVariables c; socketPath := socketPath c;
     autoRemove := autoRemove c; pullPolicy := pullPolicy c;
     volumes := Some v; memory := memory c; cpuQuota := cpuQuota c |}.

Definition withLimits (c : ContainerExecutionConfig) (l : ResourceLimits.t)
  : ContainerExecutionConfig :=
  {| image := image c; entrypoint := entrypoint c; command := command c;
     environmentVariables := environmentVariables c; socketPath := socketPath c;
     autoRemove := autoRemove c; pullPolicy := pullPolicy c;
     volumes := volumes c;
     memory := Some (ResourceLimits.memory l);
     cpuQuota := Some (ResourceLimits.cpuQuota l) |}.

(** "Build container configuration" *)
Definition buildConfig (image entrypoint command : string) (envVars : list string)
  (socketPath : string) : ContainerExecutionConfig :=
  {| image := image;
     entrypoint := orUndefined entrypoint;
     command := orUndefined command;
     environmentVariables := envVars;
     socketPath := socketPath;
     autoRemove := true;
     pullPolicy := Missing;
     volumes := None; memory := None; cpuQuota := None |}.

(** "Prepare binary input if enabled": the block the two callers share
    (lines 100-146 of the node, 67-107 of the tool variant).  It returns the
    configuration as the block leaves it, and [tempDir]. *)
Definition stageBinaryData (itemIndex : nat) (binaryDataInput binaryDataOutput : bool)
  (mappings : list Mapping) (containerConfig : ContainerExecutionConfig)
  : Async (ContainerExecutionConfig * option string) :=
  if binaryDataInput then
    match mappings with
    | _ :: _ =>
        preparedBinary <- call (prepareBinaryInput itemIndex mappings)
                            (EvPrepareBinaryInput itemIndex mappings) ;;
        let dir := tempDir preparedBinary in
        pushTempDirectory dir ;;;
        let volumes := map inputBind (mountPoints preparedBinary) in
        volumes <- (if binaryDataOutput then
                      call (createOutputDirectory dir)
                        (EvCreateOutputDirectory itemIndex dir) ;;;
                      ret (volumes ++ [outputBind dir])
                    else ret volumes) ;;
        let resourceLimits := calculateResourceLimits (fileSizes preparedBinary) in
        ret (withLimits (withVolumes containerConfig volumes) resourceLimits, Some dir)
    | [] => ret (containerConfig, None)
    end
  else if binaryDataOutput then
    w <- getWorld ;;
    let pathPrefix := path_join (os_tmpdir w) "n8n-docker-output-" in
    dir <- call (mkdtemp pathPrefix) (EvMkdtemp itemIndex pathPrefix) ;;
    pushTempDirectory dir ;;;
    call (createOutputDirectory dir) (EvCreateOutputDirectory itemIndex dir) ;;;
    ret (withVolumes containerConfig [outputBind dir], Some dir)
  else ret (containerConfig, None).

(** [binaryDataOutput && tempDir] *)
Definition wantsOutput (binaryDataOutput : bool) (dir : option string) : option string :=
  match dir with
  | Some d => if binaryDataOutput && truthy d then Some d else None
  | None => None
  end.

(** "Execute container", "Prepare result" and "Collect binary output if
    enabled", shared by the two callers as well. *)
Definition runAndCollect (itemIndex : nat) (image : string)
  (containerConfig : ContainerExecutionConfig) (dir : option string)
  (envCount : nat) (socketPath : string) (binaryDataInput binaryDataOutput : bool)
  (outputFilePattern : string) : Async ExecutionData :=
  result <- call (executeContainer containerConfig)
              (EvExecuteContainer itemIndex containerConfig) ;;
  let info count :=
    {| infoImage := image;
       infoCommand := command containerConfig;
       infoEntrypoint := entrypoint containerConfig;
       environmentVariablesCount := envCount;
       infoSocketPath := socketPath;
       binaryInput := binaryDataInput;
       binaryOutput := binaryDataOutput;
       outputFilesCount := count |} in
  let executionData :=
    {| json := ResultJson result (info None); binary := None;
       pairedItem := itemIndex |} in
  match wantsOutput binaryDataOutput dir with
  | Some d =>
      outputBinary <- call (collectBinaryOutput d outputFilePattern)
                        (fun _ => EvCollectBinaryOutput itemIndex d outputFilePattern) ;;
      match outputBinary with
      | _ :: _ =>
          ret {| json := ResultJson result (info (Some (length outputBinary)));
                 binary := Some outputBinary;
                 pairedItem := itemIndex |}
      | [] => ret executionData
      end
  | None => ret executionData
  end.

(** The message of the [catch] blocks. *)
Definition describeError (error : Error) (image : string) : string :=
  if isDockerConnectionError error then
    formatDockerError error "connection" "Make sure Docker is running and accessible"
  else
    formatDockerError error "container execution" ("Image: " +++ image).

Definition invalidImage (validation : ImageValidation) (itemIndex : nat) : Error :=
  NodeOperationError ("Invalid Docker image: " +++ join ", " (errors validation)) itemIndex.

(** The item an event was logged for. *)
Definition itemOf (e : Event) : option nat :=
  match e with
  | EvProcessEnvironmentVariables i | EvPrepareBinaryInput i _ _ | EvMkdtemp i _ _
  | EvCreateOutputDirectory i _ _ | EvExecuteContainer i _ _
  | EvCollectBinaryOutput i _ _ => Some i
  | EvCleanupTempDirectory _ _ => None
  end.

(** The temporary directory an event hands to the caller. *)
Definition acquired (e : Event) : list string :=
  match e with
  | EvPrepareBinaryInput _ _ (inr prepared) => [tempDir prepared]
  | EvMkdtemp _ _ (inr dir) => [dir]
  | _ => []
  end.

Definition acquiredDirs (calls : list Event) : list string := flat_map acquired calls.

(** The directory a cleanup call was made for. *)
Definition cleaned (e : Event) : list string :=
  match e with
  | EvCleanupTempDirectory dir _ => [dir]
  | _ => []
  end.

Definition isCleanup (e : Event) : bool :=
  match e with
  | EvCleanupTempDirectory _ _ => true
  | _ => false
  end.

(** A call that creates something in the file system for the container. *)
Definition isStaging (e : Event) : bool :=
  match e with
  | EvPrepareBinaryInput _ _ _ | EvMkdtemp _ _ _ | EvCreateOutputDirectory _ _ _ => true
  | _ => false
  end.

(** A call that reads output files back. *)
Definition isCollect (e : Event) : bool :=
  match e with
  | EvCollectBinaryOutput _ _ _ => true
  | _ => false
  end.

(** The step of the pipeline of one item that a call belongs to: the
    environment, the temporary directory, its [output] directory, the
    container, the output files. *)
Definition phase (e : Event) : nat :=
  match e with
  | EvProcessEnvironmentVariables _ => 0
  | EvPrepareBinaryInput _ _ _ | EvMkdtemp _ _ _ => 1
  | EvCreateOutputDirectory _ _ _ => 2
  | EvExecuteContainer _ _ _ => 3
  | EvCollectBinaryOutput _ _ _ => 4
  | EvCleanupTempDirectory _ _ => 5
  end.

(** Where a call stands in a run over the items: the items in order, and
    for one item the steps in order. *)
Definition position (e : Event) : nat :=
  match itemOf e with
  | Some i => 5 * i + phase e
  | None => 0
  end.

(** A call whose recorded outcome is a rejection. *)
Definition failed (e : Event) : bool :=
  match e with
  | EvPrepareBinaryInput _ _ (inl _) | EvMkdtemp _ _ (inl _)
  | EvCreateOutputDirectory _ _ (inl _) | EvExecuteContainer _ _ (inl _)
  | EvCleanupTempDirectory _ (inl _) => true
  | _ => false
  end.

(** [e'] may be the call made right after [e]: it stands later in the run,
    and it is for another item when [e] failed. *)
Definition follows (e e' : Event) : Prop :=
  position e < position e' /\ (failed e = true -> itemOf e <> itemOf e').

Definition isExecuteFor (itemIndex : nat) (e : Event) : bool :=
  match e with
  | EvExecuteContainer i _ _ => Nat.eqb i itemIndex
  | _ => false
  end.

(** The volumes of a configuration are the read-only binds of the mount
    points that [prepareBinaryInput] returned for the item, followed, when
    binary output is enabled, by the one read-write bind of the [output]
    directory under the temporary directory. *)
Definition builtFromStaged (itemIndex : nat) (mappings : list Mapping)
  (binaryDataOutput : bool) (config : ContainerExecutionConfig) : Prop :=
  exists prepared w w',
    prepareBinaryInput itemIndex mappings w = (inr prepared, w')
    /\ volumes config
       = Some (map (fun mp => hostPath mp +++ ":" +++ containerPath mp +++ ":ro")
                 (mountPoints prepared)
               ++ (if binaryDataOutput
                   then [tempDir prepared +++ "/output:/output:rw"]
                   else [])).

(** A configuration with no volumes and no resource limits. *)
Definition unmounted (config : ContainerExecutionConfig) : Prop :=
  volumes config = None /\ memory config = None /\ cpuQuota config = None.

(** A call made for an execution that stages nothing: it creates nothing in
    the file system, reads no output back, and runs the container
    [unmounted]. *)
Definition stagesNothing (itemIndex : nat) (e : Event) : Prop :=
  isStaging e = false /\ isCollect e = false
  /\ forall config r, e = EvExecuteContainer itemIndex config r -> unmounted config.

(** What [stageBinaryData] returns, case by case. *)
Definition staged (itemIndex : nat) (binaryDataInput binaryDataOutput : bool)
  (mappings : list Mapping) (containerConfig : ContainerExecutionConfig)
  (out : ContainerExecutionConfig * option string) : Prop :=
  if binaryDataInput then
    match mappings with
    | _ :: _ =>
        exists prepared w w',
          prepareBinaryInput itemIndex mappings w = (inr prepared, w')
          /\ out = (withLimits
                      (withVolumes containerConfig
                         (map inputBind (mountPoints prepared)
                          ++ (if binaryDataOutput then [outputBind (tempDir prepared)]
                              else [])))
                      (calculateResourceLimits (fileSizes prepared)),
                    Some (tempDir prepared))
    | [] => out = (containerConfig, None)
    end
  else if binaryDataOutput then
    exists dir, out = (withVolumes containerConfig [outputBind dir], Some dir)
  else out = (containerConfig, None).

(** What a computation of the pipeline is known to do, from any state: the
    calls it makes satisfy [PE]; it only appends to [returnData], and what it
    appends satisfies [PD]; it appends to [tempDirectories] exactly the
    directories its calls handed over; and what it returns satisfies [Q]. *)
Definition spec {A} (PE : Event -> Prop) (PD : ExecutionData -> Prop) (Q : A -> Prop)
  (m : Async A) : Prop :=
  forall s,
    Forall PE (callsOf (m s))
    /\ (exists ds, returnData (stateOf (m s)) = returnData s ++ ds /\ Forall PD ds)
    /\ tempDirectories (stateOf (m s)) = tempDirectories s ++ acquiredDirs (callsOf (m s))
    /\ (forall a, resultOf (m s) = inr a -> Q a).

(** A run ends with one cleanup call for each directory handed over during
    [main], in order, after all the calls of [main], and with the outcome of
    [main]. *)
Definition cleansUpAfter {A} (main : Async A) (s0 : State)
  (run : (Error + A) * State * list Event) : Prop :=
  resultOf run = resultOf (main s0)
  /\ existsb isCleanup (callsOf (main s0)) = false
  /\ exists tail,
       callsOf run = callsOf (main s0) ++ tail
       /\ forallb isCleanup tail = true
       /\ flat_map cleaned tail = acquiredDirs (callsOf (main s0)).

(** The configuration of an execution that staged no input: no resource
    limits, and, as volumes, the one read-write bind of the [output]
    directory under a fresh temporary directory when binary output is
    enabled, none otherwise. *)
Definition builtUnstaged (binaryDataOutput : bool) (config : ContainerExecutionConfig)
  : Prop :=
  memory config = None /\ cpuQuota config = None
  /\ if binaryDataOutput then
       exists pathPrefix dir w w',
         mkdtemp pathPrefix w = (inr dir, w')
         /\ volumes config = Some [dir +++ "/output:/output:rw"]
     else volumes config = None.

(** The resource limits of a configuration are the ones computed from the
    sizes of the files that [prepareBinaryInput] staged for the item. *)
Definition limitedByStaged (itemIndex : nat) (mappings : list Mapping)
  (config : ContainerExecutionConfig) : Prop :=
  exists prepared w w',
    prepareBinaryInput itemIndex mappings w = (inr prepared, w')
    /\ memory config
       = Some (ResourceLimits.memory (calculateResourceLimits (fileSizes prepared)))
    /\ cpuQuota config
       = Some (ResourceLimits.cpuQuota (calculateResourceLimits (fileSizes prepared))).

(** The fields of a configuration that staging leaves alone. *)
Definition sameBase (c c' : ContainerExecutionConfig) : Prop :=
  image c' = image c /\ entrypoint c' = entrypoint c /\ command c' = command c
  /\ environmentVariables c' = environmentVariables c
  /\ socketPath c' = socketPath c
  /\ autoRemove c' = autoRemove c /\ pullPolicy c' = pullPolicy c.

(** A record as the callers build it: a result carries binary data exactly
    when it counts output files, and then binary output was enabled, there
    is at least one file and the count is their number; an error record
    carries no binary data, [success: false], exit code -1, an empty stdout
    and the error message as stderr. *)
Definition wellFormedData (data : ExecutionData) : Prop :=
  match json data with
  | ResultJson _ info =>
      match binary data with
      | Some files =>
          files <> [] /\ outputFilesCount info = Some (length files)
          /\ binaryOutput info = true
      | None => outputFilesCount info = None
      end
  | ErrorJson message success exitCode stdout stderr =>
      binary data = None /\ success = false /\ exitCode = (-1)%Z
      /\ stdout = EmptyString /\ stderr = message
  end.

(** The calls of [m], a part of the pipeline of item [i], are in the order
    of the steps, within the steps [lo] to [hi]; none of them failed when
    [m] ends well. *)
Definition ordered {A} (i lo hi : nat) (m : Async A) : Prop :=
  forall s,
    Sorted follows (callsOf (m s))
    /\ Forall (fun e => itemOf e = Some i /\ lo <= phase e < hi) (callsOf (m s))
    /\ (forall a, resultOf (m s) = inr a ->
                  Forall (fun e => failed e = false) (callsOf (m s))).

(** The calls of [m], a part of the loop, are in order and for the items
    [lo] to [hi]. *)
Definition itemsOrdered {A} (lo hi : nat) (m : Async A) : Prop :=
  forall s,
    Sorted follows (callsOf (m s))
    /\ Forall (fun e => exists i, itemOf e = Some i /\ lo <= i < hi) (callsOf (m s)).

(** [m] either ends well, having appended to [returnData] exactly one
    record, paired with the item, or throws, having appended nothing. *)
Definition appendsOne (itemIndex : nat) (m : Async unit) : Prop :=
  forall s,
    match resultOf (m s) with
    | inr _ => exists data,
                 returnData (stateOf (m s)) = returnData s ++ [data]
                 /\ pairedItem data = itemIndex
    | inl _ => returnData (stateOf (m s)) = returnData s
    end.

End Shared.
End Pipeline.

(** *** [RunContainer.execute] *)
Module Node.
Import Pipeline.

(** What [getNodeParameter] returns for an item. *)
Record NodeParameters := {
  socketPath : string;
  image : string;
  entrypoint : string;
  command : string;
  binaryDataInput : bool;
  binaryDataOutput : bool;
  binaryFileMappings : list Mapping;
  outputFilePattern : string
}.

Section Execute.
Context {host : Host}.
Variable getNodeParameter : nat -> NodeParameters.

(** The [try] block of one item. *)
Definition tryItem (itemIndex : nat) : Async unit :=
  let p := getNodeParameter itemIndex in
  w <- getWorld ;;
  let socketPath := detectDockerSocket (socketPath p) w in
  let imageValidation := validateDockerImageName (image p) in
  if negb (valid imageValidation) then throw (invalidImage imageValidation itemIndex)
  else
    envResult <- call (processEnvironmentVariables itemIndex)
                   (fun _ => EvProcessEnvironmentVariables itemIndex) ;;
    let containerConfig :=
      buildConfig (image p) (entrypoint p) (command p) (variables envResult) socketPath in
    staged <- stageBinaryData itemIndex (binaryDataInput p) (binaryDataOutput p)
                (binaryFileMappings p) containerConfig ;;
    executionData <- runAndCollect itemIndex (image p) (fst staged) (snd staged)
                       (count envResult) socketPath (binaryDataInput p)
                       (binaryDataOutput p) (outputFilePattern p) ;;
    pushReturnData executionData.

(** The [catch] block of one item. *)
Definition catchItem (itemIndex : nat) (error : Error) : Async unit :=
  let errorMessage := describeError error (image (getNodeParameter itemIndex)) in
  w <- getWorld ;;
  if continueOnFail w then
    pushReturnData {| json := ErrorJson errorMessage false (-1) EmptyString errorMessage;
                      binary := None;
                      pairedItem := itemIndex |}
  else throw (NodeOperationError errorMessage itemIndex).

Definition processItem (itemIndex : nat) : Async unit :=
  tryCatch (tryItem itemIndex) (catchItem itemIndex).

(** [for (let itemIndex = ...; itemIndex < items.length; itemIndex++)] *)
Fixpoint forItems (itemIndex remaining : nat) : Async unit :=
  match remaining with
  | O => ret tt
  | S remaining' => processItem itemIndex ;;; forItems (S itemIndex) remaining'
  end.

(** The outer [try] block: the loop, then [return [returnData]]. *)
Definition attempt (itemsLength : nat) : Async (list ExecutionData) :=
  forItems 0 itemsLength ;;; getReturnData.

Definition execute (itemsLength : nat) (w : HostWorld)
  : (Error + list ExecutionData) * State * list Event :=
  tryFinally (attempt itemsLength) cleanupTempDirectories (initialState w).

End Execute.
End Node.

(** *** [executeContainerWithBinary] *)
Module Tool.
Import Pipeline.

Record RunContainerParams := {
  image : string;
  entrypoint : string;
  command : string;
  socketPath : string;
  envVars : list string;
  binaryDataInput : bool;
  binaryDataOutput : bool;
  binaryFileMappings : list Mapping;
  outputFilePattern : string
}.

Section Execute.
Context {host : Host}.

(** The [try] block. *)
Definition tryRun (itemIndex : nat) (params : RunContainerParams) : Async ExecutionData :=
  w <- getWorld ;;
  let socketPath := detectDockerSocket (socketPath params) w in
  let imageValidation := validateDockerImageName (image params) in
  if negb (valid imageValidation) then throw (invalidImage imageValidation itemIndex)
  else
    let containerConfig :=
      buildConfig (image params) (entrypoint params) (command params) (envVars params)
        socketPath in
    staged <- stageBinaryData itemIndex (binaryDataInput params) (binaryDataOutput params)
                (binaryFileMappings params) containerConfig ;;
    runAndCollect itemIndex (image params) (fst staged) (snd staged)
      (length (envVars params)) socketPath (binaryDataInput params)
      (binaryDataOutput params) (outputFilePattern params).

(** The [catch] block: the error is thrown again as a [NodeOperationError]. *)
Definition rethrow (itemIndex : nat) (params : RunContainerParams) (error : Error)
  : Async ExecutionData :=
  throw (NodeOperationError (describeError error (image params)) itemIndex).

Definition attempt (itemIndex : nat) (params : RunContainerParams) : Async ExecutionData :=
  tryCatch (tryRun itemIndex params) (rethrow itemIndex params).

Definition executeContainerWithBinary (itemIndex : nat) (params : RunContainerParams)
  (w : HostWorld) : (Error + ExecutionData) * State * list Event :=
  tryFinally (attempt itemIndex params) cleanupTempDirectories (initialState w).

End Execute.
End Tool.

(** *** A small host, to run the pipeline on

    Temporary directories are numbered by a counter, which is the whole
    state of this world; the image name is refused when it is empty or has an
    upper-case repository; every cleanup fails. *)
Module Sample.
Import Pipeline.

Definition validate (image : string) : ImageValidation :=
  if String.eqb image "" then
    {| valid := false; errors := ["Image name cannot be empty"%string] |}
  else if String.eqb image "UPPER/Repo" then
    {| valid := false;
       errors := ["Repository must be lowercase"%string;
                  "Invalid image name format"%string] |}
  else {| valid := true; errors := [] |}.

Definition prepare (itemIndex : nat) (mappings : list Mapping) (w : N)
  : (Error + PreparedBinary) * N :=
  let dir := "/tmp/n8n-docker-input-" +++ decimal w in
  (inr {| tempDir := dir;
          mountPoints := map (fun m => {| hostPath := dir +++ "/" +++ binaryPropertyName m;
                                          containerPath := mappedContainerPath m |})
                           mappings;
          fileSizes := map (fun _ => 1024%N) mappings |},
   N.succ w).

#[export] Instance host : Host := {|
  HostWorld := N;
  BinaryData := string;
  detectDockerSocket := fun p _ => p;
  validateDockerImageName := validate;
  processEnvironmentVariables := fun _ w => (inr {| variables := []; count := 0 |}, w);
  isDockerConnectionError := fun e => match e with SystemError _ _ => true | _ => false end;
  formatDockerError := fun e context hint =>
    "Docker " +++ context +++ " failed: " +++ errorMessage e +++ ". " +++ hint;
  prepareBinaryInput := prepare;
  createOutputDirectory := fun _ w => (inr tt, w);
  calculateResourceLimits := fun _ =>
    {| ResourceLimits.memory := 536870912; ResourceLimits.cpuQuota := 100000 |};
  collectBinaryOutput := fun _ _ w => (inr [("result.txt"%string, "data"%string)], w);
  cleanupTempDirectory := fun _ w => (inl (SystemError "EBUSY" "resource busy"), w);
  executeContainer := fun _ w =>
    (inr {| stdout := "hello"; stderr := ""; exitCode := 0;
            success := true; hasOutput := true |}, w);
  mkdtemp := fun pathPrefix w => (inr (pathPrefix +++ decimal w), N.succ w);
  os_tmpdir := fun _ => "/tmp"%string;
  path_join := fun a b => a +++ "/" +++ b;
  continueOnFail := fun _ => true
|}.

Definition oneMapping : list Mapping :=
  [{| binaryPropertyName := "data"; mappedContainerPath := "/input/data.bin" |}].

(** Three items: binary input and output with one mapping; an image name
    that fails validation; binary input and output with no mapping. *)
Definition nodeParameters (itemIndex : nat) : Node.NodeParameters :=
  {| Node.socketPath := "/var/run/docker.sock";
     Node.image := match itemIndex with 1 => "UPPER/Repo" | _ => "alpine:latest" end;
     Node.entrypoint := "";
     Node.command := "cp /input/data.bin /output/result.txt";
     Node.binaryDataInput := true;
     Node.binaryDataOutput := true;
     Node.binaryFileMappings := match itemIndex with 0 => oneMapping | _ => [] end;
     Node.outputFilePattern := "*.txt" |}.

Definition toolParams (image : string) (mappings : list Mapping) : Tool.RunContainerParams :=
  {| Tool.image := image;
     Tool.entrypoint := "";
     Tool.command := "cp /input/data.bin /output/result.txt";
     Tool.socketPath := "/var/run/docker.sock";
     Tool.envVars := [];
     Tool.binaryDataInput := true;
     Tool.binaryDataOutput := true;
     Tool.binaryFileMappings := mappings;
     Tool.outputFilePattern := "*.txt" |}.


(** Binary output without binary input. *)
Definition outputOnlyParams : Tool.RunContainerParams :=
  {| Tool.image := "alpine:latest";
     Tool.entrypoint := "";
     Tool.command := "date > /output/now.txt";
     Tool.socketPath := "/var/run/docker.sock";
     Tool.envVars := ["TZ=UTC"%string];
     Tool.binaryDataInput := false;
     Tool.binaryDataOutput := true;
     Tool.binaryFileMappings := [];
     Tool.outputFilePattern := "*.txt" |}.

End Sample.

(* --------------------------------------------------------------------- *)
(** ** Resource limits                                                    *)
(* --------------------------------------------------------------------- *)

Module ResourceLimitEstimator.
Import Pipeline.

Section Estimate.
(** The fixed floor and ceiling of each limit, and how each allotment grows
    with the size of the staged input. *)
Variables memoryFloor memoryCeiling cpuFloor cpuCeiling : N.
Variables scaleMemory scaleCpu : N -> N.

Definition clamp (floor ceiling x : N) : N := N.max floor (N.min ceiling x).

(** Modelled from the spec: [calculateResourceLimits] of [BinaryDataHelpers]
    is missing from the sources, which only call it on the sizes of the
    staged files.  The specification describes a pure function of the total
    input size that scales the memory and CPU allotments with that size and
    clamps each between a fixed floor and a fixed ceiling. *)
Definition estimate (totalInputBytes : N) : ResourceLimits.t :=
  {| ResourceLimits.memory := clamp memoryFloor memoryCeiling (scaleMemory totalInputBytes);
     ResourceLimits.cpuQuota := clamp cpuFloor cpuCeiling (scaleCpu totalInputBytes) |}.

Definition totalSize (fileSizes : list N) : N := fold_right N.add 0%N fileSizes.

Definition calculateResourceLimits (fileSizes : list N) : ResourceLimits.t :=
  estimate (totalSize fileSizes).

(** An allotment grows with the input. *)
Definition nonDecreasing (f : N -> N) : Prop := forall a b, (a <= b)%N -> (f a <= f b)%N.

End Estimate.

(** A sample policy: 256 MiB to 2 GiB of memory, four times the input above
    the floor; CPU quota from half a core to two cores, a millionth of the
    input above the floor. *)
Definition sampleEstimate : N -> ResourceLimits.t :=
  estimate 268435456 2147483648 50000 200000
    (fun n => 268435456 + 4 * n)%N (fun n => 50000 + n / 1000000)%N.

End ResourceLimitEstimator.

(* --------------------------------------------------------------------- *)
(** ** The Claude Code Agent node: one item                               *)
(* --------------------------------------------------------------------- *)

Module ClaudeCodeAgent.

(** A message of the generator that [query] returns, with the fields the
    loop reads. *)
Record Message := {
  type : string;
  subtype : string;
  result : string;
  errors : option (list string)
}.

(** What the generator does when it is iterated to its end: the messages it
    yields and, if it fails, the error it throws after them. *)
Record Generator := {
  yielded : list Message;
  thrown : option Error
}.

(** [{ result: string; logs?: string[] }] *)
Record JsonResult := {
  jsonResult : string;
  jsonLogs : option (list string)
}.

Section Execute.
(** [JSON.stringify] on a message. *)
Variable stringify : Message -> string.

Definition isFailure (subtype : string) : bool :=
  String.eqb subtype "error_during_execution"
  || String.eqb subtype "error_max_turns"
  || String.eqb subtype "error_max_budget_usd"
  || String.eqb subtype "error_max_structured_output_retries".

(** [new Error(`Claude Code Agent failed: ...`)]; an absent [errors] prints
    as [undefined]. *)
Definition failure (message : Message) : Error :=
  PlainError ("Claude Code Agent failed: " +++ subtype message +++ ". Errors: "
              +++ match errors message with
                  | Some l => join ", " l
                  | None => "undefined"
                  end).

(** [for await (const message of generator)], over the yielded messages,
    with the two variables of the loop. *)
Fixpoint forAwait (verbose : bool) (messages : list Message)
  (finalResult : option string) (logs : list string)
  : Error + (option string * list string) :=
  match messages with
  | [] => inr (finalResult, logs)
  | message :: rest =>
      let logs := if verbose then logs ++ [stringify message] else logs in
      if String.eqb (type message) "result" then
        if String.eqb (subtype message) "success" then
          forAwait verbose rest (Some (result message)) logs
        else if isFailure (subtype message) then inl (failure message)
        else forAwait verbose rest finalResult logs
      else forAwait verbose rest finalResult logs
  end.

(** The [try] block of [execute] for one item, from the loop to the JSON
    result that is pushed. *)
Definition tryItem (verbose : bool) (generator : Generator) : Error + JsonResult :=
  match forAwait verbose (yielded generator) None [] with
  | inl e => inl e
  | inr (finalResult, logs) =>
      match thrown generator with
      | Some e => inl e
      | None =>
          match finalResult with
          | None => inl (PlainError "Claude Code Agent finished without a result.")
          | Some r => inr {| jsonResult := r;
                             jsonLogs := if verbose then Some logs else None |}
          end
      end
  end.

(** A message that ends the run with an error, and one that sets the
    result. *)
Definition failing (message : Message) : bool :=
  String.eqb (type message) "result" && negb (String.eqb (subtype message) "success")
  && isFailure (subtype message).

Definition succeeding (message : Message) : bool :=
  String.eqb (type message) "result" && String.eqb (subtype message) "success".

(** The value of [finalResult] after messages none of which ends the run. *)
Definition finalResultAfter (messages : list Message) (finalResult : option string)
  : option string :=
  fold_left (fun acc message => if succeeding message then Some (result message) else acc)
    messages finalResult.

End Execute.

Definition sampleStringify (message : Message) : string :=
  type message +++ "/" +++ subtype message.

Definition assistantMessage : Message :=
  {| type := "assistant"; subtype := ""; result := ""; errors := None |}.

Definition successMessage (r : string) : Message :=
  {| type := "result"; subtype := "success"; result := r; errors := None |}.

Definition maxTurnsMessage : Message :=
  {| type := "result"; subtype := "error_max_turns"; result := "";
     errors := Some ["too many turns"%string; "stopped"%string] |}.

End ClaudeCodeAgent.

(* --------------------------------------------------------------------- *)
(** ** The MCP tool adapter: the handler of a tool                        *)
(* --------------------------------------------------------------------- *)

Module McpToolAdapter.

(** The values the handler sees; an object is the list of its own
    properties, in order. *)
#[warnings="-register-all"] Inductive JsValue :=
| JsUndefined
| JsNull
| JsBoolean (b : bool)
| JsNumber (n : Z)
| JsString (s : string)
| JsObject (properties : list (string * JsValue)).

(** The keys of the wrapper that the SDK puts around a call. *)
Definition isMetadata (key : string) : bool :=
  String.eqb key "signal" || String.eqb key "_meta" || String.eqb key "requestId".

(** [const { signal, _meta, requestId, ...actualArgs } = args] *)
Definition actualArgs (properties : list (string * JsValue)) : list (string * JsValue) :=
  filter (fun kv => negb (isMetadata (fst kv))) properties.

(** [key in object] and [object[key]] *)
Fixpoint get (key : string) (properties : list (string * JsValue)) : option JsValue :=
  match properties with
  | [] => None
  | (k, v) :: rest => if String.eqb k key then Some v else get key rest
  end.

(** "Remove SDK metadata wrapper": the input that the tool is called with. *)
Definition unwrapInput (args : JsValue) : JsValue :=
  match args with
  | JsObject properties =>
      match get "input" (actualArgs properties) with
      | Some input => input
      | None =>
          match actualArgs properties with
          | _ :: _ => JsObject (actualArgs properties)
          | [] => args
          end
      end
  | _ => args
  end.

(** [{ content: [{ type: 'text', text }], isError }] *)
Record ToolResult := {
  text : string;
  isError : bool
}.

Section Handler.
(** [JSON.stringify], the name of the tool and its [invoke] (or [call]). *)
Variable stringify : JsValue -> string.
Variable name : string.
Variable method : JsValue -> Error + JsValue.

Definition handler (args : JsValue) : ToolResult :=
  match method (unwrapInput args) with
  | inr result =>
      {| text := match result with JsString s => s | _ => stringify result end;
         isError := false |}
  | inl err =>
      {| text := "Error executing tool " +++ name +++ ": " +++ errorMessage err;
         isError := true |}
  end.

End Handler.

Definition keys (properties : list (string * JsValue)) : list string := map fst properties.

End McpToolAdapter.

(* ===================================================================== *)
(** * Part II. Properties                                                  *)
(* ===================================================================== *)

Section DockerLogsFacts.
Import DockerLogs.

Lemma to_N_byteOfN (n : N) : Byte.to_N (byteOfN n) = (n mod 256)%N.
Proof.
  unfold byteOfN. destruct (Byte.of_N (n mod 256)) eqn:E.
  - now apply Byte.to_of_N.
  - apply Byte.of_N_None_iff in E.
    pose proof (N.mod_upper_bound n 256). lia.
Qed.

Lemma uint32_digits (n : N) :
  (n < 2 ^ 32)%N ->
  (((n / 2 ^ 24) mod 256) * 2 ^ 24 + ((n / 2 ^ 16) mod 256) * 2 ^ 16
   + ((n / 2 ^ 8) mod 256) * 2 ^ 8 + n mod 256 = n)%N.
Proof.
  intros Hn.
  change (2 ^ 32)%N with (256 * 256 * 256 * 256)%N in Hn.
  change (2 ^ 24)%N with (256 * 256 * 256)%N.
  change (2 ^ 16)%N with (256 * 256)%N.
  change (2 ^ 8)%N with 256%N.
  rewrite <- !N.Div0.div_div.
  pose proof (N.div_mod n 256 ltac:(lia)) as H0.
  pose proof (N.mod_upper_bound n 256 ltac:(lia)) as B0.
  revert H0 B0. generalize (n mod 256)%N as r0. generalize (n / 256)%N as a.
  intros a r0 H0 B0.
  pose proof (N.div_mod a 256 ltac:(lia)) as H1.
  pose proof (N.mod_upper_bound a 256 ltac:(lia)) as B1.
  revert H1 B1. generalize (a mod 256)%N as r1. generalize (a / 256)%N as b.
  intros b r1 H1 B1.
  pose proof (N.div_mod b 256 ltac:(lia)) as H2.
  pose proof (N.mod_upper_bound b 256 ltac:(lia)) as B2.
  revert H2 B2. generalize (b mod 256)%N as r2. generalize (b / 256)%N as c.
  intros c r2 H2 B2.
  rewrite (N.mod_small c 256) by lia.
  lia.
Qed.

Lemma bufLength_app (a b : Buffer) : bufLength (a ++ b) = (bufLength a + bufLength b)%N.
Proof. unfold bufLength. rewrite length_app. lia. Qed.

Lemma byteAt_app_r (pre l : Buffer) (k : N) :
  byteAt (pre ++ l) (bufLength pre + k) = byteAt l k.
Proof.
  unfold byteAt, bufLength.
  replace (N.to_nat (N.of_nat (length pre) + k)) with (length pre + N.to_nat k) by lia.
  rewrite nth_error_app2 by lia. f_equal. lia.
Qed.

Lemma slice_app_r (pre l : Buffer) (a b : N) :
  slice (pre ++ l) (bufLength pre + a) (bufLength pre + b) = slice l a b.
Proof.
  unfold slice. rewrite bufLength_app.
  replace (N.min (bufLength pre + a) (bufLength pre + bufLength l))
    with (bufLength pre + N.min a (bufLength l))%N by lia.
  replace (N.min (bufLength pre + b) (bufLength pre + bufLength l))
    with (bufLength pre + N.min b (bufLength l))%N by lia.
  replace (bufLength pre + N.min b (bufLength l) - (bufLength pre + N.min a (bufLength l)))%N
    with (N.min b (bufLength l) - N.min a (bufLength l))%N by lia.
  f_equal. unfold bufLength at 1.
  replace (N.to_nat (N.of_nat (length pre) + N.min a (bufLength l)))
    with (length pre + N.to_nat (N.min a (bufLength l))) by lia.
  rewrite skipn_app, skipn_all2 by lia.
  replace (length pre + N.to_nat (N.min a (bufLength l)) - length pre)
    with (N.to_nat (N.min a (bufLength l))) by lia.
  reflexivity.
Qed.

Lemma readUInt32BE_uint32BE (n : N) (tail : Buffer) :
  (n < 2 ^ 32)%N -> readUInt32BE (uint32BE n ++ tail) 0 = inr n.
Proof.
  intros Hn. unfold readUInt32BE, uint32BE, byteAt. simpl.
  rewrite !to_N_byteOfN. f_equal. now apply uint32_digits.
Qed.

Lemma readUInt32BE_app_r (pre l : Buffer) (k : N) :
  readUInt32BE (pre ++ l) (bufLength pre + k) = readUInt32BE l k.
Proof.
  unfold readUInt32BE. rewrite <- !N.add_assoc, !byteAt_app_r. reflexivity.
Qed.

Lemma slice_from_start (l : Buffer) (n : N) : slice l 0 n = firstn (N.to_nat n) l.
Proof.
  unfold slice, bufLength. rewrite N.min_0_l, N.sub_0_r. simpl.
  destruct (N.le_ge_cases n (N.of_nat (length l))) as [H|H].
  - now rewrite N.min_l.
  - rewrite N.min_r by exact H. rewrite Nat2N.id.
    rewrite !firstn_all2; trivial; lia.
Qed.

Lemma bufLength_frameHeader t n : bufLength (frameHeader t n) = 8%N.
Proof. reflexivity. Qed.

Lemma firstn_bufLength_app (p rest : Buffer) :
  firstn (N.to_nat (bufLength p)) (p ++ rest) = p.
Proof.
  unfold bufLength. rewrite Nat2N.id, firstn_app, firstn_all, Nat.sub_diag.
  simpl. apply app_nil_r.
Qed.

(** One round of the loop at a frame with a complete header. *)
Lemma parseLoop_frame rounds (pre tail : Buffer) t (n : N) stdout stderr :
  (n < 2 ^ 32)%N ->
  parseLoop (S rounds) (pre ++ frameHeader t n ++ tail) (bufLength pre) stdout stderr
  = parseLoop rounds (pre ++ frameHeader t n ++ tail) (bufLength pre + 8 + n)
      (fst (appended t (firstn (N.to_nat n) tail) stdout stderr))
      (snd (appended t (firstn (N.to_nat n) tail) stdout stderr)).
Proof.
  intros Hn.
  set (buf := pre ++ frameHeader t n ++ tail).
  assert (Hlt : (bufLength pre <? bufLength buf)%N = true).
  { apply N.ltb_lt. unfold buf.
    rewrite !bufLength_app, bufLength_frameHeader. lia. }
  cbn [parseLoop]. rewrite Hlt.
  assert (Hty : byteAt buf (bufLength pre) = Some (streamTag t)).
  { unfold buf. rewrite <- (N.add_0_r (bufLength pre)) at 1.
    rewrite byteAt_app_r. reflexivity. }
  assert (Hsz : readUInt32BE buf (bufLength pre + 4) = inr n).
  { unfold buf. rewrite readUInt32BE_app_r.
    unfold frameHeader. rewrite <- app_assoc.
    change 4%N with (bufLength [streamTag t; x00; x00; x00] + 0)%N.
    rewrite readUInt32BE_app_r. now apply readUInt32BE_uint32BE. }
  assert (Hsl : slice buf (bufLength pre + 8) (bufLength pre + 8 + n)
                = firstn (N.to_nat n) tail).
  { unfold buf. rewrite <- N.add_assoc, slice_app_r.
    change 8%N with (bufLength (frameHeader t n) + 0)%N at 1.
    change (8 + n)%N with (bufLength (frameHeader t n) + n)%N.
    rewrite slice_app_r. apply slice_from_start. }
  rewrite Hty, Hsz, Hsl.
  destruct t; reflexivity.
Qed.

Lemma payloadsOf_cons t (f : Frame) frames :
  payloadsOf t (f :: frames)
  = (if isType t f then snd f else []) ++ payloadsOf t frames.
Proof.
  unfold payloadsOf. simpl. destruct (isType t f); reflexivity.
Qed.

(** The loop walks over a run of complete frames, whatever follows them. *)
Lemma parseLoop_frames (frames : list Frame) :
  Forall fitsUInt32 frames ->
  forall rounds (pre rest : Buffer) stdout stderr,
    parseLoop (length frames + rounds) (pre ++ encodeFrames frames ++ rest)
      (bufLength pre) stdout stderr
    = parseLoop rounds (pre ++ encodeFrames frames ++ rest)
        (bufLength (pre ++ encodeFrames frames))
        (stdout ++ payloadsOf StdoutStream frames)
        (stderr ++ payloadsOf StderrStream frames).
Proof.
  induction 1 as [|f frames Hf _ IH]; intros rounds pre rest stdout stderr.
  - unfold encodeFrames, payloadsOf. simpl. now rewrite !app_nil_r.
  - destruct f as [t payload]. unfold fitsUInt32 in Hf. simpl in Hf.
    change (encodeFrames ((t, payload) :: frames))
      with (encodeFrame (t, payload) ++ encodeFrames frames).
    unfold encodeFrame. simpl fst. simpl snd.
    rewrite <- !app_assoc.
    change (length ((t, payload) :: frames) + rounds) with (S (length frames + rounds)).
    rewrite parseLoop_frame by lia.
    rewrite firstn_bufLength_app.
    replace (bufLength pre + 8 + bufLength payload)%N
      with (bufLength (pre ++ frameHeader t (bufLength payload) ++ payload)).
    2:{ rewrite !bufLength_app, bufLength_frameHeader. lia. }
    specialize (IH rounds (pre ++ frameHeader t (bufLength payload) ++ payload) rest).
    rewrite <- !app_assoc in IH. rewrite IH.
    rewrite !payloadsOf_cons.
    destruct t; simpl; rewrite <- ?app_assoc; reflexivity.
Qed.

Lemma length_encodeFrames (frames : list Frame) :
  length frames <= length (encodeFrames frames).
Proof.
  induction frames as [|f frames IH]; [simpl; lia|].
  change (encodeFrames (f :: frames)) with (encodeFrame f ++ encodeFrames frames).
  rewrite length_app. unfold encodeFrame. rewrite length_app.
  change (length (frameHeader (fst f) (bufLength (snd f)))) with 8.
  simpl length. lia.
Qed.

(** The bound [parseDockerLogs] gives the loop is enough: the parser always
    returns, with the two streams or with the error of the header read. *)
Lemma parseLoop_returns rounds : forall buf offset stdout stderr,
  length buf - N.to_nat offset < rounds ->
  parseLoop rounds buf offset stdout stderr <> None.
Proof.
  induction rounds as [|rounds IH]; intros buf offset stdout stderr Hr; [lia|].
  cbn [parseLoop].
  destruct (offset <? bufLength buf)%N eqn:Hlt; [|discriminate].
  destruct (readUInt32BE buf (offset + 4)) as [e|size]; [discriminate|].
  destruct (appendByType _ _ _ _) as [o' e'].
  apply IH. apply N.ltb_lt in Hlt. unfold bufLength in Hlt. lia.
Qed.

Lemma parseDockerLogs_returns (buf : Buffer) : parseDockerLogs buf <> None.
Proof. unfold parseDockerLogs. apply parseLoop_returns. simpl. lia. Qed.

Lemma parseLoop_frames_from_start (frames : list Frame) (rest : Buffer) rounds :
  Forall fitsUInt32 frames ->
  parseLoop (length frames + rounds) (encodeFrames frames ++ rest) 0 [] []
  = parseLoop rounds (encodeFrames frames ++ rest) (bufLength (encodeFrames frames))
      (payloadsOf StdoutStream frames) (payloadsOf StderrStream frames).
Proof. intros H. exact (parseLoop_frames H rounds [] rest [] []). Qed.

Lemma parseLoop_at_end rounds (buf : Buffer) stdout stderr :
  parseLoop rounds buf (bufLength buf) stdout stderr = Some (inr (stdout, stderr)).
Proof. destruct rounds; cbn [parseLoop]; now rewrite N.ltb_irrefl. Qed.

(** C1. Round trip of the framing: a sequence of stdout and stderr frames,
    each with a payload of at most 2^32-1 bytes, encoded with the 8-byte
    header (tag, three zero bytes, big-endian length) and concatenated, is
    split by the log parser into the concatenation of the stdout payloads
    and the concatenation of the stderr payloads, in order. *)
Theorem demux_roundtrip (frames : list Frame) :
  Forall fitsUInt32 frames ->
  parseDockerLogs (encodeFrames frames)
  = Some (inr (payloadsOf StdoutStream frames, payloadsOf StderrStream frames)).
Proof.
  intros Hfit. unfold parseDockerLogs.
  pose proof (length_encodeFrames frames) as Hlen.
  replace (S (length (encodeFrames frames)))
    with (length frames + (S (length (encodeFrames frames)) - length frames)) by lia.
  pose proof (parseLoop_frames_from_start []
                (S (length (encodeFrames frames)) - length frames) Hfit) as H.
  rewrite app_nil_r in H. rewrite H.
  apply parseLoop_at_end.
Qed.

Lemma demux_roundtrip_witness :
  Forall fitsUInt32 sampleFrames /\
  parseDockerLogs (encodeFrames sampleFrames)
  = Some (inr ([x68; x69; x0a], [x65; x72; x72])).
Proof.
  assert (Hfit : Forall fitsUInt32 sampleFrames).
  { unfold sampleFrames.
    repeat (apply Forall_cons; [unfold fitsUInt32, bufLength; simpl; lia|]).
    apply Forall_nil. }
  split; [exact Hfit|].
  exact (demux_roundtrip Hfit).
Defined.

(** A trailing fragment shorter than a header: the length read raises. *)
Lemma short_header_raises (frames : list Frame) (fragment : Buffer) :
  Forall fitsUInt32 frames ->
  0 < length fragment < 8 ->
  parseDockerLogs (encodeFrames frames ++ fragment)
  = Some (inl (RangeError "offset out of range")).
Proof.
  intros Hfit Hfrag. unfold parseDockerLogs.
  pose proof (length_encodeFrames frames) as Hlen.
  set (buf := encodeFrames frames ++ fragment).
  assert (Hb : length buf = length (encodeFrames frames) + length fragment)
    by (unfold buf; apply length_app).
  replace (S (length buf)) with (length frames + (S (length buf) - length frames)) by lia.
  pose proof (parseLoop_frames_from_start fragment (S (length buf) - length frames) Hfit)
    as H.
  fold buf in H. rewrite H. clear H.
  replace (S (length buf) - length frames)
    with (S (length buf - length frames)) by lia.
  cbn [parseLoop].
  assert (Hlt : (bufLength (encodeFrames frames) <? bufLength buf)%N = true).
  { apply N.ltb_lt. unfold bufLength. lia. }
  rewrite Hlt.
  assert (Hrd : readUInt32BE buf (bufLength (encodeFrames frames) + 4)
                = inl (RangeError "offset out of range")).
  { unfold buf. rewrite readUInt32BE_app_r. unfold readUInt32BE, byteAt.
    replace (N.to_nat (4 + 3)) with 7 by reflexivity.
    assert (Hn : nth_error fragment 7 = None) by (apply nth_error_None; lia).
    rewrite Hn.
    destruct (nth_error fragment (N.to_nat 4));
      destruct (nth_error fragment (N.to_nat (4 + 1)));
      destruct (nth_error fragment (N.to_nat (4 + 2))); reflexivity. }
  now rewrite Hrd.
Qed.

(** C2, as the code has it.  A trailing frame whose header is complete but
    whose payload stops short of the declared length raises no error and the
    frames before it are decoded; the bytes of the short payload that are
    present are appended to the stream of its tag. *)
Theorem truncated_payload_kept (frames : list Frame) (t : StreamType)
  (declared : N) (partial : Buffer) :
  Forall fitsUInt32 frames ->
  (declared < 2 ^ 32)%N ->
  (bufLength partial < declared)%N ->
  parseDockerLogs (encodeFrames frames ++ frameHeader t declared ++ partial)
  = Some (inr (payloadsOf StdoutStream frames
                 ++ (if isType StdoutStream (t, partial) then partial else []),
               payloadsOf StderrStream frames
                 ++ (if isType StderrStream (t, partial) then partial else []))).
Proof.
  intros Hfit Hdecl Hshort. unfold parseDockerLogs.
  pose proof (length_encodeFrames frames) as Hlen.
  set (rest := frameHeader t declared ++ partial).
  set (buf := encodeFrames frames ++ rest).
  assert (Hb : length buf = length (encodeFrames frames) + (8 + length partial)).
  { unfold buf, rest. rewrite !length_app. reflexivity. }
  replace (S (length buf)) with (length frames + (S (length buf) - length frames)) by lia.
  pose proof (parseLoop_frames_from_start rest (S (length buf) - length frames) Hfit)
    as H.
  fold buf in H. rewrite H. clear H.
  replace (S (length buf) - length frames)
    with (S (length buf - length frames)) by lia.
  unfold buf, rest. rewrite parseLoop_frame by exact Hdecl.
  rewrite firstn_all2 by (unfold bufLength in Hshort; lia).
  fold rest. fold buf.
  assert (Hge : (bufLength (encodeFrames frames) + 8 + declared <? bufLength buf)%N = false).
  { apply N.ltb_ge. unfold bufLength in *. lia. }
  destruct (length buf - length frames) as [|k]; cbn [parseLoop]; rewrite Hge;
    destruct t; simpl; rewrite ?app_nil_r; reflexivity.
Qed.

Lemma truncated_payload_kept_witness :
  parseDockerLogs (encodeFrames [(StderrStream, [x65])]
                   ++ frameHeader StdoutStream 5 ++ [x68; x69])
  = Some (inr ([x68; x69], [x65])).
Proof.
  refine (truncated_payload_kept (frames := [(StderrStream, [x65])])
            StdoutStream (declared := 5) [x68; x69] _ _ _).
  - repeat (apply Forall_cons; [unfold fitsUInt32, bufLength; simpl; lia|]).
    apply Forall_nil.
  - reflexivity.
  - reflexivity.
Defined.

(** C2 as stated fails twice: after a complete frame, a trailing fragment of
    three bytes makes the parser raise, and a frame that declares five bytes
    and carries two is not dropped. *)
Lemma truncated_frame_counterexample :
  parseDockerLogs (encodeFrames [(StdoutStream, [x68; x69])] ++ [x01; x00; x00])
  = Some (inl (RangeError "offset out of range"))
  /\ parseDockerLogs (frameHeader StdoutStream 5 ++ [x68; x69])
     = Some (inr ([x68; x69], [])).
Proof. split; reflexivity. Qed.

End DockerLogsFacts.

(* --------------------------------------------------------------------- *)
(** ** The lifecycle of the first Run Container node                      *)
(* --------------------------------------------------------------------- *)

Section EffFacts.
Context {St Ev : Type}.


Lemma callsOf_bind {A B} (m : Eff St Ev A) (k : A -> Eff St Ev B) (s : St) :
  callsOf (bind m k s)
  = callsOf (m s) ++ match resultOf (m s) with
                     | inl _ => []
                     | inr a => callsOf (k a (stateOf (m s)))
                     end.
Proof.
  unfold bind, callsOf, resultOf, stateOf. destruct (m s) as [[[e|a] s1] t1]; cbn.
  - now rewrite app_nil_r.
  - now destruct (k a s1) as [[r2 s2] t2].
Qed.

End EffFacts.

Section LegacyFacts.
Import Legacy.
Context {rt : JsRuntime} {engine : Engine}.

Lemma isSuccess_2xx statusCode : isSuccess statusCode = true <-> status2xx statusCode.
Proof.
  unfold isSuccess, status2xx. destruct statusCode as [c|].
  - rewrite !andb_true_iff, negb_true_iff, N.eqb_neq, N.leb_le, N.ltb_lt. split.
    + intros [[_ H1] H2]. exists c. split; [reflexivity | lia].
    + intros [c' [Hc H]]. inversion Hc; subst. repeat split; lia.
  - split; [discriminate | intros [c [Hc _]]; discriminate].
Qed.

Lemma truthy_nonempty (s : string) : truthy s = true <-> s <> EmptyString.
Proof. destruct s; simpl; split; congruence. Qed.

Lemma dockerRequest_response socketPath method path body w statusCode buffer w' :
  http_request {| socketPath := socketPath; path := path; method := method;
                  jsonContentType := true; body := body |} w
  = (Response statusCode buffer, w') ->
  resultOf (dockerRequest socketPath method path body w) = onEnd statusCode buffer.
Proof.
  intros H. unfold dockerRequest, bind, request, resultOf. rewrite H. reflexivity.
Qed.

Lemma append_inj_l (p x y : string) : p +++ x = p +++ y -> x = y.
Proof.
  induction p as [|c p IH]; cbn; [trivial|]. intros H. inversion H. now apply IH.
Qed.

Lemma append_space_inj (x y : string) : x +++ " " = y +++ " " -> x = y.
Proof.
  revert y. induction x as [|c x IH]; intros [|d y]; cbn; intros H.
  - reflexivity.
  - inversion H as [[Hc Hy]]. destruct y; discriminate.
  - inversion H as [[Hc Hx]]. destruct x; discriminate.
  - inversion H. f_equal. now apply IH.
Qed.

Lemma spaceFree_cons c s : spaceFree (String c s) <-> c <> " "%char /\ spaceFree s.
Proof.
  unfold spaceFree. cbn. split.
  - intros H. split; [apply H; now left | intros d Hd; apply H; now right].
  - intros [Hc Hs] d [<-|Hd]; [exact Hc | now apply Hs].
Qed.

(** Two texts that agree, each a run without a space followed by a space
    and a rest, agree on the run and on the rest. *)
Lemma split_at_space (a b r r' : string) :
  spaceFree a -> spaceFree b ->
  a +++ String " " r = b +++ String " " r' -> a = b /\ r = r'.
Proof.
  revert b. induction a as [|c a IH]; intros [|d b] Ha Hb; cbn; intros H.
  - inversion H. now split.
  - inversion H; subst. apply spaceFree_cons in Hb. now destruct Hb.
  - inversion H; subst. apply spaceFree_cons in Ha. now destruct Ha.
  - inversion H; subst. apply spaceFree_cons in Ha, Hb.
    destruct (IH b (proj2 Ha) (proj2 Hb) H2) as [-> ->]. now split.
Qed.

Definition isDigit (c : ascii) : bool := (48 <=? N_of_ascii c)%N && (N_of_ascii c <=? 57)%N.

Lemma decimal_digits (n : N) : forallb isDigit (list_ascii_of_string (decimal n)) = true.
Proof.
  unfold decimal. induction (N.to_uint n); cbn; trivial.
Qed.

Lemma digits_spaceFree (s : string) :
  forallb isDigit (list_ascii_of_string s) = true -> spaceFree s.
Proof.
  intros H c Hc ->. rewrite forallb_forall in H. specialize (H _ Hc). discriminate.
Qed.

Lemma decimal_inj (a b : N) : decimal a = decimal b -> a = b.
Proof.
  unfold decimal. intros H. apply DecimalN.Unsigned.to_uint_inj.
  apply (f_equal NilEmpty.uint_of_string) in H. rewrite !NilEmpty.usu in H.
  now inversion H.
Qed.

Lemma statusText_spaceFree statusCode : spaceFree (statusText statusCode).
Proof.
  destruct statusCode as [c|]; cbn.
  - apply digits_spaceFree, decimal_digits.
  - intros c Hc ->. cbn in Hc. intuition discriminate.
Qed.

Lemma statusText_inj s s' : statusText s = statusText s' -> s = s'.
Proof.
  destruct s as [c|], s' as [c'|]; cbn; intros H.
  - f_equal. now apply decimal_inj.
  - pose proof (decimal_digits c) as Hd. rewrite H in Hd. discriminate.
  - pose proof (decimal_digits c') as Hd. rewrite <- H in Hd. discriminate.
  - reflexivity.
Qed.

(** The message of the API error can be read back: it determines the
    status and the text of the body. *)
Lemma apiError_inj s s' (text text' : string) :
  "Docker API Error: " +++ statusText s +++ " - " +++ text +++ " "
  = "Docker API Error: " +++ statusText s' +++ " - " +++ text' +++ " " ->
  s = s' /\ text = text'.
Proof.
  intros H. apply append_inj_l in H.
  apply split_at_space in H; try apply statusText_spaceFree.
  destruct H as [Hs Ht]. split; [now apply statusText_inj|].
  apply (append_inj_l "- ") in Ht. now apply append_space_inj.
Qed.

Lemma dockerRequest_error socketPath method path body w e w' :
  http_request {| socketPath := socketPath; path := path; method := method;
                  jsonContentType := true; body := body |} w
  = (RequestError e, w') ->
  resultOf (dockerRequest socketPath method path body w) = inl e.
Proof.
  intros H. unfold dockerRequest, bind, request, resultOf. rewrite H. reflexivity.
Qed.

(** C6, as the code has it.  A request that gets no answer rejects with the
    error of the socket.  A request that is answered resolves with the parsed
    value when the status is 2xx and the text of the body parses as JSON,
    with an empty object when the status is 2xx and the text is empty, with
    the text when the status is 2xx and the text is not JSON; it rejects
    exactly when the status is missing or not 2xx, with the message
    [Docker API Error: <status> - <text> ], the status in decimal.  The text
    is the body as [buffer.toString()] decodes it.  So [dockerRequest]
    rejects exactly when the request gets no answer or is answered with a
    status that is not 2xx, and the message of an API error determines the
    status and the text. *)
Theorem dockerRequest_outcomes socketPath method path body w :
  let request := {| socketPath := socketPath; path := path; method := method;
                    jsonContentType := true; body := body |} in
  let outcome := resultOf (dockerRequest socketPath method path body w) in
  (forall e w', http_request request w = (RequestError e, w') -> outcome = inl e)
  /\ (forall statusCode buffer w',
        http_request request w = (Response statusCode buffer, w') ->
        let responseBody := Buffer_toString buffer in
        (forall v, status2xx statusCode -> JSON_parse responseBody = Some v ->
                   outcome = inr v)
        /\ (status2xx statusCode -> responseBody = EmptyString ->
            outcome = inr js_emptyObject)
        /\ (status2xx statusCode -> responseBody <> EmptyString ->
            JSON_parse responseBody = None -> outcome = inr (js_string responseBody))
        /\ ((exists e, outcome = inl e) <-> ~ status2xx statusCode)
        /\ (forall c, statusCode = Some c -> ~ status2xx statusCode ->
                      outcome = inl (PlainError ("Docker API Error: " +++ decimal c
                                                 +++ " - " +++ responseBody +++ " ")))
        /\ (statusCode = None ->
            outcome = inl (PlainError ("Docker API Error: undefined - "
                                       +++ responseBody +++ " "))))
  /\ ((exists e, outcome = inl e)
      <-> (exists e w', http_request request w = (RequestError e, w'))
          \/ (exists statusCode buffer w',
                 http_request request w = (Response statusCode buffer, w')
                 /\ ~ status2xx statusCode))
  /\ (forall c c' (text text' : string),
        "Docker API Error: " +++ decimal c +++ " - " +++ text +++ " "
        = "Docker API Error: " +++ decimal c' +++ " - " +++ text' +++ " " ->
        c = c' /\ text = text').
Proof.
  intros request outcome.
  assert (Hanswered : forall statusCode buffer w',
             http_request request w = (Response statusCode buffer, w') ->
             outcome = onEnd statusCode buffer).
  { intros statusCode buffer w' H. now apply dockerRequest_response with (w' := w'). }
  assert (Hreject : forall statusCode buffer,
             (exists e, onEnd statusCode buffer = inl e) <-> ~ status2xx statusCode).
  { intros statusCode buffer. unfold onEnd. rewrite <- isSuccess_2xx.
    destruct (isSuccess statusCode).
    - split; [|intros Hn; now contradiction Hn].
      intros [e He]. destruct (truthy _); [destruct (JSON_parse _)|]; discriminate.
    - split; [intros _; discriminate | intros _; eexists; reflexivity]. }
  split; [|split; [|split]].
  - intros e w' H. now apply dockerRequest_error with (w' := w').
  - intros statusCode buffer w' H responseBody.
    rewrite (Hanswered _ _ _ H).
    split; [|split; [|split; [|split; [|split]]]].
    + intros v Hs Hv. apply isSuccess_2xx in Hs. unfold onEnd. fold responseBody.
      rewrite Hs, Hv. destruct (truthy responseBody) eqn:Ht; [reflexivity|].
      assert (responseBody = EmptyString) as He
          by (destruct responseBody; [reflexivity | discriminate]).
      rewrite He, JSON_parse_empty in Hv. discriminate.
    + intros Hs He. apply isSuccess_2xx in Hs. unfold onEnd. fold responseBody.
      now rewrite Hs, He.
    + intros Hs Hne Hp. apply isSuccess_2xx in Hs. apply truthy_nonempty in Hne.
      unfold onEnd. fold responseBody. now rewrite Hs, Hne, Hp.
    + apply Hreject.
    + intros c -> Hn. unfold onEnd. fold responseBody.
      destruct (isSuccess (Some c)) eqn:Hs; [|reflexivity].
      apply isSuccess_2xx in Hs. contradiction.
    + intros ->. reflexivity.
  - split.
    + intros He. destruct (http_request request w) as [[e0|statusCode buffer] w'] eqn:Hq.
      * left. eauto.
      * right. exists statusCode, buffer, w'. split; [reflexivity|].
        apply (Hreject statusCode buffer). now rewrite <- (Hanswered _ _ _ eq_refl).
    + intros [(e & w' & H)|(statusCode & buffer & w' & H & Hn)].
      * exists e. now apply dockerRequest_error with (w' := w').
      * rewrite (Hanswered _ _ _ H). now apply Hreject.
  - intros c c' text text' H.
    destruct (apiError_inj (Some c) (Some c') text text' H) as [Hc Ht].
    inversion Hc. now split.
Qed.

(** Every step of the lifecycle issues one request. *)
Lemma dockerRequest_calls socketPath m p b w :
  callsOf (dockerRequest socketPath m p b w)
  = [{| socketPath := socketPath; path := p; method := m;
        jsonContentType := true; body := b |}].
Proof.
  unfold dockerRequest, bind, request, callsOf.
  destruct (http_request _ w) as [o w1]. destruct o; reflexivity.
Qed.

Lemma pullImage_calls socketPath image w :
  callsOf (pullImage socketPath image w)
  = [{| socketPath := socketPath;
        path := "/images/create?fromImage=" +++ encodeURIComponent image;
        method := POST; jsonContentType := false; body := None |}].
Proof.
  unfold pullImage, bind, request, callsOf.
  destruct (http_request _ w) as [o w1]. destruct o; reflexivity.
Qed.

Ltac run_dockerRequest w :=
  match goal with
  | |- context [dockerRequest ?a ?b ?c ?d w] =>
      let Hc := fresh "Hc" in
      pose proof (dockerRequest_calls a b c d w) as Hc;
      destruct (dockerRequest a b c d w) as [[? ?] ?];
      unfold callsOf in Hc; simpl in Hc; subst
  end.

Lemma createContainer_calls socketPath image cmd envVars w :
  existsb isRemove (callsOf (createContainer socketPath image cmd envVars w)) = false.
Proof.
  unfold createContainer, bind, callsOf. run_dockerRequest w.
  destruct s; reflexivity.
Qed.

Lemma startContainer_calls socketPath containerId w :
  existsb isRemove (callsOf (startContainer socketPath containerId w)) = false.
Proof. unfold startContainer. now rewrite dockerRequest_calls. Qed.

Lemma waitContainer_calls socketPath containerId w :
  existsb isRemove (callsOf (waitContainer socketPath containerId w)) = false.
Proof.
  unfold waitContainer, bind, callsOf. run_dockerRequest w.
  destruct s; reflexivity.
Qed.

Lemma removeContainer_calls socketPath containerId w :
  existsb isRemove (callsOf (removeContainer socketPath containerId w)) = true.
Proof. unfold removeContainer. now rewrite dockerRequest_calls. Qed.

Lemma getLogs_calls socketPath containerId w :
  existsb isRemove (callsOf (getLogs socketPath containerId w)) = false.
Proof.
  unfold getLogs, bind, request, callsOf.
  destruct (http_request _ w) as [o w1]. destruct o; reflexivity.
Qed.

Lemma parseLogs_settles (logs : Buffer) (w : World) :
  exists r, parseLogs logs w = (r, w, []).
Proof.
  unfold parseLogs. destruct (DockerLogs.parseDockerLogs logs) as [r|];
    eexists; reflexivity.
Qed.

(** The pull step reads no status: a response ends it well, whatever the
    Engine answered. *)
Lemma pullImage_ignores_status socketPath image w statusCode buffer w' :
  http_request {| socketPath := socketPath;
                  path := "/images/create?fromImage=" +++ encodeURIComponent image;
                  method := POST; jsonContentType := false; body := None |} w
  = (Response statusCode buffer, w') ->
  resultOf (pullImage socketPath image w) = inr tt.
Proof.
  intros H. unfold pullImage, bind, request, resultOf. now rewrite H.
Qed.


Lemma getLogs_run socketPath containerId w :
  getLogs socketPath containerId w
  = match http_request (logsRequest socketPath containerId) w with
    | (RequestError e, w') => (inl e, w', [logsRequest socketPath containerId])
    | (Response _ buffer, w') => (inr buffer, w', [logsRequest socketPath containerId])
    end.
Proof.
  unfold getLogs, bind, request. fold (logsRequest socketPath containerId).
  now destruct (http_request (logsRequest socketPath containerId) w) as [[e|c b] w'].
Qed.

Lemma removeContainer_requests socketPath containerId w :
  callsOf (removeContainer socketPath containerId w) = [removeRequest socketPath containerId].
Proof. unfold removeContainer. now rewrite dockerRequest_calls. Qed.

(** C3, as the code has it.  Once the container is created and started:
    when the Wait step rejects, when the logs request gets no answer, or when
    the body of its answer cannot be demultiplexed, [runContainer] ends with
    that error and no Remove request is issued.  The status of the logs
    answer is never read: an answer of any status whose body demultiplexes
    is followed by the Remove request, which is then the last request and
    the only Remove; when it rejects, its error is what the caller receives
    in place of the result, and when it resolves the caller receives the two
    streams and the status of the wait.  So a Remove request is issued
    exactly when the Wait step resolved, the logs request was answered and
    the body demultiplexed. *)
Theorem remove_only_after_logs socketPath image command args envVars
  w0 w1 w2 w3 t1 t2 t3 containerId started :
  pullImage socketPath image w0 = (inr tt, w1, t1) ->
  createContainer socketPath image (fullCmd command args) envVars w1
  = (inr containerId, w2, t2) ->
  startContainer socketPath containerId w2 = (inr started, w3, t3) ->
  let run := runContainer socketPath image command args envVars w0 in
  (forall e w4 t4,
      waitContainer socketPath containerId w3 = (inl e, w4, t4) ->
      resultOf run = inl e /\ existsb isRemove (callsOf run) = false)
  /\ (forall status w4 t4,
        waitContainer socketPath containerId w3 = (inr status, w4, t4) ->
        (forall e w5,
            http_request (logsRequest socketPath containerId) w4 = (RequestError e, w5) ->
            resultOf run = inl e /\ existsb isRemove (callsOf run) = false)
        /\ (forall statusCode logs w5,
              http_request (logsRequest socketPath containerId) w4
              = (Response statusCode logs, w5) ->
              (forall e,
                  DockerLogs.parseDockerLogs logs = Some (inl e) ->
                  resultOf run = inl e /\ existsb isRemove (callsOf run) = false)
              /\ (forall streams,
                    DockerLogs.parseDockerLogs logs = Some (inr streams) ->
                    callsOf run
                    = t1 ++ t2 ++ t3 ++ t4
                      ++ [logsRequest socketPath containerId;
                          removeRequest socketPath containerId]
                    /\ existsb isRemove
                         (t1 ++ t2 ++ t3 ++ t4 ++ [logsRequest socketPath containerId])
                       = false
                    /\ resultOf run
                       = match resultOf (removeContainer socketPath containerId w5) with
                         | inl e => inl e
                         | inr _ => inr {| stdout := fst streams;
                                           stderr := snd streams;
                                           statusCode := status |}
                         end)))
  /\ (existsb isRemove (callsOf run) = true
      <-> exists status w4 t4 statusCode logs w5 streams,
            waitContainer socketPath containerId w3 = (inr status, w4, t4)
            /\ http_request (logsRequest socketPath containerId) w4
               = (Response statusCode logs, w5)
            /\ DockerLogs.parseDockerLogs logs = Some (inr streams)).
Proof.
  intros Hpull Hcreate Hstart run.
  assert (N1 : existsb isRemove t1 = false).
  { pose proof (pullImage_calls socketPath image w0) as H.
    rewrite Hpull in H. unfold callsOf in H. simpl in H. now subst t1. }
  assert (N2 : existsb isRemove t2 = false).
  { pose proof (createContainer_calls socketPath image (fullCmd command args) envVars w1) as H.
    now rewrite Hcreate in H. }
  assert (N3 : existsb isRemove t3 = false).
  { pose proof (startContainer_calls socketPath containerId w2) as H.
    now rewrite Hstart in H. }
  assert (Wait : forall e w4 t4,
             waitContainer socketPath containerId w3 = (inl e, w4, t4) ->
             resultOf run = inl e /\ existsb isRemove (callsOf run) = false).
  { intros e w4 t4 Hwait.
    assert (N4 : existsb isRemove t4 = false).
    { pose proof (waitContainer_calls socketPath containerId w3) as H.
      now rewrite Hwait in H. }
    unfold run, runContainer, bind, resultOf, callsOf.
    rewrite Hpull, Hcreate, Hstart, Hwait. simpl.
    split; [reflexivity|]. now rewrite !existsb_app, N1, N2, N3, N4. }
  assert (Logs : forall status w4 t4,
             waitContainer socketPath containerId w3 = (inr status, w4, t4) ->
             existsb isRemove t4 = false
             /\ (forall e w5,
                    http_request (logsRequest socketPath containerId) w4
                    = (RequestError e, w5) ->
                    resultOf run = inl e /\ existsb isRemove (callsOf run) = false)
             /\ (forall statusCode logs w5,
                    http_request (logsRequest socketPath containerId) w4
                    = (Response statusCode logs, w5) ->
                    (forall e,
                        DockerLogs.parseDockerLogs logs = Some (inl e) ->
                        resultOf run = inl e /\ existsb isRemove (callsOf run) = false)
                    /\ (DockerLogs.parseDockerLogs logs = None ->
                        existsb isRemove (callsOf run) = false)
                    /\ (forall streams,
                          DockerLogs.parseDockerLogs logs = Some (inr streams) ->
                          callsOf run
                          = t1 ++ t2 ++ t3 ++ t4
                            ++ [logsRequest socketPath containerId;
                                removeRequest socketPath containerId]
                          /\ existsb isRemove
                               (t1 ++ t2 ++ t3 ++ t4
                                ++ [logsRequest socketPath containerId]) = false
                          /\ resultOf run
                             = match resultOf
                                       (removeContainer socketPath containerId w5) with
                               | inl e => inl e
                               | inr _ => inr {| stdout := fst streams;
                                                 stderr := snd streams;
                                                 statusCode := status |}
                               end))).
  { intros status w4 t4 Hwait.
    assert (N4 : existsb isRemove t4 = false).
    { pose proof (waitContainer_calls socketPath containerId w3) as H.
      now rewrite Hwait in H. }
    split; [exact N4|]. split.
    - intros e w5 Hq.
      unfold run, runContainer, bind, resultOf, callsOf.
      rewrite Hpull, Hcreate, Hstart, Hwait, getLogs_run, Hq. simpl.
      split; [reflexivity|]. now rewrite !existsb_app, N1, N2, N3, N4.
    - intros statusCode logs w5 Hq. split; [|split].
      + intros e Hparse.
        unfold run, runContainer, bind, resultOf, callsOf, parseLogs.
        rewrite Hpull, Hcreate, Hstart, Hwait, getLogs_run, Hq, Hparse. simpl.
        split; [reflexivity|]. now rewrite !existsb_app, N1, N2, N3, N4.
      + intros Hparse.
        unfold run, runContainer, bind, resultOf, callsOf, parseLogs.
        rewrite Hpull, Hcreate, Hstart, Hwait, getLogs_run, Hq, Hparse. simpl.
        now rewrite !existsb_app, N1, N2, N3, N4.
      + intros streams Hparse.
        pose proof (removeContainer_requests socketPath containerId w5) as Hrm.
        unfold run, runContainer, bind, resultOf, callsOf, parseLogs.
        rewrite Hpull, Hcreate, Hstart, Hwait, getLogs_run, Hq, Hparse.
        unfold settled.
        destruct (removeContainer socketPath containerId w5) as [[[e|removed] w6] t6];
          unfold callsOf in Hrm; cbn in Hrm; subst t6; cbn.
        * split; [reflexivity|].
          split; [|reflexivity]. now rewrite !existsb_app, N1, N2, N3, N4.
        * split; [first [reflexivity | now rewrite !app_nil_r]|].
          split; [|reflexivity]. now rewrite !existsb_app, N1, N2, N3, N4. }
  split; [exact Wait|]. split.
  - intros status w4 t4 Hwait. destruct (Logs _ _ _ Hwait) as (_ & L1 & L2).
    split; [exact L1|]. intros statusCode logs w5 Hq.
    destruct (L2 _ _ _ Hq) as (P1 & _ & P3). split; [exact P1 | exact P3].
  - split.
    + intros Hrem.
      destruct (waitContainer socketPath containerId w3) as [[[e|status] w4] t4] eqn:Hwait.
      { destruct (Wait _ _ _ eq_refl) as [_ Hno]. congruence. }
      destruct (Logs _ _ _ eq_refl) as (_ & L1 & L2).
      destruct (http_request (logsRequest socketPath containerId) w4)
        as [[e|statusCode logs] w5] eqn:Hq.
      { destruct (L1 _ _ eq_refl) as [_ Hno]. congruence. }
      destruct (L2 _ _ _ eq_refl) as (P1 & P2 & _).
      destruct (DockerLogs.parseDockerLogs logs) as [[e|streams]|] eqn:Hparse.
      * destruct (P1 _ eq_refl) as [_ Hno]. congruence.
      * exists status, w4, t4, statusCode, logs, w5, streams. now repeat split.
      * rewrite (P2 eq_refl) in Hrem. discriminate.
    + intros (status & w4 & t4 & statusCode & logs & w5 & streams & Hwait & Hq & Hparse).
      destruct (Logs _ _ _ Hwait) as (_ & _ & L2).
      destruct (L2 _ _ _ Hq) as (_ & _ & P3).
      destruct (P3 _ Hparse) as (Hcalls & _ & _). rewrite Hcalls.
      rewrite !existsb_app. cbn. now rewrite !orb_true_r.
Qed.

End LegacyFacts.



Lemma remove_only_after_logs_witness :
  map (fun r => (Legacy.method r, Legacy.path r))
      (callsOf (Legacy.sampleRun Legacy.scriptLogsRefused))
  = [(Legacy.POST, "/images/create?fromImage=alpine%3Alatest"%string);
     (Legacy.POST, "/containers/create"%string);
     (Legacy.POST, "/containers/c0ffee/start"%string);
     (Legacy.POST, "/containers/c0ffee/wait"%string);
     (Legacy.GET, "/containers/c0ffee/logs?stdout=1&stderr=1&stderr=1&logs=1"%string);
     (Legacy.DELETE, "/containers/c0ffee?v=1"%string)]
  /\ resultOf (Legacy.sampleRun Legacy.scriptLogsRefused)
     = inr (@Legacy.Build_RunResult Legacy.sampleRuntime [] []
              (Legacy.VScalar (Legacy.SNumber 0))).
Proof.
  pose proof (remove_only_after_logs (rt := Legacy.sampleRuntime)
                (engine := Legacy.scriptedEngine)
                "/var/run/docker.sock" "alpine:latest" "echo" "hello" []
                Legacy.scriptLogsRefused eq_refl eq_refl eq_refl) as H.
  destruct H as (_ & H & _).
  destruct (H _ _ _ eq_refl) as (_ & Hlogs).
  destruct (Hlogs _ _ _ eq_refl) as (_ & Hparsed).
  destruct (Hparsed _ eq_refl) as (Hcalls & _ & Hresult).
  split; [|exact Hresult].
  exact (f_equal (map (fun r => (Legacy.method r, Legacy.path r))) Hcalls).
Defined.

(** C3 as stated fails twice.  With the wait request losing its connection
    after the container was created and started, the four requests issued
    are pull, create, start and wait, and no Remove follows; with the
    removal refused after a complete run, the caller receives the error of
    the removal and not the result of the run. *)
Lemma remove_on_failure_counterexample :
  resultOf (Legacy.sampleRun Legacy.scriptWaitFails) = inl Legacy.connectionReset
  /\ map (fun r => (Legacy.method r, Legacy.path r))
         (callsOf (Legacy.sampleRun Legacy.scriptWaitFails))
     = [(Legacy.POST, "/images/create?fromImage=alpine%3Alatest"%string);
        (Legacy.POST, "/containers/create"%string);
        (Legacy.POST, "/containers/c0ffee/start"%string);
        (Legacy.POST, "/containers/c0ffee/wait"%string)]
  /\ resultOf (Legacy.sampleRun Legacy.scriptRemoveFails)
     = inl (PlainError "Docker API Error: 409 - removal in progress ").
Proof. repeat split; reflexivity. Qed.

(* --------------------------------------------------------------------- *)
(** ** The staging pipeline: rules for [spec]                             *)
(* --------------------------------------------------------------------- *)

Section PipelineRules.
Import Pipeline.
Context {host : Host}.

Lemma acquiredDirs_app (a b : list Event) :
  acquiredDirs (a ++ b) = acquiredDirs a ++ acquiredDirs b.
Proof. unfold acquiredDirs. apply flat_map_app. Qed.

Section Rules.
Variables (PE : Event -> Prop) (PD : ExecutionData -> Prop).

Lemma spec_ret {A} (Q : A -> Prop) (a : A) : Q a -> spec PE PD Q (ret a).
Proof.
  intros HQ s. cbn. repeat split.
  - constructor.
  - exists []. now rewrite app_nil_r.
  - now rewrite app_nil_r.
  - intros a' H. now inversion H; subst.
Qed.

Lemma spec_throw {A} (Q : A -> Prop) (e : Error) : spec PE PD Q (throw e).
Proof.
  intros s. cbn. repeat split.
  - constructor.
  - exists []. now rewrite app_nil_r.
  - now rewrite app_nil_r.
  - intros a' H. discriminate.
Qed.

Lemma spec_bind {A B} (Q : A -> Prop) (R : B -> Prop) (m : Async A) (k : A -> Async B) :
  spec PE PD Q m -> (forall a, Q a -> spec PE PD R (k a)) -> spec PE PD R (bind m k).
Proof.
  intros Hm Hk s. specialize (Hm s). unfold bind.
  destruct (m s) as [[r s1] t1]. cbn in Hm.
  destruct Hm as (HE & (ds & Hds & HD) & HT & HQ).
  destruct r as [e|a].
  - cbn. repeat split; trivial.
    + exists ds. now split.
    + intros a H. discriminate.
  - specialize (Hk a (HQ a eq_refl) s1).
    destruct (k a s1) as [[r2 s2] t2]. cbn in Hk |- *.
    destruct Hk as (HE2 & (ds2 & Hds2 & HD2) & HT2 & HQ2).
    repeat split.
    + apply Forall_app. now split.
    + exists (ds ++ ds2). split.
      * now rewrite Hds2, Hds, app_assoc.
      * apply Forall_app. now split.
    + now rewrite HT2, HT, acquiredDirs_app, app_assoc.
    + exact HQ2.
Qed.

Lemma spec_tryCatch {A} (Q : A -> Prop) (m : Async A) (handler : Error -> Async A) :
  spec PE PD Q m -> (forall e, spec PE PD Q (handler e)) ->
  spec PE PD Q (tryCatch m handler).
Proof.
  intros Hm Hh s. specialize (Hm s). unfold tryCatch.
  destruct (m s) as [[r s1] t1]. cbn in Hm.
  destruct Hm as (HE & (ds & Hds & HD) & HT & HQ).
  destruct r as [e|a].
  - specialize (Hh e s1).
    destruct (handler e s1) as [[r2 s2] t2]. cbn in Hh |- *.
    destruct Hh as (HE2 & (ds2 & Hds2 & HD2) & HT2 & HQ2).
    repeat split.
    + apply Forall_app. now split.
    + exists (ds ++ ds2). split.
      * now rewrite Hds2, Hds, app_assoc.
      * apply Forall_app. now split.
    + now rewrite HT2, HT, acquiredDirs_app, app_assoc.
    + exact HQ2.
  - cbn. repeat split; trivial. exists ds. now split.
Qed.

Lemma spec_weaken {A} (Q Q' : A -> Prop) (m : Async A) :
  spec PE PD Q m -> (forall a, Q a -> Q' a) -> spec PE PD Q' m.
Proof.
  intros Hm HQQ s. destruct (Hm s) as (HE & HD & HT & HQ).
  repeat split; trivial. intros a Ha. apply HQQ. now apply HQ.
Qed.

(** A call that hands no directory over. *)
Lemma spec_call {A} (Q : A -> Prop) (f : HostWorld -> (Error + A) * HostWorld)
  (event : Error + A -> Event) :
  (forall w r w', f w = (r, w') ->
     PE (event r) /\ acquired (event r) = [] /\ (forall a, r = inr a -> Q a)) ->
  spec PE PD Q (call f event).
Proof.
  intros H s. unfold call. destruct (f (world s)) as [r w'] eqn:E.
  destruct (H _ _ _ E) as (HP & HA & HQ). cbn. repeat split.
  - repeat constructor. exact HP.
  - exists []. now rewrite app_nil_r.
  - unfold acquiredDirs. cbn. rewrite HA. cbn. now rewrite app_nil_r.
  - exact HQ.
Qed.

(** A call that hands a directory over, followed by the [push] that
    registers it. *)
Lemma spec_acquire {A B} (Q : A -> Prop) (R : B -> Prop)
  (f : HostWorld -> (Error + A) * HostWorld) (event : Error + A -> Event)
  (dirOf : A -> string) (k : A -> Async B) :
  (forall w r w', f w = (r, w') ->
     PE (event r)
     /\ acquired (event r) = match r with inr a => [dirOf a] | inl _ => [] end
     /\ (forall a, r = inr a -> Q a)) ->
  (forall a, Q a -> spec PE PD R (k a)) ->
  spec PE PD R (bind (call f event) (fun a => bind (pushTempDirectory (dirOf a))
                                                (fun _ => k a))).
Proof.
  intros H Hk s. unfold bind, call, pushTempDirectory.
  destruct (f (world s)) as [r w'] eqn:E.
  destruct (H _ _ _ E) as (HP & HA & HQ).
  destruct r as [e|a].
  - cbn. repeat split.
    + repeat constructor. exact HP.
    + exists []. now rewrite app_nil_r.
    + unfold acquiredDirs. cbn. rewrite HA. cbn. now rewrite app_nil_r.
    + intros a Ha. discriminate.
  - match goal with
    | |- context [k a ?s1] => specialize (Hk a (HQ a eq_refl) s1);
                               destruct (k a s1) as [[r2 s2] t2]
    end.
    cbn in Hk |- *.
    destruct Hk as (HE2 & (ds2 & Hds2 & HD2) & HT2 & HQ2).
    repeat split.
    + constructor; [exact HP | exact HE2].
    + exists ds2. now split.
    + rewrite HT2, HA. cbn. now rewrite <- app_assoc.
    + exact HQ2.
Qed.

Lemma spec_getWorld (Q : HostWorld -> Prop) : (forall w, Q w) -> spec PE PD Q getWorld.
Proof.
  intros HQ s. cbn. repeat split.
  - constructor.
  - exists []. now rewrite app_nil_r.
  - now rewrite app_nil_r.
  - intros a _. apply HQ.
Qed.

Lemma spec_getReturnData (Q : list ExecutionData -> Prop) :
  (forall l, Q l) -> spec PE PD Q getReturnData.
Proof.
  intros HQ s. cbn. repeat split.
  - constructor.
  - exists []. now rewrite app_nil_r.
  - now rewrite app_nil_r.
  - intros a _. apply HQ.
Qed.

Lemma spec_pushReturnData (Q : unit -> Prop) (d : ExecutionData) :
  PD d -> Q tt -> spec PE PD Q (pushReturnData d).
Proof.
  intros Hd HQ s. cbn. repeat split.
  - constructor.
  - exists [d]. split; [reflexivity | now repeat constructor].
  - now rewrite app_nil_r.
  - intros [] _. exact HQ.
Qed.

End Rules.

(** Weaker conditions on the calls and on the data. *)
Lemma spec_relax {A} (PE PE' : Event -> Prop) (PD PD' : ExecutionData -> Prop)
  (Q : A -> Prop) (m : Async A) :
  spec PE PD Q m -> (forall e, PE e -> PE' e) -> (forall d, PD d -> PD' d) ->
  spec PE' PD' Q m.
Proof.
  intros Hm HE HD s. destruct (Hm s) as (H1 & (ds & H2 & H3) & H4 & H5).
  repeat split; trivial.
  - eapply Forall_impl; [|exact H1]. exact HE.
  - exists ds. split; trivial. eapply Forall_impl; [|exact H3]. exact HD.
Qed.

(** The shared staging block. *)
Lemma stageBinaryData_spec (PE : Event -> Prop) (PD : ExecutionData -> Prop)
  itemIndex binaryDataInput binaryDataOutput mappings containerConfig :
  (forall r, PE (EvPrepareBinaryInput itemIndex mappings r)) ->
  (forall pathPrefix r, PE (EvMkdtemp itemIndex pathPrefix r)) ->
  (forall dir r, PE (EvCreateOutputDirectory itemIndex dir r)) ->
  spec PE PD (staged itemIndex binaryDataInput binaryDataOutput mappings containerConfig)
    (stageBinaryData itemIndex binaryDataInput binaryDataOutput mappings containerConfig).
Proof.
  intros Hprep Hmk Hout. unfold stageBinaryData, staged.
  destruct binaryDataInput.
  - destruct mappings as [|m ms]; [now apply spec_ret|].
    cbv zeta.
    apply spec_acquire
      with (Q := fun prepared => exists w w',
                   prepareBinaryInput itemIndex (m :: ms) w = (inr prepared, w')).
    + intros w r w' E. split; [apply Hprep|]. split.
      * destruct r; reflexivity.
      * intros a ->. eauto.
    + intros prepared (w & w' & E).
      eapply spec_bind
        with (Q := fun v => v = map inputBind (mountPoints prepared)
                               ++ (if binaryDataOutput then [outputBind (tempDir prepared)]
                                   else [])).
      * destruct binaryDataOutput.
        -- eapply spec_bind with (Q := fun _ => True).
           ++ apply spec_call. intros w1 r w1' E1.
              split; [apply Hout|]. split; [reflexivity | trivial].
           ++ intros _ _. now apply spec_ret.
        -- apply spec_ret. now rewrite app_nil_r.
      * intros v ->. apply spec_ret. eauto.
  - destruct binaryDataOutput; [|now apply spec_ret].
    eapply spec_bind with (Q := fun _ => True); [now apply spec_getWorld|].
    intros w _. cbv zeta.
    apply spec_acquire with (Q := fun _ => True).
    + intros w1 r w1' E. split; [apply Hmk|]. split.
      * destruct r; reflexivity.
      * trivial.
    + intros dir _.
      eapply spec_bind with (Q := fun _ => True).
      * apply spec_call. intros w1 r w1' E1.
        split; [apply Hout|]. split; [reflexivity | trivial].
      * intros _ _. apply spec_ret. eauto.
Qed.

(** Running the container and collecting its output. *)
Lemma runAndCollect_spec (PE : Event -> Prop) (PD : ExecutionData -> Prop)
  itemIndex image containerConfig dir envCount socketPath binaryDataInput
  binaryDataOutput outputFilePattern :
  (forall r, PE (EvExecuteContainer itemIndex containerConfig r)) ->
  (forall d, wantsOutput binaryDataOutput dir = Some d ->
             PE (EvCollectBinaryOutput itemIndex d outputFilePattern)) ->
  spec PE PD
    (fun data => pairedItem data = itemIndex
                 /\ (wantsOutput binaryDataOutput dir = None -> binary data = None))
    (runAndCollect itemIndex image containerConfig dir envCount socketPath
       binaryDataInput binaryDataOutput outputFilePattern).
Proof.
  intros Hexec Hcollect. unfold runAndCollect.
  eapply spec_bind with (Q := fun _ => True).
  - apply spec_call. intros w r w' E.
    split; [apply Hexec|]. split; [reflexivity | trivial].
  - intros result _. cbv zeta.
    destruct (wantsOutput binaryDataOutput dir) as [d|] eqn:Hw.
    + eapply spec_bind with (Q := fun _ => True).
      * apply spec_call. intros w r w' E.
        split; [now apply Hcollect|]. split; [reflexivity | trivial].
      * intros outputBinary _.
        destruct outputBinary; apply spec_ret; split;
          try reflexivity; intros; discriminate.
    + apply spec_ret. split; reflexivity.
Qed.

(** The [finally] block: one cleanup call per registered directory, in
    order, whatever the calls return; it never throws and touches neither
    array. *)
Lemma cleanupAllSettled_run (dirs : list string) : forall s,
  (exists rs, resultOf (cleanupAllSettled dirs s) = inr rs)
  /\ forallb isCleanup (callsOf (cleanupAllSettled dirs s)) = true
  /\ flat_map cleaned (callsOf (cleanupAllSettled dirs s)) = dirs
  /\ Forall (fun e => exists d r, e = EvCleanupTempDirectory d r)
       (callsOf (cleanupAllSettled dirs s)).
Proof.
  induction dirs as [|dir rest IH]; intros s.
  - cbn. repeat split; eauto.
  - cbn [cleanupAllSettled]. unfold bind, settle, call.
    destruct (cleanupTempDirectory dir (world s)) as [r w'].
    match goal with
    | |- context [cleanupAllSettled rest ?s1] =>
        specialize (IH s1); destruct (cleanupAllSettled rest s1) as [[rr s2] t2]
    end.
    cbn in IH. destruct IH as ((rs & Hrs) & Hall & Hdirs & Hev). subst rr.
    cbn. rewrite app_nil_r. repeat split.
    + eauto.
    + exact Hall.
    + now f_equal.
    + constructor; [eauto | exact Hev].
Qed.

Lemma cleanupTempDirectories_run (s : State) :
  (exists rs, resultOf (cleanupTempDirectories s) = inr rs)
  /\ forallb isCleanup (callsOf (cleanupTempDirectories s)) = true
  /\ flat_map cleaned (callsOf (cleanupTempDirectories s)) = tempDirectories s
  /\ Forall (fun e => exists d r, e = EvCleanupTempDirectory d r)
       (callsOf (cleanupTempDirectories s)).
Proof.
  unfold cleanupTempDirectories, bind, getTempDirectories.
  pose proof (cleanupAllSettled_run (tempDirectories s) s) as H.
  destruct (cleanupAllSettled (tempDirectories s) s) as [[r s1] t1].
  exact H.
Qed.

(** [try { main } finally { cleanup }] keeps the outcome of [main] and adds
    the cleanup calls after the calls of [main]. *)
Lemma finally_run {A} (main : Async A) (s0 : State) :
  resultOf (tryFinally main cleanupTempDirectories s0) = resultOf (main s0)
  /\ callsOf (tryFinally main cleanupTempDirectories s0)
     = callsOf (main s0) ++ callsOf (cleanupTempDirectories (stateOf (main s0))).
Proof.
  unfold tryFinally. destruct (main s0) as [[r s1] t1].
  unfold stateOf at 1. cbn [fst snd].
  destruct (cleanupTempDirectories_run s1) as ((rs & Hrs) & _).
  destruct (cleanupTempDirectories s1) as [[rf s2] t2]. cbn in Hrs. subst rf.
  split; reflexivity.
Qed.

Lemma not_cleanup_existsb (calls : list Event) :
  Forall (fun e => isCleanup e = false) calls -> existsb isCleanup calls = false.
Proof.
  induction 1 as [|e l He _ IH]; [reflexivity|]. cbn. now rewrite He, IH.
Qed.

Lemma finally_cleansUp {A} (Q : A -> Prop) (main : Async A) (w : HostWorld) :
  spec (fun e => isCleanup e = false) (fun _ => True) Q main ->
  cleansUpAfter main (initialState w)
    (tryFinally main cleanupTempDirectories (initialState w)).
Proof.
  intros Hm. destruct (Hm (initialState w)) as (HE & _ & HT & _).
  destruct (finally_run main (initialState w)) as (Hr & Hc).
  destruct (cleanupTempDirectories_run (stateOf (main (initialState w))))
    as (_ & Hall & Hdirs & _).
  split; [exact Hr|]. split; [now apply not_cleanup_existsb|].
  eexists. split; [exact Hc|]. split; [exact Hall|].
  rewrite Hdirs, HT. reflexivity.
Qed.

Lemma finally_spec {A} (PE : Event -> Prop) (PD : ExecutionData -> Prop) (Q : A -> Prop)
  (main : Async A) (s0 : State) :
  spec PE PD Q main ->
  (forall d r, PE (EvCleanupTempDirectory d r)) ->
  Forall PE (callsOf (tryFinally main cleanupTempDirectories s0))
  /\ (forall a, resultOf (tryFinally main cleanupTempDirectories s0) = inr a -> Q a).
Proof.
  intros Hm Hc. destruct (Hm s0) as (HE & _ & _ & HQ).
  destruct (finally_run main s0) as (Hr & Hcalls).
  destruct (cleanupTempDirectories_run (stateOf (main s0))) as (_ & _ & _ & Hev).
  split.
  - rewrite Hcalls. apply Forall_app. split; [exact HE|].
    eapply Forall_impl; [|exact Hev]. intros e (d & r & ->). apply Hc.
  - intros a Ha. apply HQ. now rewrite <- Hr.
Qed.

End PipelineRules.

(* --------------------------------------------------------------------- *)
(** ** [RunContainer.execute]                                             *)
(* --------------------------------------------------------------------- *)

Section NodeFacts.
Import Pipeline Node.
Context {host : Host}.
Variable getNodeParameter : nat -> NodeParameters.

(** The [try] block of an item, given what its staging block does. *)
Lemma tryItem_spec (PE : Event -> Prop) (PD : ExecutionData -> Prop) i
  (SQ : ContainerExecutionConfig * option string -> Prop) :
  PE (EvProcessEnvironmentVariables i) ->
  (forall cfg, unmounted cfg ->
               spec PE PD SQ
                 (stageBinaryData i (binaryDataInput (getNodeParameter i))
                    (binaryDataOutput (getNodeParameter i))
                    (binaryFileMappings (getNodeParameter i)) cfg)) ->
  (forall st r, SQ st -> PE (EvExecuteContainer i (fst st) r)) ->
  (forall st d, SQ st -> wantsOutput (binaryDataOutput (getNodeParameter i)) (snd st) = Some d ->
                PE (EvCollectBinaryOutput i d (outputFilePattern (getNodeParameter i)))) ->
  (forall st data, SQ st -> pairedItem data = i ->
                   (wantsOutput (binaryDataOutput (getNodeParameter i)) (snd st) = None ->
                    binary data = None) ->
                   PD data) ->
  spec PE PD (fun _ => True) (tryItem getNodeParameter i).
Proof.
  intros Henv Hstage Hexec Hcollect Hdata. unfold tryItem. cbv zeta.
  eapply spec_bind with (Q := fun _ => True); [now apply spec_getWorld|].
  intros w _.
  destruct (negb (valid (validateDockerImageName (image (getNodeParameter i)))));
    [apply spec_throw|].
  eapply spec_bind with (Q := fun _ => True).
  { apply spec_call. intros w1 r w1' E. split; [exact Henv|]. split; [reflexivity|trivial]. }
  intros envResult _.
  eapply spec_bind; [apply Hstage; repeat split|].
  intros st Hst.
  eapply spec_bind.
  { apply runAndCollect_spec.
    - intros r. now apply Hexec.
    - intros d Hd. now apply Hcollect with (st := st). }
  intros data (Hp & Hb). cbv beta in Hp, Hb.
  apply spec_pushReturnData; [|trivial].
  now apply Hdata with (st := st).
Qed.

Lemma catchItem_spec (PE : Event -> Prop) (PD : ExecutionData -> Prop) i error :
  (forall data, pairedItem data = i -> binary data = None -> PD data) ->
  spec PE PD (fun _ => True) (catchItem getNodeParameter i error).
Proof.
  intros Hdata. unfold catchItem. cbv zeta.
  eapply spec_bind with (Q := fun _ => True); [now apply spec_getWorld|].
  intros w _. destruct (continueOnFail w); [|apply spec_throw].
  apply spec_pushReturnData; [|trivial]. now apply Hdata.
Qed.

(** Whatever an item does, its calls carry its index, none of them is a
    cleanup, and the data it appends is paired with it. *)
Lemma processItem_tagged i :
  spec (fun e => itemOf e = Some i /\ isCleanup e = false)
       (fun data => pairedItem data = i) (fun _ => True)
       (processItem getNodeParameter i).
Proof.
  unfold processItem. apply spec_tryCatch.
  - apply tryItem_spec with (SQ := fun _ => True); try (intros; now split).
    + intros cfg _. eapply spec_weaken.
      * apply stageBinaryData_spec; intros; now split.
      * trivial.
    + intros st data _ Hp _. exact Hp.
  - intros e. apply catchItem_spec. intros data Hp _. exact Hp.
Qed.

Lemma forItems_spec (PE : Event -> Prop) (PD : ExecutionData -> Prop) :
  (forall j, spec PE PD (fun _ => True) (processItem getNodeParameter j)) ->
  forall remaining itemIndex,
    spec PE PD (fun _ => True) (forItems getNodeParameter itemIndex remaining).
Proof.
  intros Hitem. induction remaining as [|remaining IH]; intros itemIndex.
  - now apply spec_ret.
  - cbn [forItems]. eapply spec_bind; [apply Hitem|]. intros _ _. apply IH.
Qed.

(** From the items to the whole of [execute]: what holds of each item's
    calls and data (and of cleanup calls) holds of the calls of [execute]
    and of the data it returns. *)
Lemma execute_spec (PE : Event -> Prop) (PD : ExecutionData -> Prop) itemsLength w :
  (forall j, spec PE PD (fun _ => True) (processItem getNodeParameter j)) ->
  (forall d r, PE (EvCleanupTempDirectory d r)) ->
  Forall PE (callsOf (execute getNodeParameter itemsLength w))
  /\ (forall l, resultOf (execute getNodeParameter itemsLength w) = inr l -> Forall PD l).
Proof.
  intros Hitem Hclean. unfold execute.
  destruct (finally_run (attempt getNodeParameter itemsLength) (initialState w))
    as (Hr & Hcalls).
  destruct (cleanupTempDirectories_run
              (stateOf (attempt getNodeParameter itemsLength (initialState w))))
    as (_ & _ & _ & Hev).
  pose proof (forItems_spec Hitem itemsLength 0 (initialState w)) as Hloop.
  rewrite Hr, Hcalls. clear Hr Hcalls.
  revert Hev. unfold attempt, bind, getReturnData.
  destruct (forItems getNodeParameter 0 itemsLength (initialState w)) as [[r s1] t1].
  cbn in Hloop. destruct Hloop as (HE & (ds & Hds & HD) & _ & _).
  destruct r as [e|[]]; cbn; intros Hev.
  - split.
    + apply Forall_app. split; [exact HE|].
      eapply Forall_impl; [|exact Hev]. intros e' (d & r & ->). apply Hclean.
    + intros l Hl. discriminate.
  - split.
    + rewrite app_nil_r. apply Forall_app. split; [exact HE|].
      eapply Forall_impl; [|exact Hev]. intros e' (d & r & ->). apply Hclean.
    + intros l Hl. inversion Hl; subst. first [exact HD | now rewrite Hds].
Qed.

Lemma attempt_spec :
  forall itemsLength,
    spec (fun e => isCleanup e = false) (fun _ => True) (fun _ => True)
      (attempt getNodeParameter itemsLength).
Proof.
  intros itemsLength. unfold attempt.
  eapply spec_bind with (Q := fun _ => True).
  - apply forItems_spec. intros j. eapply spec_relax; [apply processItem_tagged| |].
    + now intros e [_ H].
    + trivial.
  - intros _ _. now apply spec_getReturnData.
Qed.

End NodeFacts.

(* --------------------------------------------------------------------- *)
(** ** [executeContainerWithBinary]                                       *)
(* --------------------------------------------------------------------- *)

Section ToolFacts.
Import Pipeline Tool.
Context {host : Host}.

Lemma tryRun_spec (PE : Event -> Prop) (PD : ExecutionData -> Prop) i params
  (SQ : ContainerExecutionConfig * option string -> Prop) (R : ExecutionData -> Prop) :
  (forall cfg, unmounted cfg ->
               spec PE PD SQ
                 (stageBinaryData i (binaryDataInput params) (binaryDataOutput params)
                    (binaryFileMappings params) cfg)) ->
  (forall st r, SQ st -> PE (EvExecuteContainer i (fst st) r)) ->
  (forall st d, SQ st -> wantsOutput (binaryDataOutput params) (snd st) = Some d ->
                PE (EvCollectBinaryOutput i d (outputFilePattern params))) ->
  (forall st data, SQ st -> pairedItem data = i ->
                   (wantsOutput (binaryDataOutput params) (snd st) = None ->
                    binary data = None) ->
                   R data) ->
  spec PE PD R (tryRun i params).
Proof.
  intros Hstage Hexec Hcollect Hdata. unfold tryRun. cbv zeta.
  eapply spec_bind with (Q := fun _ => True); [now apply spec_getWorld|].
  intros w _.
  destruct (negb (valid (validateDockerImageName (image params))));
    [apply spec_throw|].
  eapply spec_bind; [apply Hstage; repeat split|].
  intros st Hst.
  eapply spec_weaken.
  { apply runAndCollect_spec.
    - intros r. now apply Hexec.
    - intros d Hd. now apply Hcollect with (st := st). }
  intros data (Hp & Hb). now apply Hdata with (st := st).
Qed.

Lemma attempt_of_tryRun (PE : Event -> Prop) (PD : ExecutionData -> Prop) i params
  (R : ExecutionData -> Prop) :
  spec PE PD R (tryRun i params) -> spec PE PD R (attempt i params).
Proof.
  intros H. unfold attempt. apply spec_tryCatch; [exact H|].
  intros e. apply spec_throw.
Qed.

Lemma tool_attempt_spec i params :
  spec (fun e => isCleanup e = false) (fun _ => True) (fun _ => True) (attempt i params).
Proof.
  apply attempt_of_tryRun.
  apply tryRun_spec with (SQ := fun _ => True); try (intros; reflexivity); trivial.
  intros cfg _. eapply spec_weaken.
  - apply stageBinaryData_spec; intros; reflexivity.
  - trivial.
Qed.

End ToolFacts.

(* --------------------------------------------------------------------- *)
(** ** Properties of the two callers                                      *)
(* --------------------------------------------------------------------- *)

Section CallerProperties.
Import Pipeline.
Context {host : Host}.

(** C5. In [RunContainer.execute] and in [executeContainerWithBinary], for
    every behaviour of the collaborators (so on success, on a validation
    failure, on a staging failure and on an Engine failure alike), the run
    ends with one cleanup call for each temporary directory handed over to
    the caller, after all the other calls; each directory gets its call
    whatever the other cleanups returned, and the outcome of the run is the
    outcome of its [try] block, cleanup results playing no part in it. *)
Theorem temp_directories_cleaned :
  (forall getNodeParameter itemsLength w,
      cleansUpAfter (Node.attempt getNodeParameter itemsLength) (initialState w)
        (Node.execute getNodeParameter itemsLength w))
  /\ (forall itemIndex params w,
      cleansUpAfter (Tool.attempt itemIndex params) (initialState w)
        (Tool.executeContainerWithBinary itemIndex params w)).
Proof.
  split.
  - intros getNodeParameter itemsLength w. unfold Node.execute.
    eapply finally_cleansUp. apply attempt_spec.
  - intros itemIndex params w. unfold Tool.executeContainerWithBinary.
    eapply finally_cleansUp. apply tool_attempt_spec.
Qed.

(** An item whose image name fails validation: the [try] block throws at
    once, and the [catch] block makes no call either. *)
Lemma processItem_invalid (PE : Event -> Prop) (PD : ExecutionData -> Prop)
  getNodeParameter i :
  valid (validateDockerImageName (Node.image (getNodeParameter i))) = false ->
  (forall data, pairedItem data = i -> binary data = None -> PD data) ->
  spec PE PD (fun _ => True) (Node.processItem getNodeParameter i).
Proof.
  intros Hinvalid Hdata. unfold Node.processItem. apply spec_tryCatch.
  - unfold Node.tryItem. cbv zeta.
    eapply spec_bind with (Q := fun _ => True); [now apply spec_getWorld|].
    intros w _. rewrite Hinvalid. apply spec_throw.
  - intros e. now apply catchItem_spec.
Qed.

(** The calls of the other items do not concern item [i]. *)
Lemma processItem_other (PE : Event -> Prop) (PD : ExecutionData -> Prop)
  getNodeParameter i j :
  j <> i ->
  spec (fun e => itemOf e = Some i -> PE e) (fun d => pairedItem d = i -> PD d)
    (fun _ => True) (Node.processItem getNodeParameter j).
Proof.
  intros Hji. eapply spec_relax; [apply processItem_tagged| |].
  - intros e [Hj _] Hi. congruence.
  - intros d Hj Hi. congruence.
Qed.

(** C7. Validation of the image name precedes every outside call.  In
    [RunContainer.execute], the [try] block of an item whose image name is
    refused throws the error that lists the violations, leaving the state
    as it was, and no call of the whole run is made for that item; in
    [executeContainerWithBinary] the run makes no call at all and throws
    that error, as the [catch] block words it. *)
Theorem validation_before_engine :
  (forall getNodeParameter itemsLength w i,
      valid (validateDockerImageName (Node.image (getNodeParameter i))) = false ->
      (forall s,
          Node.tryItem getNodeParameter i s
          = (inl (NodeOperationError
                    ("Invalid Docker image: "
                     +++ join ", " (errors (validateDockerImageName
                                              (Node.image (getNodeParameter i)))))
                    i),
             s, []))
      /\ Forall (fun e => itemOf e <> Some i)
           (callsOf (Node.execute getNodeParameter itemsLength w)))
  /\ (forall itemIndex params w,
      valid (validateDockerImageName (Tool.image params)) = false ->
      Tool.executeContainerWithBinary itemIndex params w
      = (inl (NodeOperationError
                (describeError
                   (NodeOperationError
                      ("Invalid Docker image: "
                       +++ join ", " (errors (validateDockerImageName (Tool.image params))))
                      itemIndex)
                   (Tool.image params))
                itemIndex),
         initialState w, [])).
Proof.
  split.
  - intros getNodeParameter itemsLength w i Hinvalid. split.
    + intros s. unfold Node.tryItem, bind, getWorld. rewrite Hinvalid. reflexivity.
    + apply (execute_spec (PE := fun e => itemOf e <> Some i) (PD := fun _ => True)).
      * intros j. destruct (Nat.eq_dec j i) as [->|Hji].
        -- now apply processItem_invalid.
        -- eapply spec_relax; [apply processItem_tagged| |trivial].
           intros e [Hj _] Hi. congruence.
      * intros d r. discriminate.
  - intros itemIndex params w Hinvalid.
    unfold Tool.executeContainerWithBinary, tryFinally, Tool.attempt, tryCatch,
      Tool.tryRun, bind, getWorld.
    rewrite Hinvalid. reflexivity.
Qed.

(** With binary input enabled and a mapping, the staging block returns a
    configuration built from what [prepareBinaryInput] returned. *)
Lemma staged_built i binaryDataOutput m ms cfg st :
  staged i true binaryDataOutput (m :: ms) cfg st ->
  builtFromStaged i (m :: ms) binaryDataOutput (fst st).
Proof.
  intros (prepared & w & w' & E & ->). exists prepared, w, w'.
  split; [exact E | reflexivity].
Qed.

(** C8. When binary inputs were staged for an execution (binary input
    enabled and at least one mapping), the configuration the container is
    run with has, as volumes, one bind [<hostPath>:<containerPath>:ro] for
    each mount point that [prepareBinaryInput] returned, followed by at most
    one other bind, present exactly when binary output is enabled, which is
    [<tempDir>/output:/output:rw]. *)
Theorem staged_volume_binds :
  (forall getNodeParameter itemsLength w i,
      Node.binaryDataInput (getNodeParameter i) = true ->
      Node.binaryFileMappings (getNodeParameter i) <> [] ->
      Forall (fun e => forall config r,
                  e = EvExecuteContainer i config r ->
                  builtFromStaged i (Node.binaryFileMappings (getNodeParameter i))
                    (Node.binaryDataOutput (getNodeParameter i)) config)
        (callsOf (Node.execute getNodeParameter itemsLength w)))
  /\ (forall itemIndex params w,
      Tool.binaryDataInput params = true ->
      Tool.binaryFileMappings params <> [] ->
      Forall (fun e => forall config r,
                  e = EvExecuteContainer itemIndex config r ->
                  builtFromStaged itemIndex (Tool.binaryFileMappings params)
                    (Tool.binaryDataOutput params) config)
        (callsOf (Tool.executeContainerWithBinary itemIndex params w))).
Proof.
  split.
  - intros getNodeParameter itemsLength w i Hin Hmaps.
    destruct (Node.binaryFileMappings (getNodeParameter i)) as [|m ms] eqn:Em;
      [congruence|].
    apply (execute_spec
             (PE := fun e => forall config r,
                        e = EvExecuteContainer i config r ->
                        builtFromStaged i (m :: ms)
                          (Node.binaryDataOutput (getNodeParameter i)) config)
             (PD := fun _ => True)).
    + intros j. destruct (Nat.eq_dec j i) as [->|Hji].
      * unfold Node.processItem. apply spec_tryCatch.
        -- apply tryItem_spec
             with (SQ := fun st => builtFromStaged i (m :: ms)
                                     (Node.binaryDataOutput (getNodeParameter i)) (fst st));
             try (intros; discriminate); trivial.
           ++ intros cfg _. rewrite Hin, Em. eapply spec_weaken.
              ** apply stageBinaryData_spec; intros; discriminate.
              ** intros st Hst. now apply staged_built with (cfg := cfg).
           ++ intros st r Hst config r' Heq. now inversion Heq; subst.
        -- intros e. now apply catchItem_spec.
      * eapply spec_relax; [apply processItem_tagged| |trivial].
        intros e [Hj _] config r ->. cbn in Hj. congruence.
    + intros d r config r' Heq. discriminate.
  - intros itemIndex params w Hin Hmaps.
    destruct (Tool.binaryFileMappings params) as [|m ms] eqn:Em; [congruence|].
    unfold Tool.executeContainerWithBinary.
    apply (finally_spec
             (PE := fun e => forall config r,
                        e = EvExecuteContainer itemIndex config r ->
                        builtFromStaged itemIndex (m :: ms)
                          (Tool.binaryDataOutput params) config)
             (PD := fun _ => True) (Q := fun _ => True)).
    + apply attempt_of_tryRun.
      apply tryRun_spec
        with (SQ := fun st => builtFromStaged itemIndex (m :: ms)
                                (Tool.binaryDataOutput params) (fst st));
        try (intros; discriminate); trivial.
      * intros cfg _. rewrite Hin, Em. eapply spec_weaken.
        -- apply stageBinaryData_spec; intros; discriminate.
        -- intros st Hst. now apply staged_built with (cfg := cfg).
      * intros st r Hst config r' Heq. now inversion Heq; subst.
    + intros d r config r' Heq. discriminate.
Qed.

Lemma stagesNothing_intro i e :
  isStaging e = false -> isCollect e = false ->
  (forall config r, e = EvExecuteContainer i config r -> unmounted config) ->
  stagesNothing i e.
Proof. intros H1 H2 H3. split; [exact H1 | split; [exact H2 | exact H3]]. Qed.

Lemma stagesNothing_cleanup i d r : stagesNothing i (EvCleanupTempDirectory d r).
Proof. apply stagesNothing_intro; try reflexivity. intros config r' H. discriminate. Qed.

Lemma stagesNothing_run i cfg r :
  unmounted cfg -> stagesNothing i (EvExecuteContainer i cfg r).
Proof.
  intros Hu. apply stagesNothing_intro; try reflexivity.
  intros config r' Heq. now inversion Heq; subst.
Qed.

(** C10. With binary input enabled and an empty mapping list, in both
    callers: no call creates a temporary directory or an output directory,
    the container is run with no volumes and no resource limits, no output
    is read back, and the data returned carries no binary output; binary
    output being enabled changes none of this. *)
Theorem empty_mappings_stage_nothing :
  (forall getNodeParameter itemsLength w i,
      Node.binaryDataInput (getNodeParameter i) = true ->
      Node.binaryFileMappings (getNodeParameter i) = [] ->
      Forall (fun e => itemOf e = Some i -> stagesNothing i e)
        (callsOf (Node.execute getNodeParameter itemsLength w))
      /\ (forall l,
             resultOf (Node.execute getNodeParameter itemsLength w) = inr l ->
             Forall (fun data => pairedItem data = i -> binary data = None) l))
  /\ (forall itemIndex params w,
      Tool.binaryDataInput params = true ->
      Tool.binaryFileMappings params = [] ->
      Forall (stagesNothing itemIndex)
        (callsOf (Tool.executeContainerWithBinary itemIndex params w))
      /\ (forall data,
             resultOf (Tool.executeContainerWithBinary itemIndex params w) = inr data ->
             binary data = None)).
Proof.
  split.
  - intros getNodeParameter itemsLength w i Hin Hmaps.
    apply (execute_spec (PE := fun e => itemOf e = Some i -> stagesNothing i e)
             (PD := fun data => pairedItem data = i -> binary data = None)).
    + intros j. destruct (Nat.eq_dec j i) as [->|Hji].
      * unfold Node.processItem. apply spec_tryCatch.
        -- apply tryItem_spec with (SQ := fun st => unmounted (fst st) /\ snd st = None).
           ++ intros _. apply stagesNothing_intro; try reflexivity.
              intros config r H. discriminate.
           ++ intros cfg Hcfg. rewrite Hin, Hmaps. now apply spec_ret.
           ++ intros st r [Hu _] _. now apply stagesNothing_run.
           ++ intros st d [_ Hn] Hw. rewrite Hn in Hw. discriminate.
           ++ intros st data [_ Hn] _ Hb _. apply Hb. now rewrite Hn.
        -- intros e. apply catchItem_spec. intros data _ Hb _. exact Hb.
      * now apply processItem_other.
    + intros d r H. discriminate.
  - intros itemIndex params w Hin Hmaps.
    unfold Tool.executeContainerWithBinary.
    apply (finally_spec (PE := stagesNothing itemIndex) (PD := fun _ => True)
             (Q := fun data => binary data = None)).
    + apply attempt_of_tryRun.
      apply tryRun_spec with (SQ := fun st => unmounted (fst st) /\ snd st = None).
      * intros cfg Hcfg. rewrite Hin, Hmaps. now apply spec_ret.
      * intros st r [Hu _]. now apply stagesNothing_run.
      * intros st d [_ Hn] Hw. rewrite Hn in Hw. discriminate.
      * intros st data [_ Hn] _ Hb. apply Hb. now rewrite Hn.
    + apply stagesNothing_cleanup.
Qed.

End CallerProperties.

(** On the sample host, where every cleanup fails, the run of three items
    still returns its three results, and the one temporary directory that
    was handed over gets its cleanup call. *)
Example sample_run_cleans_up :
  flat_map Pipeline.cleaned
    (callsOf (Node.execute (host := Sample.host) Sample.nodeParameters 3 0%N))
  = ["/tmp/n8n-docker-input-0"%string]
  /\ option_map (@length _)
       (match resultOf (Node.execute (host := Sample.host) Sample.nodeParameters 3 0%N)
        with inr l => Some l | inl _ => None end)
     = Some 3.
Proof. split; reflexivity. Qed.

Lemma validation_before_engine_witness :
  Forall (fun e => Pipeline.itemOf e <> Some 1)
    (callsOf (Node.execute (host := Sample.host) Sample.nodeParameters 3 0%N)).
Proof.
  exact (proj2 (proj1 (validation_before_engine (host := Sample.host))
                  Sample.nodeParameters 3 0%N 1 eq_refl)).
Defined.

Lemma staged_volume_binds_witness :
  Forall (fun e => forall config r,
              e = Pipeline.EvExecuteContainer 0 config r ->
              Pipeline.builtFromStaged (host := Sample.host) 0 Sample.oneMapping true
                config)
    (callsOf (Node.execute (host := Sample.host) Sample.nodeParameters 3 0%N)).
Proof.
  refine (proj1 (staged_volume_binds (host := Sample.host))
            Sample.nodeParameters 3 0%N 0 eq_refl _).
  discriminate.
Defined.

Lemma empty_mappings_stage_nothing_witness :
  Forall (Pipeline.stagesNothing 7)
    (callsOf (Tool.executeContainerWithBinary (host := Sample.host) 7
                (Sample.toolParams "alpine:latest" []) 0%N))
  /\ (forall data,
        resultOf (Tool.executeContainerWithBinary (host := Sample.host) 7
                    (Sample.toolParams "alpine:latest" []) 0%N) = inr data ->
        Pipeline.binary (host := Sample.host) data = None).
Proof.
  exact (proj2 (empty_mappings_stage_nothing (host := Sample.host))
           7 (Sample.toolParams "alpine:latest" []) 0%N eq_refl eq_refl).
Defined.

(* --------------------------------------------------------------------- *)
(** ** The resource-limit estimator                                       *)
(* --------------------------------------------------------------------- *)

Section EstimatorFacts.
Import Pipeline ResourceLimitEstimator.

Lemma clamp_bounds (floor ceiling x : N) :
  (floor <= ceiling)%N -> (floor <= clamp floor ceiling x <= ceiling)%N.
Proof. unfold clamp. lia. Qed.

Lemma clamp_monotone (floor ceiling x y : N) :
  (x <= y)%N -> (clamp floor ceiling x <= clamp floor ceiling y)%N.
Proof. unfold clamp. lia. Qed.

(** C9. The estimator is non-decreasing in the total input size, in memory
    and in CPU quota, and for every size, however large, each limit lies
    between its floor and its ceiling. *)
Theorem estimate_monotone_bounded
  (memoryFloor memoryCeiling cpuFloor cpuCeiling : N) (scaleMemory scaleCpu : N -> N) :
  (memoryFloor <= memoryCeiling)%N ->
  (cpuFloor <= cpuCeiling)%N ->
  nonDecreasing scaleMemory ->
  nonDecreasing scaleCpu ->
  let estimate := estimate memoryFloor memoryCeiling cpuFloor cpuCeiling
                    scaleMemory scaleCpu in
  (forall a b, (a <= b)%N ->
     (ResourceLimits.memory (estimate a) <= ResourceLimits.memory (estimate b))%N
     /\ (ResourceLimits.cpuQuota (estimate a) <= ResourceLimits.cpuQuota (estimate b))%N)
  /\ (forall n,
       (memoryFloor <= ResourceLimits.memory (estimate n) <= memoryCeiling)%N
       /\ (cpuFloor <= ResourceLimits.cpuQuota (estimate n) <= cpuCeiling)%N).
Proof.
  intros Hm Hc Hsm Hsc est. split.
  - intros a b Hab. unfold est, estimate. cbn. split.
    + apply clamp_monotone. now apply Hsm.
    + apply clamp_monotone. now apply Hsc.
  - intros n. unfold est, estimate. cbn. split; now apply clamp_bounds.
Qed.

End EstimatorFacts.

Lemma estimate_monotone_bounded_witness :
  (forall a b, (a <= b)%N ->
     (Pipeline.ResourceLimits.memory (ResourceLimitEstimator.sampleEstimate a)
      <= Pipeline.ResourceLimits.memory (ResourceLimitEstimator.sampleEstimate b))%N
     /\ (Pipeline.ResourceLimits.cpuQuota (ResourceLimitEstimator.sampleEstimate a)
         <= Pipeline.ResourceLimits.cpuQuota (ResourceLimitEstimator.sampleEstimate b))%N)
  /\ (forall n,
       (268435456
        <= Pipeline.ResourceLimits.memory (ResourceLimitEstimator.sampleEstimate n)
        <= 2147483648)%N
       /\ (50000
           <= Pipeline.ResourceLimits.cpuQuota (ResourceLimitEstimator.sampleEstimate n)
           <= 200000)%N).
Proof.
  refine (@estimate_monotone_bounded 268435456 2147483648 50000 200000
            (fun n => 268435456 + 4 * n)%N (fun n => 50000 + n / 1000000)%N _ _ _ _).
  - lia.
  - lia.
  - intros a b Hab. lia.
  - intros a b Hab.
    pose proof (N.Div0.div_le_mono a b 1000000 Hab). lia.
Defined.

Lemma dockerRequest_outcomes_witness :
  resultOf (Legacy.dockerRequest (rt := Legacy.sampleRuntime)
              (engine := Legacy.scriptedEngine)
              "/var/run/docker.sock" Legacy.POST "/containers/c0ffee/start" None
              [Legacy.respond 404 "no such container"])
  = inl (PlainError "Docker API Error: 404 - no such container ").
Proof.
  refine (proj1 (proj2 (proj2 (proj2 (proj2
            (proj1 (proj2 (@dockerRequest_outcomes Legacy.sampleRuntime
                             Legacy.scriptedEngine
                             "/var/run/docker.sock" Legacy.POST
                             "/containers/c0ffee/start" None
                             [Legacy.respond 404 "no such container"]))
               _ _ _ eq_refl)))))
            404%N eq_refl _).
  intros (c & Hc & H). inversion Hc; subst. lia.
Defined.

(** C6 as stated fails twice.  A request that gets no answer rejects
    although there is no status, and its error carries neither a status nor
    a body; and the body in the message of an API error is the decoded text,
    not the bytes received: a body of the one byte [FF] reads as U+FFFD. *)
Lemma dockerRequest_counterexample :
  resultOf (Legacy.dockerRequest (rt := Legacy.sampleRuntime)
              (engine := Legacy.scriptedEngine)
              "/var/run/docker.sock" Legacy.POST "/containers/c0ffee/start" None
              [Legacy.RequestError Legacy.connectionReset])
  = inl (SystemError "ECONNRESET" "socket hang up")
  /\ resultOf (Legacy.dockerRequest (rt := Legacy.utf8Runtime)
                 (engine := Legacy.scriptedEngine)
                 "/var/run/docker.sock" Legacy.POST "/containers/c0ffee/start" None
                 [Legacy.Response (Some 500%N) [xff]])
     = inl (PlainError ("Docker API Error: 500 - "
                        +++ string_of_list_byte [xef; xbf; xbd] +++ " "))
  /\ string_of_list_byte [xef; xbf; xbd] <> string_of_list_byte [xff].
Proof. split; [reflexivity|]. split; [reflexivity | discriminate]. Qed.

(* ===================================================================== *)
(** * Part III. Further properties of the code                            *)
(* ===================================================================== *)

(* --------------------------------------------------------------------- *)
(** ** The log parser on arbitrary frames and arbitrary buffers           *)
(* --------------------------------------------------------------------- *)

Section DockerLogsMore.
Import DockerLogs.

Lemma bufLength_rawHeader (f : RawFrame) : bufLength (rawHeader f) = 8%N.
Proof. unfold rawHeader. destruct (reserved f) as [[r1 r2] r3]. reflexivity. Qed.

Lemma appendByType_tag (t : byte) (content stdout stderr : Buffer) :
  appendByType (Some t) content stdout stderr
  = (stdout ++ (if Byte.eqb t x01 then content else []),
     stderr ++ (if Byte.eqb t x02 then content else [])).
Proof. destruct t; cbn; rewrite ?app_nil_r; reflexivity. Qed.

(** One round of the loop at a frame with any tag and any reserved bytes. *)
Lemma parseLoop_rawFrame rounds (pre tail : Buffer) (f : RawFrame) stdout stderr :
  rawFits f ->
  parseLoop (S rounds) (pre ++ encodeRaw f ++ tail) (bufLength pre) stdout stderr
  = parseLoop rounds (pre ++ encodeRaw f ++ tail) (bufLength (pre ++ encodeRaw f))
      (stdout ++ (if Byte.eqb (tag f) x01 then payload f else []))
      (stderr ++ (if Byte.eqb (tag f) x02 then payload f else [])).
Proof.
  intros Hn. unfold rawFits in Hn.
  set (buf := pre ++ encodeRaw f ++ tail).
  assert (Hlen : bufLength (encodeRaw f) = (8 + bufLength (payload f))%N).
  { unfold encodeRaw. now rewrite bufLength_app, bufLength_rawHeader. }
  assert (Hlt : (bufLength pre <? bufLength buf)%N = true).
  { apply N.ltb_lt. unfold buf. rewrite !bufLength_app, Hlen. lia. }
  cbn [parseLoop]. rewrite Hlt.
  assert (Hsplit : encodeRaw f ++ tail
                   = [tag f; fst (fst (reserved f)); snd (fst (reserved f));
                      snd (reserved f)]
                       ++ uint32BE (bufLength (payload f)) ++ payload f ++ tail).
  { unfold encodeRaw, rawHeader. destruct (reserved f) as [[r1 r2] r3].
    cbn [fst snd]. now rewrite <- !app_assoc. }
  assert (Hty : byteAt buf (bufLength pre) = Some (tag f)).
  { unfold buf. rewrite <- (N.add_0_r (bufLength pre)) at 1.
    rewrite byteAt_app_r, Hsplit. reflexivity. }
  assert (Hsz : readUInt32BE buf (bufLength pre + 4) = inr (bufLength (payload f))).
  { unfold buf. rewrite readUInt32BE_app_r, Hsplit.
    change 4%N with (bufLength [tag f; fst (fst (reserved f)); snd (fst (reserved f));
                                snd (reserved f)] + 0)%N.
    rewrite readUInt32BE_app_r. now apply readUInt32BE_uint32BE. }
  assert (Hsl : slice buf (bufLength pre + 8) (bufLength pre + 8 + bufLength (payload f))
                = payload f).
  { unfold buf. rewrite <- N.add_assoc, slice_app_r.
    unfold encodeRaw. rewrite <- app_assoc.
    rewrite <- (bufLength_rawHeader f).
    rewrite <- (N.add_0_r (bufLength (rawHeader f))) at 1.
    rewrite slice_app_r, slice_from_start. apply firstn_bufLength_app. }
  rewrite Hty, Hsz, Hsl, appendByType_tag.
  replace (bufLength pre + 8 + bufLength (payload f))%N
    with (bufLength (pre ++ encodeRaw f))
    by (rewrite bufLength_app, Hlen; lia).
  reflexivity.
Qed.

Lemma payloadsTagged_cons t (f : RawFrame) frames :
  payloadsTagged t (f :: frames)
  = (if Byte.eqb (tag f) t then payload f else []) ++ payloadsTagged t frames.
Proof.
  unfold payloadsTagged. cbn. destruct (Byte.eqb (tag f) t); reflexivity.
Qed.

Lemma parseLoop_rawFrames (frames : list RawFrame) :
  Forall rawFits frames ->
  forall rounds (pre rest : Buffer) stdout stderr,
    parseLoop (length frames + rounds) (pre ++ encodeRawFrames frames ++ rest)
      (bufLength pre) stdout stderr
    = parseLoop rounds (pre ++ encodeRawFrames frames ++ rest)
        (bufLength (pre ++ encodeRawFrames frames))
        (stdout ++ payloadsTagged x01 frames)
        (stderr ++ payloadsTagged x02 frames).
Proof.
  induction 1 as [|f frames Hf _ IH]; intros rounds pre rest stdout stderr.
  - unfold encodeRawFrames, payloadsTagged. cbn. now rewrite !app_nil_r.
  - change (encodeRawFrames (f :: frames)) with (encodeRaw f ++ encodeRawFrames frames).
    rewrite <- !app_assoc.
    change (length (f :: frames) + rounds) with (S (length frames + rounds)).
    rewrite parseLoop_rawFrame by exact Hf.
    specialize (IH rounds (pre ++ encodeRaw f) rest).
    rewrite <- !app_assoc in IH. rewrite IH.
    rewrite !payloadsTagged_cons, <- !app_assoc. reflexivity.
Qed.

Lemma length_encodeRawFrames (frames : list RawFrame) :
  length frames <= length (encodeRawFrames frames).
Proof.
  induction frames as [|f frames IH]; [cbn; lia|].
  change (encodeRawFrames (f :: frames)) with (encodeRaw f ++ encodeRawFrames frames).
  rewrite length_app. unfold encodeRaw. rewrite length_app.
  pose proof (bufLength_rawHeader f) as H. unfold bufLength in H.
  change (length (f :: frames)) with (S (length frames)). lia.
Qed.

(** X1. Whatever the first byte of each header and whatever its three
    reserved bytes, the frames tagged 1 go to stdout, the frames tagged 2 go
    to stderr, and every other frame is skipped whole. *)
Theorem demux_skips_other_tags (frames : list RawFrame) :
  Forall rawFits frames ->
  parseDockerLogs (encodeRawFrames frames)
  = Some (inr (payloadsTagged x01 frames, payloadsTagged x02 frames)).
Proof.
  intros Hfit. unfold parseDockerLogs.
  pose proof (length_encodeRawFrames frames) as Hlen.
  replace (S (length (encodeRawFrames frames)))
    with (length frames + (S (length (encodeRawFrames frames)) - length frames)) by lia.
  pose proof (parseLoop_rawFrames Hfit
                (S (length (encodeRawFrames frames)) - length frames) [] [] [] []) as H.
  cbn [app] in H. rewrite app_nil_r in H.
  change (bufLength []) with 0%N in H. rewrite H.
  apply parseLoop_at_end.
Qed.

Lemma length_slice (buf : Buffer) (a b : N) :
  N.of_nat (length (slice buf a b))
  = (N.min b (bufLength buf) - N.min a (bufLength buf))%N.
Proof.
  unfold slice. rewrite length_firstn, length_skipn. unfold bufLength. lia.
Qed.

(** The streams never hold more bytes than the part of the buffer the
    loop has walked over. *)
Lemma parseLoop_bounded rounds : forall buf offset stdout stderr out err,
  (N.of_nat (length stdout + length stderr) <= N.min offset (bufLength buf))%N ->
  parseLoop rounds buf offset stdout stderr = Some (inr (out, err)) ->
  length out + length err <= length buf.
Proof.
  induction rounds as [|rounds IH]; intros buf offset stdout stderr out err Hinv H.
  - cbn [parseLoop] in H. destruct (offset <? bufLength buf)%N; [discriminate|].
    inversion H; subst. unfold bufLength in Hinv. lia.
  - cbn [parseLoop] in H. destruct (offset <? bufLength buf)%N eqn:Hlt.
    2:{ inversion H; subst. unfold bufLength in Hinv. lia. }
    destruct (readUInt32BE buf (offset + 4)) as [e|size]; [discriminate|].
    pose proof (length_slice buf (offset + 8) (offset + 8 + size)) as Hs.
    destruct (appendByType (byteAt buf offset)
                (slice buf (offset + 8) (offset + 8 + size)) stdout stderr)
      as [o' e'] eqn:Happ.
    apply IH in H; [exact H|].
    assert (Hgrow : length o' + length e'
                    <= length stdout + length stderr
                       + length (slice buf (offset + 8) (offset + 8 + size))).
    { unfold appendByType in Happ.
      destruct (byteAt buf offset) as [t|]; [|inversion Happ; subst; lia].
      destruct t; inversion Happ; subst; rewrite ?length_app; lia. }
    lia.
Qed.

(** X2. The parser invents no bytes: when it returns, stdout and stderr
    together are no longer than the buffer. *)
Theorem demux_output_bounded (buf out err : Buffer) :
  parseDockerLogs buf = Some (inr (out, err)) ->
  length out + length err <= length buf.
Proof.
  intros H. unfold parseDockerLogs in H.
  eapply parseLoop_bounded; [|exact H]. cbn. lia.
Qed.

Lemma parseLoop_error rounds : forall buf offset stdout stderr e,
  parseLoop rounds buf offset stdout stderr = Some (inl e) ->
  e = RangeError "offset out of range".
Proof.
  induction rounds as [|rounds IH]; intros buf offset stdout stderr e H.
  - cbn [parseLoop] in H. destruct (offset <? bufLength buf)%N; discriminate.
  - cbn [parseLoop] in H. destruct (offset <? bufLength buf)%N; [|discriminate].
    destruct (readUInt32BE buf (offset + 4)) as [e'|size] eqn:Hr.
    + inversion H; subst. unfold readUInt32BE in Hr.
      destruct (byteAt buf (offset + 4)); [|now inversion Hr].
      destruct (byteAt buf (offset + 4 + 1)); [|now inversion Hr].
      destruct (byteAt buf (offset + 4 + 2)); [|now inversion Hr].
      destruct (byteAt buf (offset + 4 + 3)); [discriminate | now inversion Hr].
    + destruct (appendByType _ _ _ _) as [o' e']. now apply IH in H.
Qed.

(** X3. On every buffer the loop comes to an end, with the two streams or
    with the range error of a header read, and with nothing else. *)
Theorem demux_returns (buf : Buffer) :
  (exists out err, parseDockerLogs buf = Some (inr (out, err)))
  \/ parseDockerLogs buf = Some (inl (RangeError "offset out of range")).
Proof.
  pose proof (parseDockerLogs_returns buf) as Hr.
  destruct (parseDockerLogs buf) as [[e|[out err]]|] eqn:H; [| |contradiction].
  - right. unfold parseDockerLogs in H. apply parseLoop_error in H. now subst.
  - left. eauto.
Qed.

(** X4. After any run of complete frames, a trailing fragment of one to
    seven bytes makes the parser raise, and the frames decoded so far are
    lost with it. *)
Theorem demux_short_header_raises (frames : list Frame) (fragment : Buffer) :
  Forall fitsUInt32 frames ->
  0 < length fragment < 8 ->
  parseDockerLogs (encodeFrames frames ++ fragment)
  = Some (inl (RangeError "offset out of range")).
Proof. apply short_header_raises. Qed.

End DockerLogsMore.

Lemma demux_skips_other_tags_witness :
  DockerLogs.parseDockerLogs (DockerLogs.encodeRawFrames DockerLogs.sampleRawFrames)
  = Some (inr ([x68; x69; x21], [x65])).
Proof.
  refine (@demux_skips_other_tags DockerLogs.sampleRawFrames _).
  unfold DockerLogs.sampleRawFrames.
  repeat (apply Forall_cons;
          [unfold DockerLogs.rawFits, DockerLogs.bufLength; simpl; lia|]).
  apply Forall_nil.
Defined.

Lemma demux_output_bounded_witness :
  length [x68; x69; x21] + length [x65]
  <= length (DockerLogs.encodeRawFrames DockerLogs.sampleRawFrames).
Proof.
  exact (@demux_output_bounded
           (DockerLogs.encodeRawFrames DockerLogs.sampleRawFrames) _ _ eq_refl).
Defined.

Lemma demux_short_header_raises_witness :
  DockerLogs.parseDockerLogs
    (DockerLogs.encodeFrames DockerLogs.sampleFrames ++ [x01; x00; x00; x00; x00])
  = Some (inl (RangeError "offset out of range")).
Proof.
  refine (@demux_short_header_raises DockerLogs.sampleFrames
            [x01; x00; x00; x00; x00] _ _).
  - unfold DockerLogs.sampleFrames.
    repeat (apply Forall_cons;
            [unfold DockerLogs.fitsUInt32, DockerLogs.bufLength; simpl; lia|]).
    apply Forall_nil.
  - simpl. lia.
Defined.

(* --------------------------------------------------------------------- *)
(** ** [runContainer] of the first node: the requests of a run            *)
(* --------------------------------------------------------------------- *)

Section LegacyMore.
Import Legacy.
Context {rt : JsRuntime} {engine : Engine}.


Lemma createContainer_request socketPath image cmd envVars w :
  callsOf (createContainer socketPath image cmd envVars w)
  = [createRequest socketPath image cmd envVars].
Proof.
  unfold createContainer. cbv zeta. rewrite callsOf_bind, dockerRequest_calls.
  destruct (resultOf _); reflexivity.
Qed.

Lemma waitContainer_request socketPath containerId w :
  callsOf (waitContainer socketPath containerId w)
  = [{| socketPath := socketPath;
        path := "/containers/" +++ js_toString containerId +++ "/wait";
        method := POST; jsonContentType := true; body := None |}].
Proof.
  unfold waitContainer. rewrite callsOf_bind, dockerRequest_calls.
  destruct (resultOf _); reflexivity.
Qed.

Lemma getLogs_request socketPath containerId w :
  callsOf (getLogs socketPath containerId w)
  = [{| socketPath := socketPath;
        path := "/containers/" +++ js_toString containerId
                +++ "/logs?stdout=1&stderr=1&stderr=1&logs=1";
        method := GET; jsonContentType := false; body := None |}].
Proof.
  unfold getLogs, bind, request, callsOf.
  destruct (http_request _ w) as [o w1]. destruct o; reflexivity.
Qed.


Lemma parseLogs_calls (logs : Buffer) (w : World) : callsOf (parseLogs logs w) = [].
Proof. destruct (parseLogs_settles logs w) as [r H]. now rewrite H. Qed.




(** X6. No run issues more than six requests, and a Remove request is
    only ever the sixth and last: a run that stops earlier has removed
    nothing. *)
Theorem runContainer_requests_bounded socketPath image command args envVars w :
  let calls := callsOf (runContainer socketPath image command args envVars w) in
  length calls <= 6
  /\ (existsb isRemove calls = true -> length calls = 6)
  /\ existsb isRemove (removelast calls) = false.
Proof.
  intros calls. subst calls. unfold runContainer.
  repeat (rewrite callsOf_bind;
          rewrite ?pullImage_calls, ?createContainer_request, ?waitContainer_request,
            ?getLogs_request, ?parseLogs_calls;
          unfold startContainer, removeContainer; rewrite ?dockerRequest_calls;
          match goal with
          | |- context [match resultOf ?x with _ => _ end] =>
              destruct (resultOf x);
              [cbn; repeat split; try lia; try reflexivity; discriminate|]
          end).
  cbn. repeat split; try lia; reflexivity.
Qed.

Lemma splitSpaces_nonempty (s : string) : splitSpaces s <> [].
Proof.
  destruct s as [|c rest]; cbn; [discriminate|].
  destruct (Ascii.eqb c " "); [discriminate|].
  destruct (splitSpaces rest); discriminate.
Qed.

Lemma splitSpaces_spaceFree (s : string) : Forall spaceFree (splitSpaces s).
Proof.
  induction s as [|c rest IH]; cbn.
  - repeat constructor. intros c H. destruct H.
  - destruct (Ascii.eqb c " ") eqn:Hc.
    + constructor; [|exact IH]. intros c' H. destruct H.
    + destruct (splitSpaces rest) as [|w ws].
      * repeat constructor. intros c' [<-|[]]. intros ->. discriminate.
      * inversion IH as [|? ? Hw Hws]; subst. constructor; [|exact Hws].
        intros c' [<-|Hin]; [intros ->; discriminate | now apply Hw].
Qed.

Lemma fullCmd_filter (command args : string) :
  fullCmd command args
  = (if truthy command then [command] else []) ++ filter truthy (splitSpaces args).
Proof.
  unfold fullCmd. cbv zeta. now destruct args.
Qed.

Lemma splitSpaces_word (word rest : string) :
  spaceFree word ->
  splitSpaces (word +++ String " " rest) = word :: splitSpaces rest.
Proof.
  induction word as [|c word IH]; intros Hw; [reflexivity|].
  apply spaceFree_cons in Hw. destruct Hw as [Hc Hw]. cbn.
  destruct (Ascii.eqb c " ") eqn:E; [apply Ascii.eqb_eq in E; contradiction|].
  now rewrite IH.
Qed.

Lemma splitSpaces_one (word : string) : spaceFree word -> splitSpaces word = [word].
Proof.
  induction word as [|c word IH]; intros Hw; [reflexivity|].
  apply spaceFree_cons in Hw. destruct Hw as [Hc Hw]. cbn.
  destruct (Ascii.eqb c " ") eqn:E; [apply Ascii.eqb_eq in E; contradiction|].
  now rewrite IH.
Qed.

Lemma append_empty_r (s : string) : s +++ EmptyString = s.
Proof. induction s as [|c s IH]; cbn; [reflexivity | now rewrite IH]. Qed.

Lemma words_pad (n : nat) (rest : string) :
  filter truthy (splitSpaces (pad n +++ rest)) = filter truthy (splitSpaces rest).
Proof. induction n as [|n IH]; [reflexivity | exact IH]. Qed.

Lemma words_spaced (words : list (string * nat)) :
  Forall (fun wn => isWord (fst wn)) words ->
  filter truthy (splitSpaces (spaced words)) = map fst words.
Proof.
  induction words as [|[word gap] rest IH]; intros H; [reflexivity|].
  inversion H as [|? ? [Hne Hsf] Hrest]; subst. cbn [fst] in Hne, Hsf.
  cbn [spaced map fst].
  assert (truthy word = true) as Ht by now apply truthy_nonempty.
  assert (forall n tail,
             filter truthy (splitSpaces (word +++ pad (S n) +++ tail))
             = word :: filter truthy (splitSpaces tail)) as Hgap.
  { intros n tail. cbn [pad String.append].
    rewrite splitSpaces_word by exact Hsf. cbn [filter]. rewrite Ht.
    now rewrite words_pad. }
  destruct rest as [|next rest].
  - destruct gap as [|gap].
    + cbn [pad spaced String.append]. rewrite append_empty_r.
      rewrite splitSpaces_one by exact Hsf. cbn. now rewrite Ht.
    + now rewrite Hgap.
  - rewrite Hgap. now rewrite IH.
Qed.

(** Every text is a line of words: spaces, then words that are not empty
    and hold no space, one space or more between them, then spaces. *)
Lemma every_args_spaced (args : string) :
  exists leading words,
    args = pad leading +++ spaced words /\ Forall (fun wn => isWord (fst wn)) words.
Proof.
  induction args as [|c args (leading & words & -> & Hwords)].
  - exists 0, []. split; [reflexivity | constructor].
  - destruct (Ascii.eqb c " ") eqn:E.
    + apply Ascii.eqb_eq in E. subst c. exists (S leading), words. now split.
    + assert (c <> " "%char) as Hc by (intros ->; discriminate).
      assert (isWord (String c EmptyString)) as Hone.
      { split; [discriminate|]. apply spaceFree_cons. split; [exact Hc|]. intros d []. }
      destruct leading as [|leading].
      * destruct words as [|[word gap] rest].
        -- exists 0, [(String c EmptyString, 0)]. split; [reflexivity|].
           apply Forall_cons; [exact Hone | apply Forall_nil].
        -- exists 0, ((String c word, gap) :: rest). split; [reflexivity|].
           inversion Hwords as [|? ? [Hne Hsf] Hrest]; subst. constructor; [|exact Hrest].
           split; [discriminate|]. apply spaceFree_cons. now split.
      * destruct words as [|next rest].
        -- exists 0, [(String c EmptyString, S leading)]. split.
           ++ cbn. now rewrite !append_empty_r.
           ++ apply Forall_cons; [exact Hone | apply Forall_nil].
        -- exists 0, ((String c EmptyString, leading) :: next :: rest).
           split; [reflexivity|]. apply Forall_cons; [exact Hone | exact Hwords].
Qed.

(** X7. The command is passed on as one element, never split, and is
    followed by exactly the words of [args], in order: for words that are
    not empty and hold no space, laid out with any number of spaces before
    them, one or more between them and any number after them, [fullCmd] is
    the command, when it is not empty, and then these words; and every
    [args] is such a line of words. *)
Theorem fullCmd_words (command : string) :
  (forall leading words,
      Forall (fun wn => isWord (fst wn)) words ->
      fullCmd command (pad leading +++ spaced words)
      = (if truthy command then [command] else []) ++ map fst words)
  /\ (forall args,
        exists leading words,
          args = pad leading +++ spaced words
          /\ Forall (fun wn => isWord (fst wn)) words).
Proof.
  split.
  - intros leading words H. rewrite fullCmd_filter, words_pad. f_equal.
    now apply words_spaced.
  - exact every_args_spaced.
Qed.

End LegacyMore.


Lemma fullCmd_words_witness :
  Legacy.fullCmd "sh" "  -c   date "%string = ["sh"; "-c"; "date"]%string.
Proof.
  refine (proj1 (fullCmd_words "sh") 2 [("-c"%string, 2); ("date"%string, 1)] _).
  repeat (apply Forall_cons;
          [split; [discriminate | intros c Hc ->; cbn in Hc; intuition discriminate]|]).
  apply Forall_nil.
Defined.

(* --------------------------------------------------------------------- *)
(** ** [execute] of the first node                                        *)
(* --------------------------------------------------------------------- *)

Section EffMore.
Context {St Ev : Type}.

Lemma callsOf_tryCatch {A} (m : Eff St Ev A) (handler : Error -> Eff St Ev A) (s : St) :
  callsOf (tryCatch m handler s)
  = callsOf (m s) ++ match resultOf (m s) with
                     | inl e => callsOf (handler e (stateOf (m s)))
                     | inr _ => []
                     end.
Proof.
  unfold tryCatch, callsOf, resultOf, stateOf. destruct (m s) as [[[e|a] s1] t1]; cbn.
  - now destruct (handler e s1) as [[r2 s2] t2].
  - now rewrite app_nil_r.
Qed.

Lemma Forall_calls_bind {A B} (P : Ev -> Prop) (m : Eff St Ev A) (k : A -> Eff St Ev B) s :
  Forall P (callsOf (m s)) ->
  (forall a s1, Forall P (callsOf (k a s1))) ->
  Forall P (callsOf (bind m k s)).
Proof.
  intros Hm Hk. rewrite callsOf_bind. apply Forall_app. split; [exact Hm|].
  destruct (resultOf (m s)); [constructor | apply Hk].
Qed.

End EffMore.

Section LegacyNodeFacts.
Import LegacyNode.
Context {rt : Legacy.JsRuntime} {engine : Legacy.Engine} {host : NodeHost}.
Variable getNodeParameter : nat -> NodeParameters.

(** Every request of a run goes to the socket the run was given. *)
Lemma runContainer_socket socketPath image command args envVars w :
  Forall (fun q => Legacy.socketPath q = socketPath)
    (callsOf (Legacy.runContainer socketPath image command args envVars w)).
Proof.
  unfold Legacy.runContainer.
  repeat (rewrite callsOf_bind;
          rewrite ?pullImage_calls, ?createContainer_request, ?waitContainer_request,
            ?getLogs_request, ?parseLogs_calls;
          unfold Legacy.startContainer, Legacy.removeContainer;
          rewrite ?dockerRequest_calls;
          match goal with
          | |- context [match resultOf ?x with _ => _ end] =>
              destruct (resultOf x); [cbn; repeat constructor|]
          end).
  cbn. repeat constructor.
Qed.

(** The requests of a run that carry a body carry the create body. *)
Lemma runContainer_bodies socketPath image command args envVars w :
  Forall (fun q => forall b, Legacy.body q = Some b ->
                   b = {| Legacy.Image := image;
                          Legacy.Cmd := match Legacy.fullCmd command args with
                                        | [] => None
                                        | _ => Some (Legacy.fullCmd command args)
                                        end;
                          Legacy.Env := envVars;
                          Legacy.Tty := false |})
    (callsOf (Legacy.runContainer socketPath image command args envVars w)).
Proof.
  unfold Legacy.runContainer.
  repeat (rewrite callsOf_bind;
          rewrite ?pullImage_calls, ?createContainer_request, ?waitContainer_request,
            ?getLogs_request, ?parseLogs_calls;
          unfold Legacy.startContainer, Legacy.removeContainer;
          rewrite ?dockerRequest_calls;
          match goal with
          | |- context [match resultOf ?x with _ => _ end] =>
              destruct (resultOf x);
              [cbn;
               repeat (apply Forall_cons;
                       [cbn; intros created Hb; inversion Hb; subst; reflexivity|]);
               apply Forall_nil|]
          end).
  cbn. repeat (apply Forall_cons;
               [cbn; intros created Hb; inversion Hb; subst; reflexivity|]).
  apply Forall_nil.
Qed.

Lemma awaitEngine_calls {A} i (m : Legacy.Async A) s :
  callsOf (awaitEngine i m s) = map (pair i) (callsOf (m (world s))).
Proof.
  unfold awaitEngine, callsOf. now destruct (m (world s)) as [[r w'] t].
Qed.

(** What the [try] block of an item does, case by case: it fails on its
    environment, or on its image, without a request; or it runs the
    container on the detected socket with the environment computed. *)
Lemma itemResult_cases i s :
  let p := getNodeParameter i in
  match environment i p with
  | inl e => itemResult getNodeParameter i s = (inl e, s, [])
  | inr envVars =>
      if truthy (image p) then
        callsOf (itemResult getNodeParameter i s)
        = map (pair i)
            (callsOf (Legacy.runContainer (detectSocket (socketPath p) (world s))
                        (image p) (command p) (args p) envVars (world s)))
        /\ returnData (stateOf (itemResult getNodeParameter i s)) = returnData s
        /\ (forall data, resultOf (itemResult getNodeParameter i s) = inr data ->
                          pairedItem data = i)
      else itemResult getNodeParameter i s = (inl (imageRequired i), s, [])
  end.
Proof.
  intros p. subst p. unfold itemResult, bind, getWorld, settled. cbv zeta.
  destruct (environment i (getNodeParameter i)) as [e|envVars]; [reflexivity|].
  destruct (truthy (image (getNodeParameter i))); [|reflexivity].
  cbn [negb]. unfold awaitEngine.
  destruct (Legacy.runContainer _ _ _ _ _ (world s)) as [[[e|r] w'] t]; cbn.
  - split; [now rewrite ?app_nil_r|]. split; [reflexivity|].
    intros data H. discriminate.
  - split; [now rewrite ?app_nil_r|]. split; [reflexivity|].
    intros data H. now inversion H.
Qed.

Lemma itemResult_keeps i s :
  returnData (stateOf (itemResult getNodeParameter i s)) = returnData s.
Proof.
  pose proof (itemResult_cases i s) as H. cbv zeta in H.
  destruct (environment i (getNodeParameter i)); [now rewrite H|].
  destruct (truthy (image (getNodeParameter i))); [tauto | now rewrite H].
Qed.

Lemma itemResult_paired i s data :
  resultOf (itemResult getNodeParameter i s) = inr data -> pairedItem data = i.
Proof.
  pose proof (itemResult_cases i s) as H. cbv zeta in H.
  destruct (environment i (getNodeParameter i)); [rewrite H; discriminate|].
  destruct (truthy (image (getNodeParameter i))); [apply H | rewrite H; discriminate].
Qed.

Lemma catchItem_calls i e s : callsOf (catchItem i e s) = [].
Proof.
  unfold catchItem, bind, getWorld, callsOf. destruct (continueOnFail (world s)); reflexivity.
Qed.

Lemma processItem_calls i s :
  callsOf (processItem getNodeParameter i s) = callsOf (itemResult getNodeParameter i s).
Proof.
  unfold processItem, tryItem. rewrite callsOf_tryCatch, callsOf_bind.
  assert (Hpush : forall d s1, callsOf (pushReturnData d s1) = []) by reflexivity.
  destruct (resultOf (itemResult getNodeParameter i s)) as [e|d] eqn:Hr.
  - rewrite app_nil_r.
    assert (Hres : resultOf (bind (itemResult getNodeParameter i)
                               (fun data => pushReturnData data) s) = inl e).
    { unfold bind, resultOf in *. destruct (itemResult getNodeParameter i s) as [[r s1] t1].
      cbn in Hr. now subst. }
    rewrite Hres, catchItem_calls. now rewrite app_nil_r.
  - rewrite Hpush, app_nil_r.
    assert (Hres : resultOf (bind (itemResult getNodeParameter i)
                               (fun data => pushReturnData data) s) = inr tt).
    { unfold bind, resultOf in *. destruct (itemResult getNodeParameter i s) as [[r s1] t1].
      cbn in Hr. now subst. }
    rewrite Hres. now rewrite app_nil_r.
Qed.

(** The requests of an item carry its index. *)
Lemma processItem_tags i s :
  Forall (fun c => fst c = i) (callsOf (processItem getNodeParameter i s)).
Proof.
  rewrite processItem_calls.
  pose proof (itemResult_cases i s) as H. cbv zeta in H.
  destruct (environment i (getNodeParameter i)); [rewrite H; constructor|].
  destruct (truthy (image (getNodeParameter i))); [|rewrite H; constructor].
  destruct H as (-> & _). apply Forall_forall. intros c Hc.
  apply in_map_iff in Hc. destruct Hc as (q & <- & _). reflexivity.
Qed.

Lemma forItems_calls (P : Call -> Prop) :
  (forall j s, Forall P (callsOf (processItem getNodeParameter j s))) ->
  forall remaining itemIndex s,
    Forall P (callsOf (forItems getNodeParameter itemIndex remaining s)).
Proof.
  intros Hitem. induction remaining as [|remaining IH]; intros itemIndex s.
  - constructor.
  - cbn [forItems]. apply Forall_calls_bind; [apply Hitem|]. intros _ s1. apply IH.
Qed.

Lemma execute_calls (P : Call -> Prop) itemsLength w :
  (forall j s, Forall P (callsOf (processItem getNodeParameter j s))) ->
  Forall P (callsOf (execute getNodeParameter itemsLength w)).
Proof.
  intros Hitem. unfold execute. apply Forall_calls_bind.
  - now apply forItems_calls.
  - intros _ s1. constructor.
Qed.

(** X8. An item with no image, or whose environment cannot be built,
    reaches the Engine with no request at all: none of the requests of the
    whole run is issued for it.  With a well-formed environment and an empty
    image, the error of the item is [The "Image" parameter is required]. *)
Theorem legacy_rejected_item_no_request itemsLength w i :
  truthy (image (getNodeParameter i)) = false
  \/ (exists e, environment i (getNodeParameter i) = inl e) ->
  Forall (fun c => fst c <> i) (callsOf (execute getNodeParameter itemsLength w))
  /\ (forall envVars s,
        environment i (getNodeParameter i) = inr envVars ->
        itemResult getNodeParameter i s = (inl (imageRequired i), s, [])).
Proof.
  intros Hrej. split.
  - apply execute_calls. intros j s. destruct (Nat.eq_dec j i) as [->|Hji].
    + rewrite processItem_calls.
      pose proof (itemResult_cases i s) as H. cbv zeta in H.
      destruct (environment i (getNodeParameter i)) as [e|envVars];
        [rewrite H; constructor|].
      destruct Hrej as [Himg|[e He]]; [|discriminate].
      rewrite Himg in H. rewrite H. constructor.
    + eapply Forall_impl; [|apply processItem_tags]. intros c Hc. cbv beta in Hc. congruence.
  - intros envVars s Henv.
    pose proof (itemResult_cases i s) as H. cbv zeta in H. rewrite Henv in H.
    destruct Hrej as [Himg|[e He]]; [|congruence].
    now rewrite Himg in H.
Qed.

Lemma String_eqb_neq (a b : string) : a <> b -> String.eqb a b = false.
Proof. intros H. now apply String.eqb_neq. Qed.

(** X9. A socket path other than [/var/run/docker.sock] is used as it is
    given: every request issued for the item goes to it, whatever the file
    system holds. *)
Theorem legacy_configured_socket_kept itemsLength w i :
  socketPath (getNodeParameter i) <> "/var/run/docker.sock"%string ->
  Forall (fun c => fst c = i ->
                   Legacy.socketPath (snd c) = socketPath (getNodeParameter i))
    (callsOf (execute getNodeParameter itemsLength w)).
Proof.
  intros Hsock. apply execute_calls. intros j s. destruct (Nat.eq_dec j i) as [->|Hji].
  - rewrite processItem_calls.
    pose proof (itemResult_cases i s) as H. cbv zeta in H.
    destruct (environment i (getNodeParameter i)) as [e|envVars];
      [rewrite H; constructor|].
    destruct (truthy (image (getNodeParameter i))); [|rewrite H; constructor].
    destruct H as (-> & _). apply Forall_forall. intros c Hc _.
    apply in_map_iff in Hc. destruct Hc as (q & <- & Hq). cbn [snd].
    pose proof (runContainer_socket
                  (detectSocket (socketPath (getNodeParameter i)) (world s))
                  (image (getNodeParameter i)) (command (getNodeParameter i))
                  (args (getNodeParameter i)) envVars (world s)) as Hall.
    rewrite Forall_forall in Hall. rewrite (Hall q Hq).
    unfold detectSocket. now rewrite (String_eqb_neq Hsock).
  - eapply Forall_impl; [|apply processItem_tags]. intros c Hc Hi. cbv beta in Hc. congruence.
Qed.

(** X10. The create request of an item carries the image of the item, the
    environment computed for it, the command array (left out when empty)
    and [Tty: false]; no other request of the item carries a body. *)
Theorem legacy_create_body itemsLength w i envVars :
  environment i (getNodeParameter i) = inr envVars ->
  Forall (fun c => fst c = i ->
                   forall b, Legacy.body (snd c) = Some b ->
                   b = {| Legacy.Image := image (getNodeParameter i);
                          Legacy.Cmd :=
                            match Legacy.fullCmd (command (getNodeParameter i))
                                    (args (getNodeParameter i)) with
                            | [] => None
                            | _ => Some (Legacy.fullCmd (command (getNodeParameter i))
                                           (args (getNodeParameter i)))
                            end;
                          Legacy.Env := envVars;
                          Legacy.Tty := false |})
    (callsOf (execute getNodeParameter itemsLength w)).
Proof.
  intros Henv. apply execute_calls. intros j s. destruct (Nat.eq_dec j i) as [->|Hji].
  - rewrite processItem_calls.
    pose proof (itemResult_cases i s) as H. cbv zeta in H. rewrite Henv in H.
    destruct (truthy (image (getNodeParameter i))); [|rewrite H; constructor].
    destruct H as (-> & _). apply Forall_forall. intros c Hc _ b Hb.
    apply in_map_iff in Hc. destruct Hc as (q & <- & Hq). cbn [snd] in Hb.
    pose proof (runContainer_bodies
                  (detectSocket (socketPath (getNodeParameter i)) (world s))
                  (image (getNodeParameter i)) (command (getNodeParameter i))
                  (args (getNodeParameter i)) envVars (world s)) as Hall.
    rewrite Forall_forall in Hall. now apply (Hall q Hq).
  - eapply Forall_impl; [|apply processItem_tags]. intros c Hc Hi. cbv beta in Hc. congruence.
Qed.

Lemma pushKeypairs_flat_map (values : list EnvEntry) : forall envVars,
  pushKeypairs values envVars = envVars ++ flat_map rendered values.
Proof.
  induction values as [|envVar rest IH]; intros envVars; cbn.
  - now rewrite app_nil_r.
  - unfold rendered at 1. destruct (value envVar) as [v|]; [|apply IH].
    destruct (truthy (name envVar)); [|apply IH].
    rewrite IH. now rewrite <- app_assoc.
Qed.

(** X11. With the environment given as pairs, the entries are kept in
    their order, each as [name=value]; an entry with an empty name or with
    no value is left out, an entry with an empty value is kept; a missing
    collection gives an empty environment. *)
Theorem legacy_keypair_environment i (p : NodeParameters) :
  sendEnv p = true ->
  specifyEnv p = "keypair"%string ->
  environment i p
  = inr (flat_map rendered (match parametersEnv p with Some v => v | None => [] end)).
Proof.
  intros Hsend Hspec. unfold environment. rewrite Hsend, Hspec. cbn.
  now rewrite pushKeypairs_flat_map.
Qed.

(** With [continueOnFail], an item always ends well and appends exactly one
    record, paired with it. *)
Lemma processItem_one_record i s :
  (forall w, continueOnFail w = true) ->
  exists data s',
    resultOf (processItem getNodeParameter i s) = inr tt
    /\ stateOf (processItem getNodeParameter i s) = s'
    /\ returnData s' = returnData s ++ [data]
    /\ pairedItem data = i.
Proof.
  intros Hcont. unfold processItem, tryItem, tryCatch, bind.
  pose proof (itemResult_keeps i s) as Hk.
  pose proof (@itemResult_paired i s) as Hp.
  destruct (itemResult getNodeParameter i s) as [[[e|data] s1] t1]; cbn in Hk, Hp |- *.
  - unfold catchItem, bind, getWorld. rewrite Hcont. cbn.
    eexists _, _. split; [reflexivity|]. split; [reflexivity|].
    split; [cbn; now rewrite Hk | reflexivity].
  - eexists data, _. split; [reflexivity|]. split; [reflexivity|].
    split; [cbn; now rewrite Hk | now apply Hp].
Qed.

Lemma forItems_records :
  (forall w, continueOnFail w = true) ->
  forall remaining itemIndex s,
    exists l,
      resultOf (forItems getNodeParameter itemIndex remaining s) = inr tt
      /\ returnData (stateOf (forItems getNodeParameter itemIndex remaining s))
         = returnData s ++ l
      /\ map pairedItem l = seq itemIndex remaining.
Proof.
  intros Hcont. induction remaining as [|remaining IH]; intros itemIndex s.
  - exists []. cbn. now rewrite app_nil_r.
  - cbn [forItems]. unfold bind.
    destruct (processItem_one_record itemIndex s Hcont) as (data & s' & Hr & Hs & Hd & Hp).
    destruct (processItem getNodeParameter itemIndex s) as [[r s1] t1].
    cbn in Hr, Hs. subst r s1.
    destruct (IH (S itemIndex) s') as (l & Hr' & Hd' & Hl).
    destruct (forItems getNodeParameter (S itemIndex) remaining s') as [[r2 s2] t2].
    cbn in Hr', Hd' |- *. subst r2.
    exists (data :: l). repeat split.
    + rewrite Hd', Hd. now rewrite <- app_assoc.
    + cbn. now rewrite Hp, Hl.
Qed.

(** X12. When the host continues on failure, [execute] never throws: it
    returns one record for each item, in the order of the items, a failed
    item giving a record that holds its error message. *)
Theorem legacy_one_record_per_item itemsLength w :
  (forall w', continueOnFail w' = true) ->
  exists l,
    resultOf (execute getNodeParameter itemsLength w) = inr l
    /\ map pairedItem l = seq 0 itemsLength.
Proof.
  intros Hcont. unfold execute, bind, getReturnData.
  destruct (forItems_records Hcont itemsLength 0 {| world := w; returnData := [] |})
    as (l & Hr & Hd & Hl).
  destruct (forItems getNodeParameter 0 itemsLength {| world := w; returnData := [] |})
    as [[r s1] t1].
  cbn in Hr, Hd |- *. subst r. exists l. now rewrite Hd.
Qed.

End LegacyNodeFacts.

Lemma legacy_rejected_item_no_request_witness :
  Forall (fun c => fst c <> 1) (callsOf LegacyNode.sampleExecute).
Proof.
  exact (proj1 (@legacy_rejected_item_no_request Legacy.sampleRuntime
                  Legacy.scriptedEngine LegacyNode.sampleHost
                  LegacyNode.sampleParameters 3 LegacyNode.sampleScript 1
                  (or_introl eq_refl))).
Defined.

Lemma legacy_configured_socket_kept_witness :
  Forall (fun c => fst c = 0 ->
                   Legacy.socketPath (snd c) = "/run/user/1000/docker.sock"%string)
    (callsOf LegacyNode.sampleExecute).
Proof.
  refine (@legacy_configured_socket_kept Legacy.sampleRuntime
            Legacy.scriptedEngine LegacyNode.sampleHost
            LegacyNode.sampleParameters 3 LegacyNode.sampleScript 0 _).
  discriminate.
Defined.

Lemma legacy_create_body_witness :
  Forall (fun c => fst c = 2 ->
                   forall b, Legacy.body (snd c) = Some b ->
                   b = {| Legacy.Image := "alpine:latest";
                          Legacy.Cmd := Some ["echo"; "hello"; "world"]%string;
                          Legacy.Env := ["A=1"; "C="]%string;
                          Legacy.Tty := false |})
    (callsOf LegacyNode.sampleExecute).
Proof.
  exact (@legacy_create_body Legacy.sampleRuntime
           Legacy.scriptedEngine LegacyNode.sampleHost
           LegacyNode.sampleParameters 3 LegacyNode.sampleScript 2
           ["A=1"; "C="]%string eq_refl).
Defined.

Lemma legacy_keypair_environment_witness :
  LegacyNode.environment (host := LegacyNode.sampleHost) 2 (LegacyNode.sampleParameters 2)
  = inr ["A=1"; "C="]%string.
Proof.
  exact (@legacy_keypair_environment Legacy.sampleRuntime
           Legacy.scriptedEngine LegacyNode.sampleHost 2
           (LegacyNode.sampleParameters 2) eq_refl eq_refl).
Defined.

Lemma legacy_one_record_per_item_witness :
  exists l,
    resultOf LegacyNode.sampleExecute = inr l
    /\ map (LegacyNode.pairedItem (rt := Legacy.sampleRuntime)) l = [0; 1; 2].
Proof.
  exact (@legacy_one_record_per_item Legacy.sampleRuntime
           Legacy.scriptedEngine LegacyNode.sampleHost
           LegacyNode.sampleParameters 3 LegacyNode.sampleScript (fun _ => eq_refl)).
Defined.

(* --------------------------------------------------------------------- *)
(** ** The two callers: results and errors                                *)
(* --------------------------------------------------------------------- *)

Section CallerResults.
Import Pipeline.
Context {host : Host}.

Lemma Forall_False_nil {A} (l : list A) : Forall (fun _ => False) l -> l = [].
Proof. destruct l; [reflexivity|]. intros H. inversion H; contradiction. Qed.

Lemma appendsOne_bind {A} i (Q : A -> Prop) (m : Async A) (k : A -> Async unit) :
  spec (fun _ => True) (fun _ => False) Q m ->
  (forall a, Q a -> appendsOne i (k a)) ->
  appendsOne i (bind m k).
Proof.
  intros Hm Hk s. destruct (Hm s) as (_ & (ds & Hds & HF) & _ & HQ).
  apply Forall_False_nil in HF. subst ds. rewrite app_nil_r in Hds.
  unfold bind. destruct (m s) as [[[e|a] s1] t1]; cbn in Hds, HQ |- *.
  - exact Hds.
  - specialize (Hk a (HQ a eq_refl) s1).
    destruct (k a s1) as [[r2 s2] t2]. cbn in Hk |- *. now rewrite <- Hds.
Qed.

Lemma appendsOne_throw i e : appendsOne i (throw e).
Proof. intros s. reflexivity. Qed.

Lemma appendsOne_push i data : pairedItem data = i -> appendsOne i (pushReturnData data).
Proof. intros H s. cbn. eauto. Qed.

Lemma quiet_stage i bIn bOut mappings cfg :
  spec (fun _ => True) (fun _ => False) (fun _ => True)
    (stageBinaryData i bIn bOut mappings cfg).
Proof.
  eapply spec_weaken; [apply stageBinaryData_spec; trivial | trivial].
Qed.

Lemma tryItem_appendsOne getNodeParameter i :
  appendsOne i (Node.tryItem getNodeParameter i).
Proof.
  unfold Node.tryItem. cbv zeta.
  eapply appendsOne_bind with (Q := fun _ => True); [now apply spec_getWorld|].
  intros w _.
  destruct (negb (valid (validateDockerImageName (Node.image (getNodeParameter i)))));
    [apply appendsOne_throw|].
  eapply appendsOne_bind with (Q := fun _ => True).
  { apply spec_call. intros w1 r w1' E. repeat split. }
  intros envResult _.
  eapply appendsOne_bind; [apply quiet_stage|]. intros st _.
  eapply appendsOne_bind; [apply runAndCollect_spec; trivial|].
  intros data [Hp _]. now apply appendsOne_push.
Qed.

(** With [continueOnFail], an item always ends well and appends exactly one
    record, paired with it. *)
Lemma node_processItem_one_record getNodeParameter i s :
  (forall w, continueOnFail w = true) ->
  resultOf (Node.processItem getNodeParameter i s) = inr tt
  /\ exists data,
       returnData (stateOf (Node.processItem getNodeParameter i s))
       = returnData s ++ [data]
       /\ pairedItem data = i.
Proof.
  intros Hcont. pose proof (tryItem_appendsOne getNodeParameter i s) as H.
  unfold Node.processItem, tryCatch.
  destruct (Node.tryItem getNodeParameter i s) as [[[e|[]] s1] t1]; cbn in H |- *.
  - unfold Node.catchItem, bind, getWorld. cbv zeta. rewrite Hcont. cbn.
    split; [reflexivity|]. eexists. split; [now rewrite H | reflexivity].
  - split; [reflexivity | exact H].
Qed.

Lemma node_forItems_records getNodeParameter :
  (forall w, continueOnFail w = true) ->
  forall remaining itemIndex s,
    exists l,
      resultOf (Node.forItems getNodeParameter itemIndex remaining s) = inr tt
      /\ returnData (stateOf (Node.forItems getNodeParameter itemIndex remaining s))
         = returnData s ++ l
      /\ map pairedItem l = seq itemIndex remaining.
Proof.
  intros Hcont. induction remaining as [|remaining IH]; intros itemIndex s.
  - exists []. cbn. now rewrite app_nil_r.
  - cbn [Node.forItems]. unfold bind.
    destruct (node_processItem_one_record getNodeParameter itemIndex s Hcont)
      as (Hr & data & Hd & Hp).
    destruct (Node.processItem getNodeParameter itemIndex s) as [[r s1] t1].
    cbn in Hr, Hd. subst r.
    destruct (IH (S itemIndex) s1) as (l & Hr' & Hd' & Hl).
    destruct (Node.forItems getNodeParameter (S itemIndex) remaining s1) as [[r2 s2] t2].
    cbn in Hr', Hd' |- *. subst r2.
    exists (data :: l). repeat split.
    + rewrite Hd', Hd. now rewrite <- app_assoc.
    + cbn. now rewrite Hp, Hl.
Qed.

(** X13. When the host continues on failure, [RunContainer.execute] never
    throws: it returns one record for each item, in the order of the items,
    whatever fails on the way (validation, staging, the Engine, the
    collection of output, the cleanup). *)
Theorem node_one_record_per_item getNodeParameter itemsLength w :
  (forall w', continueOnFail w' = true) ->
  exists l,
    resultOf (Node.execute getNodeParameter itemsLength w) = inr l
    /\ map pairedItem l = seq 0 itemsLength.
Proof.
  intros Hcont. unfold Node.execute.
  destruct (finally_run (Node.attempt getNodeParameter itemsLength) (initialState w))
    as (Hr & _).
  rewrite Hr. unfold Node.attempt, bind, getReturnData.
  destruct (node_forItems_records getNodeParameter Hcont itemsLength 0 (initialState w))
    as (l & Hres & Hd & Hl).
  destruct (Node.forItems getNodeParameter 0 itemsLength (initialState w)) as [[r s1] t1].
  cbn in Hres, Hd |- *. subst r. exists l. now rewrite Hd.
Qed.




(** The staging block when binary input is disabled. *)
Lemma stage_without_input (PE : Event -> Prop) (PD : ExecutionData -> Prop)
  i binaryDataOutput mappings cfg :
  unmounted cfg ->
  (forall pathPrefix r, PE (EvMkdtemp i pathPrefix r)) ->
  (forall dir r, PE (EvCreateOutputDirectory i dir r)) ->
  spec PE PD (fun st => builtUnstaged binaryDataOutput (fst st) /\ sameBase cfg (fst st))
    (stageBinaryData i false binaryDataOutput mappings cfg).
Proof.
  intros (Hv & Hm & Hc) Hmk Hout. unfold stageBinaryData.
  destruct binaryDataOutput.
  - eapply spec_bind with (Q := fun _ => True); [now apply spec_getWorld|].
    intros w _. cbv zeta.
    apply spec_acquire
      with (Q := fun dir => exists pathPrefix w0 w0', mkdtemp pathPrefix w0 = (inr dir, w0')).
    + intros w1 r w1' E. split; [apply Hmk|]. split.
      * destruct r; reflexivity.
      * intros a ->. eauto.
    + intros dir (pathPrefix & w0 & w0' & E).
      eapply spec_bind with (Q := fun _ => True).
      * apply spec_call. intros w1 r w1' E1.
        split; [apply Hout|]. split; [reflexivity | trivial].
      * intros _ _. apply spec_ret. cbn [fst]. split.
        -- split; [exact Hm|]. split; [exact Hc|].
           exists pathPrefix, dir, w0, w0'. split; [exact E | reflexivity].
        -- repeat split.
  - apply spec_ret. cbn [fst]. split.
    + split; [exact Hm|]. split; [exact Hc | exact Hv].
    + repeat split.
Qed.

(** What holds of every configuration an item is run with, given what
    holds of the configuration its staging block returns. *)
Lemma run_config_spec (P : ContainerExecutionConfig -> Prop) getNodeParameter i
  (SQ : ContainerExecutionConfig * option string -> Prop) :
  (forall cfg, unmounted cfg ->
               spec (fun e => forall config r, e = EvExecuteContainer i config r -> P config)
                 (fun _ => True) SQ
                 (stageBinaryData i (Node.binaryDataInput (getNodeParameter i))
                    (Node.binaryDataOutput (getNodeParameter i))
                    (Node.binaryFileMappings (getNodeParameter i)) cfg)) ->
  (forall st, SQ st -> P (fst st)) ->
  forall itemsLength w,
    Forall (fun e => forall config r, e = EvExecuteContainer i config r -> P config)
      (callsOf (Node.execute getNodeParameter itemsLength w)).
Proof.
  intros Hstage HP itemsLength w.
  apply (execute_spec
           (PE := fun e => forall config r, e = EvExecuteContainer i config r -> P config)
           (PD := fun _ => True)).
  - intros j. destruct (Nat.eq_dec j i) as [->|Hji].
    + unfold Node.processItem. apply spec_tryCatch.
      * apply tryItem_spec with (SQ := SQ); try (intros; discriminate); trivial.
        intros st r Hst config r' Heq. inversion Heq; subst. now apply HP.
      * intros e. now apply catchItem_spec.
    + eapply spec_relax; [apply processItem_tagged| |trivial].
      intros e [Hj _] config r ->. cbn in Hj. congruence.
  - intros d r config r' Heq. discriminate.
Qed.

Lemma tool_run_config_spec (P : ContainerExecutionConfig -> Prop) itemIndex params
  (SQ : ContainerExecutionConfig * option string -> Prop) :
  (forall cfg, unmounted cfg ->
               spec (fun e => forall config r,
                         e = EvExecuteContainer itemIndex config r -> P config)
                 (fun _ => True) SQ
                 (stageBinaryData itemIndex (Tool.binaryDataInput params)
                    (Tool.binaryDataOutput params) (Tool.binaryFileMappings params) cfg)) ->
  (forall st, SQ st -> P (fst st)) ->
  forall w,
    Forall (fun e => forall config r,
                e = EvExecuteContainer itemIndex config r -> P config)
      (callsOf (Tool.executeContainerWithBinary itemIndex params w)).
Proof.
  intros Hstage HP w. unfold Tool.executeContainerWithBinary.
  apply (finally_spec
           (PE := fun e => forall config r,
                      e = EvExecuteContainer itemIndex config r -> P config)
           (PD := fun _ => True) (Q := fun _ => True)).
  - apply attempt_of_tryRun.
    apply tryRun_spec with (SQ := SQ); try (intros; discriminate); trivial.
    intros st r Hst config r' Heq. inversion Heq; subst. now apply HP.
  - intros d r config r' Heq. discriminate.
Qed.

(** X15. With binary input disabled, in both callers, the container is run
    with no memory limit and no CPU quota; its only volume, present exactly
    when binary output is enabled, is [<dir>/output:/output:rw] for the
    directory [dir] that [mkdtemp] returned. *)
Theorem unstaged_configuration :
  (forall getNodeParameter itemsLength w i,
      Node.binaryDataInput (getNodeParameter i) = false ->
      Forall (fun e => forall config r,
                  e = EvExecuteContainer i config r ->
                  builtUnstaged (Node.binaryDataOutput (getNodeParameter i)) config)
        (callsOf (Node.execute getNodeParameter itemsLength w)))
  /\ (forall itemIndex params w,
      Tool.binaryDataInput params = false ->
      Forall (fun e => forall config r,
                  e = EvExecuteContainer itemIndex config r ->
                  builtUnstaged (Tool.binaryDataOutput params) config)
        (callsOf (Tool.executeContainerWithBinary itemIndex params w))).
Proof.
  split.
  - intros getNodeParameter itemsLength w i Hin.
    apply run_config_spec
      with (SQ := fun st => builtUnstaged (Node.binaryDataOutput (getNodeParameter i))
                              (fst st)); [|trivial].
    intros cfg Hcfg. rewrite Hin. eapply spec_weaken.
    + apply stage_without_input; [exact Hcfg | intros; discriminate | intros; discriminate].
    + intros st [H _]. exact H.
  - intros itemIndex params w Hin.
    apply tool_run_config_spec
      with (SQ := fun st => builtUnstaged (Tool.binaryDataOutput params) (fst st));
      [|trivial].
    intros cfg Hcfg. rewrite Hin. eapply spec_weaken.
    + apply stage_without_input; [exact Hcfg | intros; discriminate | intros; discriminate].
    + intros st [H _]. exact H.
Qed.

Lemma staged_limited i binaryDataOutput m ms cfg st :
  staged i true binaryDataOutput (m :: ms) cfg st ->
  limitedByStaged i (m :: ms) (fst st).
Proof.
  intros (prepared & w & w' & E & ->). exists prepared, w, w'.
  split; [exact E|]. split; reflexivity.
Qed.

(** X16. When binary inputs were staged (binary input enabled, at least
    one mapping), in both callers, the container is run with the memory
    limit and the CPU quota that [calculateResourceLimits] gives for the
    sizes of the staged files. *)
Theorem limits_from_staged_sizes :
  (forall getNodeParameter itemsLength w i,
      Node.binaryDataInput (getNodeParameter i) = true ->
      Node.binaryFileMappings (getNodeParameter i) <> [] ->
      Forall (fun e => forall config r,
                  e = EvExecuteContainer i config r ->
                  limitedByStaged i (Node.binaryFileMappings (getNodeParameter i)) config)
        (callsOf (Node.execute getNodeParameter itemsLength w)))
  /\ (forall itemIndex params w,
      Tool.binaryDataInput params = true ->
      Tool.binaryFileMappings params <> [] ->
      Forall (fun e => forall config r,
                  e = EvExecuteContainer itemIndex config r ->
                  limitedByStaged itemIndex (Tool.binaryFileMappings params) config)
        (callsOf (Tool.executeContainerWithBinary itemIndex params w))).
Proof.
  split.
  - intros getNodeParameter itemsLength w i Hin Hmaps.
    destruct (Node.binaryFileMappings (getNodeParameter i)) as [|m ms] eqn:Em;
      [congruence|].
    apply run_config_spec
      with (SQ := fun st => limitedByStaged i (m :: ms) (fst st)); [|trivial].
    intros cfg _. rewrite Hin, Em. eapply spec_weaken.
    + apply stageBinaryData_spec; intros; discriminate.
    + intros st Hst. now apply staged_limited with (cfg := cfg) (binaryDataOutput :=
                                                       Node.binaryDataOutput (getNodeParameter i)).
  - intros itemIndex params w Hin Hmaps.
    destruct (Tool.binaryFileMappings params) as [|m ms] eqn:Em; [congruence|].
    apply tool_run_config_spec
      with (SQ := fun st => limitedByStaged itemIndex (m :: ms) (fst st)); [|trivial].
    intros cfg _. rewrite Hin, Em. eapply spec_weaken.
    + apply stageBinaryData_spec; intros; discriminate.
    + intros st Hst. now apply staged_limited with (cfg := cfg) (binaryDataOutput :=
                                                       Tool.binaryDataOutput params).
Qed.

Lemma staged_sameBase i binaryDataInput binaryDataOutput mappings cfg st :
  staged i binaryDataInput binaryDataOutput mappings cfg st -> sameBase cfg (fst st).
Proof.
  unfold staged. destruct binaryDataInput.
  - destruct mappings as [|m ms].
    + intros ->. repeat split.
    + intros (prepared & w & w' & _ & ->). repeat split.
  - destruct binaryDataOutput.
    + intros (dir & ->). repeat split.
    + intros ->. repeat split.
Qed.

(** X17. Every container either caller runs is run with the image of the
    parameters, which passed validation, with the entrypoint and the command
    of the parameters ([undefined] when empty), on the socket that
    [detectDockerSocket] gave, with [autoRemove] set and the pull policy
    [missing]; staging changes none of these.  Its environment is the one a
    successful [processEnvironmentVariables] returned for the item (node) or
    the [envVars] parameter (tool variant). *)
Theorem executed_config_base :
  (forall getNodeParameter itemsLength w,
      Forall (fun e => forall i config r,
                  e = EvExecuteContainer i config r ->
                  valid (validateDockerImageName (Node.image (getNodeParameter i))) = true
                  /\ exists w0 env w1 w1',
                      processEnvironmentVariables i w1 = (inr env, w1')
                      /\ sameBase
                           (buildConfig (Node.image (getNodeParameter i))
                              (Node.entrypoint (getNodeParameter i))
                              (Node.command (getNodeParameter i))
                              (variables env)
                              (detectDockerSocket (Node.socketPath (getNodeParameter i)) w0))
                           config)
        (callsOf (Node.execute getNodeParameter itemsLength w)))
  /\ (forall itemIndex params w,
      Forall (fun e => forall i config r,
                  e = EvExecuteContainer i config r ->
                  i = itemIndex
                  /\ valid (validateDockerImageName (Tool.image params)) = true
                  /\ exists w0,
                      sameBase
                        (buildConfig (Tool.image params) (Tool.entrypoint params)
                           (Tool.command params) (Tool.envVars params)
                           (detectDockerSocket (Tool.socketPath params) w0))
                        config)
        (callsOf (Tool.executeContainerWithBinary itemIndex params w))).
Proof.
  split.
  - intros getNodeParameter itemsLength w.
    apply (execute_spec (PD := fun _ => True)).
    + intros j. unfold Node.processItem. apply spec_tryCatch.
      * unfold Node.tryItem. cbv zeta.
        eapply spec_bind with (Q := fun _ => True); [now apply spec_getWorld|].
        intros w0 _.
        destruct (valid (validateDockerImageName (Node.image (getNodeParameter j))))
          eqn:Hv; cbn [negb]; [|apply spec_throw].
        eapply spec_bind
          with (Q := fun env => exists w1 w1',
                         processEnvironmentVariables j w1 = (inr env, w1')).
        { apply spec_call. intros w1 r w1' E.
          split; [intros; discriminate|]. split; [reflexivity|].
          intros a ->. eauto. }
        intros env (w1 & w1' & E).
        eapply spec_bind; [apply stageBinaryData_spec; intros; discriminate|].
        intros st Hst.
        eapply spec_bind with (Q := fun _ => True).
        { eapply spec_weaken.
          - apply runAndCollect_spec.
            + intros r i config r' Heq. inversion Heq; subst.
              split; [exact Hv|]. exists w0, env, w1, w1'.
              split; [exact E|]. eapply staged_sameBase; exact Hst.
            + intros; discriminate.
          - trivial. }
        intros data _. now apply spec_pushReturnData.
      * intros e. now apply catchItem_spec.
    + intros; discriminate.
  - intros itemIndex params w. unfold Tool.executeContainerWithBinary.
    apply (finally_spec (PD := fun _ => True) (Q := fun _ => True)).
    + apply attempt_of_tryRun. unfold Tool.tryRun. cbv zeta.
      eapply spec_bind with (Q := fun _ => True); [now apply spec_getWorld|].
      intros w0 _.
      destruct (valid (validateDockerImageName (Tool.image params)))
        eqn:Hv; cbn [negb]; [|apply spec_throw].
      eapply spec_bind; [apply stageBinaryData_spec; intros; discriminate|].
      intros st Hst.
      eapply spec_weaken.
      * apply runAndCollect_spec.
        -- intros r i config r' Heq. inversion Heq; subst.
           split; [reflexivity|]. split; [reflexivity|]. exists w0.
           eapply staged_sameBase; exact Hst.
        -- intros; discriminate.
      * trivial.
    + intros; discriminate.
Qed.

(** The record that [runAndCollect] builds. *)
Lemma runAndCollect_wellFormed (PD : ExecutionData -> Prop)
  itemIndex image containerConfig dir envCount socketPath binaryDataInput
  binaryDataOutput outputFilePattern :
  spec (fun _ => True) PD (fun data => wellFormedData data /\ pairedItem data = itemIndex)
    (runAndCollect itemIndex image containerConfig dir envCount socketPath
       binaryDataInput binaryDataOutput outputFilePattern).
Proof.
  unfold runAndCollect.
  eapply spec_bind with (Q := fun _ => True).
  - apply spec_call. intros w r w' E. split; [trivial|]. split; [reflexivity | trivial].
  - intros result _. cbv zeta.
    destruct (wantsOutput binaryDataOutput dir) as [d|] eqn:Hw.
    + assert (binaryDataOutput = true) as ->.
      { unfold wantsOutput in Hw. destruct dir; [|discriminate].
        destruct binaryDataOutput; [reflexivity | discriminate]. }
      eapply spec_bind with (Q := fun _ => True).
      * apply spec_call. intros w r w' E.
        split; [trivial|]. split; [reflexivity | trivial].
      * intros outputBinary _.
        destruct outputBinary as [|f fs]; apply spec_ret; split; try reflexivity.
        cbn. split; [discriminate|]. split; reflexivity.
    + apply spec_ret. split; reflexivity.
Qed.

Lemma stage_quiet (PD : ExecutionData -> Prop) i binaryDataInput binaryDataOutput
  mappings cfg :
  spec (fun _ => True) PD (fun _ => True)
    (stageBinaryData i binaryDataInput binaryDataOutput mappings cfg).
Proof.
  eapply spec_weaken; [apply stageBinaryData_spec; trivial | trivial].
Qed.

(** X18. Every record either caller returns is well formed: a result
    carries binary data exactly when its [container] entry counts output
    files, and then binary output was enabled, there is at least one file and
    the count is the number of files; an error record carries no binary data
    and reads [success: false], [exitCode: -1], [stdout: ''], with the
    message repeated as [stderr]. The tool variant only returns results. *)
Theorem returned_data_well_formed :
  (forall getNodeParameter itemsLength w l,
      resultOf (Node.execute getNodeParameter itemsLength w) = inr l ->
      Forall wellFormedData l)
  /\ (forall itemIndex params w data,
      resultOf (Tool.executeContainerWithBinary itemIndex params w) = inr data ->
      wellFormedData data /\ pairedItem data = itemIndex
      /\ exists result info, json data = ResultJson result info).
Proof.
  split.
  - intros getNodeParameter itemsLength w.
    apply (execute_spec (PE := fun _ => True) (PD := wellFormedData)); [|trivial].
    intros j. unfold Node.processItem. apply spec_tryCatch.
    + unfold Node.tryItem. cbv zeta.
      eapply spec_bind with (Q := fun _ => True); [now apply spec_getWorld|].
      intros w0 _.
      destruct (negb (valid (validateDockerImageName (Node.image (getNodeParameter j)))));
        [apply spec_throw|].
      eapply spec_bind with (Q := fun _ => True).
      { apply spec_call. intros w1 r w1' E. split; [trivial|].
        split; [reflexivity | trivial]. }
      intros env _.
      eapply spec_bind; [apply stage_quiet|].
      intros st _.
      eapply spec_bind; [apply runAndCollect_wellFormed|].
      intros data [Hd _]. now apply spec_pushReturnData.
    + intros e. unfold Node.catchItem. cbv zeta.
      eapply spec_bind with (Q := fun _ => True); [now apply spec_getWorld|].
      intros w0 _. destruct (continueOnFail w0); [|apply spec_throw].
      apply spec_pushReturnData; [|trivial]. cbn. repeat split.
  - intros itemIndex params w. unfold Tool.executeContainerWithBinary.
    apply (finally_spec (PE := fun _ => True) (PD := fun _ => True)); [|trivial].
    apply attempt_of_tryRun. unfold Tool.tryRun. cbv zeta.
    eapply spec_bind with (Q := fun _ => True); [now apply spec_getWorld|].
    intros w0 _.
    destruct (negb (valid (validateDockerImageName (Tool.image params))));
      [apply spec_throw|].
    eapply spec_bind; [apply stage_quiet|].
    intros st _. unfold runAndCollect.
    eapply spec_bind with (Q := fun _ => True).
    { apply spec_call. intros w1 r w1' E. split; [trivial|].
      split; [reflexivity | trivial]. }
    intros result _. cbv zeta.
    destruct (wantsOutput (Tool.binaryDataOutput params) (snd st)) as [d|] eqn:Hw.
    + assert (Tool.binaryDataOutput params = true) as Hout.
      { unfold wantsOutput in Hw. destruct (snd st); [|discriminate].
        destruct (Tool.binaryDataOutput params); [reflexivity | discriminate]. }
      eapply spec_bind with (Q := fun _ => True).
      * apply spec_call. intros w1 r w1' E. split; [trivial|].
        split; [reflexivity | trivial].
      * intros outputBinary _.
        destruct outputBinary as [|f fs]; apply spec_ret; cbn.
        -- split; [reflexivity|]. split; [reflexivity | eauto].
        -- split; [|split; [reflexivity | eauto]].
           split; [discriminate|]. split; [reflexivity | exact Hout].
    + apply spec_ret. cbn. split; [reflexivity|]. split; [reflexivity | eauto].
Qed.

Lemma Sorted_app {A} (R : A -> A -> Prop) (l1 l2 : list A) :
  Sorted R l1 -> Sorted R l2 ->
  (forall x y, In x l1 -> In y l2 -> R x y) ->
  Sorted R (l1 ++ l2).
Proof.
  induction l1 as [|a l1 IH]; intros H1 H2 H12; [exact H2|].
  inversion H1 as [|? ? Hs Hh]; subst. cbn. constructor.
  - apply IH; [exact Hs | exact H2 |]. intros x y Hx. apply H12. now right.
  - destruct l1 as [|b l1].
    + destruct l2 as [|c l2]; constructor. apply H12; now left.
    + inversion Hh; subst. now constructor.
Qed.

Lemma Sorted_weaken {A} (R R' : A -> A -> Prop) (l : list A) :
  (forall x y, R x y -> R' x y) -> Sorted R l -> Sorted R' l.
Proof.
  intros HR. induction 1 as [|a l Hs IH Hh]; constructor; [exact IH|].
  destruct Hh; constructor. now apply HR.
Qed.

Lemma ordered_quiet {A} i lo hi (m : Async A) :
  (forall s, callsOf (m s) = []) -> ordered i lo hi m.
Proof.
  intros H s. rewrite H. split; [constructor|]. split; [constructor|].
  intros a _. constructor.
Qed.

Lemma ordered_call {A} i lo hi (f : HostWorld -> (Error + A) * HostWorld)
  (event : Error + A -> Event) :
  (forall r, itemOf (event r) = Some i /\ lo <= phase (event r) < hi) ->
  (forall a, failed (event (inr a)) = false) ->
  ordered i lo hi (call f event).
Proof.
  intros He Hok s. unfold call. destruct (f (world s)) as [r w']. cbn.
  split; [repeat constructor|]. split; [repeat constructor; apply He|].
  intros a ->. repeat constructor. apply Hok.
Qed.

Lemma ordered_bind {A B} i lo mid hi (m : Async A) (k : A -> Async B) :
  lo <= mid <= hi ->
  ordered i lo mid m -> (forall a, ordered i mid hi (k a)) ->
  ordered i lo hi (bind m k).
Proof.
  intros Hb Hm Hk s. specialize (Hm s). unfold bind.
  destruct (m s) as [[[e|a] s1] t1]; cbn in Hm |- *.
  - destruct Hm as (H1 & H2 & _). split; [exact H1|]. split.
    + eapply Forall_impl; [|exact H2]. cbn. intros e0 [? ?]. split; [assumption | lia].
    + intros a Ha. discriminate.
  - destruct Hm as (H1 & H2 & H3). specialize (H3 a eq_refl).
    specialize (Hk a s1). destruct (k a s1) as [[r2 s2] t2]. cbn in Hk |- *.
    destruct Hk as (K1 & K2 & K3).
    rewrite Forall_forall in H2, H3, K2.
    split; [|split].
    + apply Sorted_app; [exact H1 | exact K1 |].
      intros x y Hx Hy. destruct (H2 x Hx) as [Ex Px]. destruct (K2 y Hy) as [Ey Py].
      split.
      * unfold position. rewrite Ex, Ey. lia.
      * intros Hf. rewrite (H3 x Hx) in Hf. discriminate.
    + apply Forall_app. split; apply Forall_forall; intros x Hx.
      * destruct (H2 x Hx). split; [assumption | lia].
      * destruct (K2 x Hx). split; [assumption | lia].
    + intros b ->. apply Forall_app. split; [now apply Forall_forall|].
      exact (K3 b eq_refl).
Qed.

Lemma ordered_stage i binaryDataInput binaryDataOutput mappings cfg :
  ordered i 1 3 (stageBinaryData i binaryDataInput binaryDataOutput mappings cfg).
Proof.
  unfold stageBinaryData. destruct binaryDataInput.
  - destruct mappings as [|m ms]; [now apply ordered_quiet|].
    apply ordered_bind with (mid := 2); [lia | apply ordered_call; [cbn; auto with arith | reflexivity] |].
    intros prepared. cbv zeta.
    apply ordered_bind with (mid := 2); [lia | now apply ordered_quiet|].
    intros _.
    apply ordered_bind with (mid := 3); [lia | | intros; now apply ordered_quiet].
    destruct binaryDataOutput; [|now apply ordered_quiet].
    apply ordered_bind with (mid := 3); [lia | | intros; now apply ordered_quiet].
    apply ordered_call; [cbn; auto with arith | reflexivity].
  - destruct binaryDataOutput; [|now apply ordered_quiet].
    apply ordered_bind with (mid := 1); [lia | now apply ordered_quiet|].
    intros w. cbv zeta.
    apply ordered_bind with (mid := 2); [lia | apply ordered_call; [cbn; auto with arith | reflexivity] |].
    intros dir.
    apply ordered_bind with (mid := 2); [lia | now apply ordered_quiet|].
    intros _.
    apply ordered_bind with (mid := 3); [lia | | intros; now apply ordered_quiet].
    apply ordered_call; [cbn; auto with arith | reflexivity].
Qed.

Lemma ordered_run i image cfg dir envCount socketPath binaryDataInput binaryDataOutput
  outputFilePattern :
  ordered i 3 5 (runAndCollect i image cfg dir envCount socketPath binaryDataInput
                   binaryDataOutput outputFilePattern).
Proof.
  unfold runAndCollect.
  apply ordered_bind with (mid := 4); [lia | apply ordered_call; [cbn; auto with arith | reflexivity] |].
  intros result. cbv zeta.
  destruct (wantsOutput binaryDataOutput dir) as [d|]; [|now apply ordered_quiet].
  apply ordered_bind with (mid := 5); [lia | apply ordered_call; [cbn; auto with arith | reflexivity] |].
  intros outputBinary. destruct outputBinary; now apply ordered_quiet.
Qed.

Lemma ordered_tryItem getNodeParameter i : ordered i 0 5 (Node.tryItem getNodeParameter i).
Proof.
  unfold Node.tryItem. cbv zeta.
  apply ordered_bind with (mid := 0); [lia | now apply ordered_quiet|].
  intros w.
  destruct (negb (valid (validateDockerImageName (Node.image (getNodeParameter i)))));
    [now apply ordered_quiet|].
  apply ordered_bind with (mid := 1); [lia | apply ordered_call; [cbn; auto with arith | reflexivity] |].
  intros env.
  apply ordered_bind with (mid := 3); [lia | apply ordered_stage|].
  intros st.
  apply ordered_bind with (mid := 5); [lia | apply ordered_run|].
  intros data. now apply ordered_quiet.
Qed.

Lemma ordered_tryRun i params : ordered i 0 5 (Tool.tryRun i params).
Proof.
  unfold Tool.tryRun. cbv zeta.
  apply ordered_bind with (mid := 1); [lia | now apply ordered_quiet|].
  intros w.
  destruct (negb (valid (validateDockerImageName (Tool.image params))));
    [now apply ordered_quiet|].
  apply ordered_bind with (mid := 3); [lia | apply ordered_stage|].
  intros st. apply ordered_run.
Qed.

Lemma itemsOrdered_processItem getNodeParameter i :
  itemsOrdered i (S i) (Node.processItem getNodeParameter i).
Proof.
  intros s. unfold Node.processItem. rewrite callsOf_tryCatch.
  destruct (ordered_tryItem getNodeParameter i s) as (H1 & H2 & _).
  assert (forall e s1, callsOf (Node.catchItem getNodeParameter i e s1) = []) as Hc.
  { intros e s1. unfold Node.catchItem, bind, getWorld. cbn.
    now destruct (continueOnFail (world s1)). }
  assert (match resultOf (Node.tryItem getNodeParameter i s) with
          | inl e => callsOf (Node.catchItem getNodeParameter i e
                                (stateOf (Node.tryItem getNodeParameter i s)))
          | inr _ => []
          end = []) as ->.
  { destruct (resultOf (Node.tryItem getNodeParameter i s)); [apply Hc | reflexivity]. }
  rewrite app_nil_r. split; [exact H1|].
  eapply Forall_impl; [|exact H2]. cbn. intros e [He _]. exists i. split; [exact He | lia].
Qed.

Lemma itemsOrdered_forItems getNodeParameter remaining :
  forall i, itemsOrdered i (i + remaining) (Node.forItems getNodeParameter i remaining).
Proof.
  induction remaining as [|remaining IH]; intros i s.
  - cbn. split; constructor.
  - cbn [Node.forItems]. rewrite callsOf_bind.
    destruct (itemsOrdered_processItem getNodeParameter i s) as (H1 & H2).
    assert (exists t2,
               match resultOf (Node.processItem getNodeParameter i s) with
               | inl _ => []
               | inr a => callsOf (Node.forItems getNodeParameter (S i) remaining
                                     (stateOf (Node.processItem getNodeParameter i s)))
               end = t2
               /\ Sorted follows t2
               /\ Forall (fun e => exists j, itemOf e = Some j /\ S i <= j < S i + remaining) t2)
      as (t2 & -> & K1 & K2).
    { destruct (resultOf (Node.processItem getNodeParameter i s)).
      - exists []. split; [reflexivity|]. split; constructor.
      - eexists. split; [reflexivity|]. apply IH. }
    rewrite Forall_forall in H2, K2. split.
    + apply Sorted_app; [exact H1 | exact K1 |].
      intros x y Hx Hy.
      destruct (H2 x Hx) as (j & Ex & Px). destruct (K2 y Hy) as (j' & Ey & Py).
      split.
      * unfold position. rewrite Ex, Ey.
        assert (phase x < 5) by (destruct x; cbn; try lia; discriminate). lia.
      * intros _. rewrite Ex, Ey. intros Heq. inversion Heq. lia.
    + apply Forall_app. split; apply Forall_forall; intros x Hx.
      * destruct (H2 x Hx) as (j & Ex & Px). exists j. split; [exact Ex | lia].
      * destruct (K2 x Hx) as (j & Ex & Px). exists j. split; [exact Ex | lia].
Qed.

Lemma node_calls_split getNodeParameter itemsLength w :
  exists main cleanup,
    callsOf (Node.execute getNodeParameter itemsLength w) = main ++ cleanup
    /\ Sorted follows main
    /\ Forall (fun e => exists i, itemOf e = Some i /\ i < itemsLength) main
    /\ forallb isCleanup cleanup = true.
Proof.
  unfold Node.execute.
  destruct (finally_run (Node.attempt getNodeParameter itemsLength) (initialState w))
    as (_ & Hcalls).
  do 2 eexists. split; [exact Hcalls|].
  destruct (cleanupTempDirectories_run
              (stateOf (Node.attempt getNodeParameter itemsLength (initialState w))))
    as (_ & Hc & _).
  split; [|split; [|exact Hc]].
  - unfold Node.attempt. rewrite callsOf_bind.
    destruct (itemsOrdered_forItems getNodeParameter itemsLength 0 (initialState w))
      as (H1 & _).
    destruct (resultOf _); cbn; rewrite app_nil_r; exact H1.
  - unfold Node.attempt. rewrite callsOf_bind.
    destruct (itemsOrdered_forItems getNodeParameter itemsLength 0 (initialState w))
      as (_ & H2).
    destruct (resultOf _); cbn; rewrite app_nil_r;
      (eapply Forall_impl; [|exact H2]); cbn; intros ev (i & E & Hi); exists i;
      (split; [exact E | lia]).
Qed.

Lemma tool_calls_split itemIndex params w :
  exists main cleanup,
    callsOf (Tool.executeContainerWithBinary itemIndex params w) = main ++ cleanup
    /\ Sorted follows main
    /\ Forall (fun e => itemOf e = Some itemIndex) main
    /\ forallb isCleanup cleanup = true.
Proof.
  unfold Tool.executeContainerWithBinary.
  destruct (finally_run (Tool.attempt itemIndex params) (initialState w)) as (_ & Hcalls).
  do 2 eexists. split; [exact Hcalls|].
  destruct (cleanupTempDirectories_run
              (stateOf (Tool.attempt itemIndex params (initialState w))))
    as (_ & Hc & _).
  assert (callsOf (Tool.attempt itemIndex params (initialState w))
          = callsOf (Tool.tryRun itemIndex params (initialState w))) as ->.
  { unfold Tool.attempt. rewrite callsOf_tryCatch.
    destruct (resultOf _); cbn; now rewrite app_nil_r. }
  destruct (ordered_tryRun itemIndex params (initialState w)) as (H1 & H2 & _).
  split; [exact H1|]. split; [|exact Hc].
  eapply Forall_impl; [|exact H2]. cbn. intros ev [E _]. exact E.
Qed.

(** X19. In both callers the calls made before the final cleanup are in
    pipeline order, and the cleanup calls come last: the items are processed
    in order, each step of an item (environment, temporary directory, output
    directory, container, output files) is taken at most once and in this
    order, and after a staging call or a container run that failed nothing
    more is done for that item. *)
Theorem calls_in_pipeline_order :
  (forall getNodeParameter itemsLength w,
      exists main cleanup,
        callsOf (Node.execute getNodeParameter itemsLength w) = main ++ cleanup
        /\ Sorted follows main
        /\ Forall (fun e => exists i, itemOf e = Some i /\ i < itemsLength) main
        /\ forallb isCleanup cleanup = true)
  /\ (forall itemIndex params w,
      exists main cleanup,
        callsOf (Tool.executeContainerWithBinary itemIndex params w) = main ++ cleanup
        /\ Sorted follows main
        /\ Forall (fun e => itemOf e = Some itemIndex) main
        /\ forallb isCleanup cleanup = true).
Proof.
  split; [exact node_calls_split | exact tool_calls_split].
Qed.

Lemma at_most_one_at_position (f : Event -> bool) (p : nat) (l : list Event) :
  Sorted follows l ->
  (forall e, f e = true -> position e = p) ->
  length (filter f l) <= 1.
Proof.
  intros Hs Hf.
  assert (StronglySorted (fun a b => position a < position b) l) as Hss.
  { apply Sorted_StronglySorted.
    - intros x y z Hxy Hyz. lia.
    - eapply Sorted_weaken; [|exact Hs]. now intros x y [H _]. }
  clear Hs. induction Hss as [|a l Hss IH Hall]; [cbn; lia|].
  cbn [filter]. destruct (f a) eqn:Ea; [|exact IH].
  assert (filter f l = []) as ->; [|cbn; lia].
  clear IH Hss. induction l as [|b l IHl]; [reflexivity|].
  inversion Hall; subst. cbn [filter].
  destruct (f b) eqn:Eb; [|now apply IHl].
  apply Hf in Ea, Eb. lia.
Qed.

Lemma no_execute_in_cleanup i (l : list Event) :
  forallb isCleanup l = true -> filter (isExecuteFor i) l = [].
Proof.
  induction l as [|e l IH]; [reflexivity|]. cbn [forallb filter].
  intros H. apply andb_prop in H as [He Hl].
  destruct e; try discriminate. cbn. now apply IH.
Qed.

Lemma isExecuteFor_position i e : isExecuteFor i e = true -> position e = 5 * i + 3.
Proof.
  destruct e; try discriminate. cbn [isExecuteFor]. intros H.
  apply Nat.eqb_eq in H. subst. reflexivity.
Qed.

(** X20. Neither caller runs more than one container for an item: among
    all the calls of a run, at most one is an [executeContainer] for a given
    item index. *)
Theorem one_container_per_item :
  (forall getNodeParameter itemsLength w i,
      length (filter (isExecuteFor i)
                (callsOf (Node.execute getNodeParameter itemsLength w))) <= 1)
  /\ (forall itemIndex params w i,
      length (filter (isExecuteFor i)
                (callsOf (Tool.executeContainerWithBinary itemIndex params w))) <= 1).
Proof.
  split.
  - intros getNodeParameter itemsLength w i.
    destruct (node_calls_split getNodeParameter itemsLength w)
      as (main & cleanup & -> & Hs & _ & Hc).
    rewrite filter_app, (no_execute_in_cleanup i cleanup Hc), app_nil_r.
    apply at_most_one_at_position with (p := 5 * i + 3); [exact Hs|].
    apply isExecuteFor_position.
  - intros itemIndex params w i.
    destruct (tool_calls_split itemIndex params w)
      as (main & cleanup & -> & Hs & _ & Hc).
    rewrite filter_app, (no_execute_in_cleanup i cleanup Hc), app_nil_r.
    apply at_most_one_at_position with (p := 5 * i + 3); [exact Hs|].
    apply isExecuteFor_position.
Qed.

End CallerResults.

Lemma node_one_record_per_item_witness :
  exists l,
    resultOf (Node.execute (host := Sample.host) Sample.nodeParameters 3 0%N) = inr l
    /\ map (Pipeline.pairedItem (host := Sample.host)) l = [0; 1; 2].
Proof.
  exact (@node_one_record_per_item Sample.host Sample.nodeParameters 3 0%N
           (fun _ => eq_refl)).
Defined.


Lemma unstaged_configuration_witness :
  Forall (fun e => forall config r,
              e = Pipeline.EvExecuteContainer 0 config r ->
              Pipeline.builtUnstaged (host := Sample.host) true config)
    (callsOf (Tool.executeContainerWithBinary (host := Sample.host) 0
                Sample.outputOnlyParams 0%N)).
Proof.
  exact (proj2 (unstaged_configuration (host := Sample.host))
           0 Sample.outputOnlyParams 0%N eq_refl).
Defined.

Lemma limits_from_staged_sizes_witness :
  Forall (fun e => forall config r,
              e = Pipeline.EvExecuteContainer 0 config r ->
              Pipeline.limitedByStaged (host := Sample.host) 0 Sample.oneMapping config)
    (callsOf (Tool.executeContainerWithBinary (host := Sample.host) 0
                (Sample.toolParams "alpine:latest" Sample.oneMapping) 0%N)).
Proof.
  refine (proj2 (limits_from_staged_sizes (host := Sample.host))
            0 (Sample.toolParams "alpine:latest" Sample.oneMapping) 0%N eq_refl _).
  discriminate.
Defined.

Lemma returned_data_well_formed_witness :
  exists data,
    resultOf (Tool.executeContainerWithBinary (host := Sample.host) 0
                (Sample.toolParams "alpine:latest" Sample.oneMapping) 0%N) = inr data
    /\ Pipeline.wellFormedData data
    /\ Pipeline.pairedItem data = 0
    /\ exists result info, Pipeline.json data = Pipeline.ResultJson result info.
Proof.
  eexists. split; [reflexivity|].
  apply (proj2 (returned_data_well_formed (host := Sample.host))
           0 (Sample.toolParams "alpine:latest" Sample.oneMapping) 0%N).
  reflexivity.
Defined.

(* --------------------------------------------------------------------- *)
(** ** The message loop of the Claude Code Agent node                     *)
(* --------------------------------------------------------------------- *)

Section AgentFacts.
Import ClaudeCodeAgent.
Variable stringify : Message -> string.

Lemma forAwait_app verbose pre rest :
  Forall (fun message => failing message = false) pre ->
  forall finalResult logs,
    forAwait stringify verbose (pre ++ rest) finalResult logs
    = forAwait stringify verbose rest (finalResultAfter pre finalResult)
        (logs ++ if verbose then map stringify pre else []).
Proof.
  induction 1 as [|message pre Hm Hpre IH]; intros finalResult logs.
  - cbn. now destruct verbose; rewrite app_nil_r.
  - cbn [app forAwait finalResultAfter fold_left]. unfold failing, succeeding in *.
    destruct (String.eqb (type message) "result"); cbn [andb] in *.
    + destruct (String.eqb (subtype message) "success"); cbn [negb andb] in *.
      * rewrite IH. f_equal. destruct verbose; [now rewrite <- app_assoc | reflexivity].
      * rewrite Hm. rewrite IH. f_equal.
        destruct verbose; [now rewrite <- app_assoc | reflexivity].
    + rewrite IH. f_equal. destruct verbose; [now rewrite <- app_assoc | reflexivity].
Qed.

Lemma forAwait_failing verbose message rest finalResult logs :
  failing message = true ->
  forAwait stringify verbose (message :: rest) finalResult logs = inl (failure message).
Proof.
  unfold failing. cbn [forAwait]. intros H.
  apply andb_prop in H as [H H3]. apply andb_prop in H as [H1 H2].
  rewrite H1. apply negb_true_iff in H2. now rewrite H2, H3.
Qed.

Lemma finalResultAfter_none messages :
  Forall (fun message => succeeding message = false) messages ->
  forall finalResult, finalResultAfter messages finalResult = finalResult.
Proof.
  induction 1 as [|message messages Hm _ IH]; intros finalResult; [reflexivity|].
  unfold finalResultAfter in *. cbn [fold_left]. rewrite Hm. apply IH.
Qed.

Lemma finalResultAfter_last pre message post finalResult :
  succeeding message = true ->
  Forall (fun x => succeeding x = false) post ->
  finalResultAfter (pre ++ message :: post) finalResult = Some (result message).
Proof.
  intros Hm Hpost. unfold finalResultAfter. rewrite fold_left_app. cbn [fold_left].
  rewrite Hm. now apply finalResultAfter_none.
Qed.

(** X21. An error result ends the item with that error, whatever came
    before it: the first message of type [result] whose subtype is one of
    the four error subtypes makes the [try] block throw
    [Claude Code Agent failed: <subtype>. Errors: <errors>], even when an
    earlier message had reported success. *)
Theorem agent_failure_wins verbose generator pre message post :
  yielded generator = pre ++ message :: post ->
  Forall (fun x => failing x = false) pre ->
  failing message = true ->
  tryItem stringify verbose generator = inl (failure message).
Proof.
  intros Hy Hpre Hm. unfold tryItem. rewrite Hy, forAwait_app by exact Hpre.
  now rewrite forAwait_failing.
Qed.

(** X22. When the generator ends without throwing and yields no error
    result, the item's result is that of the last [success] message, and the
    logs, present exactly in verbose mode, are all the yielded messages,
    serialised in order. *)
Theorem agent_result_is_last_success verbose generator pre message post :
  yielded generator = pre ++ message :: post ->
  thrown generator = None ->
  Forall (fun x => failing x = false) (yielded generator) ->
  succeeding message = true ->
  Forall (fun x => succeeding x = false) post ->
  tryItem stringify verbose generator
  = inr {| jsonResult := result message;
           jsonLogs := if verbose then Some (map stringify (yielded generator))
                       else None |}.
Proof.
  intros Hy Ht Hq Hm Hpost. unfold tryItem.
  rewrite <- (app_nil_r (yielded generator)) at 1.
  rewrite forAwait_app by exact Hq. cbn [forAwait]. rewrite Ht.
  rewrite Hy at 1. rewrite finalResultAfter_last by assumption.
  now destruct verbose.
Qed.

(** X23. Without a [success] message the item fails: with the error of the
    generator when it throws, with [Claude Code Agent finished without a
    result.] when it just ends. *)
Theorem agent_without_result verbose generator :
  Forall (fun x => failing x = false /\ succeeding x = false) (yielded generator) ->
  tryItem stringify verbose generator
  = inl match thrown generator with
        | Some e => e
        | None => PlainError "Claude Code Agent finished without a result."
        end.
Proof.
  intros H. unfold tryItem.
  rewrite <- (app_nil_r (yielded generator)).
  rewrite forAwait_app.
  - cbn [forAwait]. rewrite finalResultAfter_none.
    + now destruct (thrown generator).
    + eapply Forall_impl; [|exact H]. now intros x [_ Hx].
  - eapply Forall_impl; [|exact H]. now intros x [Hx _].
Qed.

End AgentFacts.

Lemma agent_failure_wins_witness :
  ClaudeCodeAgent.tryItem ClaudeCodeAgent.sampleStringify true
    {| ClaudeCodeAgent.yielded :=
         [ClaudeCodeAgent.assistantMessage; ClaudeCodeAgent.successMessage "done";
          ClaudeCodeAgent.maxTurnsMessage; ClaudeCodeAgent.assistantMessage];
       ClaudeCodeAgent.thrown := None |}
  = inl (PlainError
           "Claude Code Agent failed: error_max_turns. Errors: too many turns, stopped").
Proof.
  apply (@agent_failure_wins ClaudeCodeAgent.sampleStringify true _
           [ClaudeCodeAgent.assistantMessage; ClaudeCodeAgent.successMessage "done"]
           ClaudeCodeAgent.maxTurnsMessage [ClaudeCodeAgent.assistantMessage]).
  - reflexivity.
  - repeat (apply Forall_cons; [reflexivity|]). apply Forall_nil.
  - reflexivity.
Defined.

Lemma agent_result_is_last_success_witness :
  ClaudeCodeAgent.tryItem ClaudeCodeAgent.sampleStringify true
    {| ClaudeCodeAgent.yielded :=
         [ClaudeCodeAgent.successMessage "draft"; ClaudeCodeAgent.assistantMessage;
          ClaudeCodeAgent.successMessage "done"; ClaudeCodeAgent.assistantMessage];
       ClaudeCodeAgent.thrown := None |}
  = inr {| ClaudeCodeAgent.jsonResult := "done";
           ClaudeCodeAgent.jsonLogs :=
             Some ["result/success"%string; "assistant/"%string;
                   "result/success"%string; "assistant/"%string] |}.
Proof.
  refine (@agent_result_is_last_success ClaudeCodeAgent.sampleStringify true
            {| ClaudeCodeAgent.yielded :=
                 [ClaudeCodeAgent.successMessage "draft"; ClaudeCodeAgent.assistantMessage;
                  ClaudeCodeAgent.successMessage "done"; ClaudeCodeAgent.assistantMessage];
               ClaudeCodeAgent.thrown := None |}
            [ClaudeCodeAgent.successMessage "draft"; ClaudeCodeAgent.assistantMessage]
            (ClaudeCodeAgent.successMessage "done") [ClaudeCodeAgent.assistantMessage]
            eq_refl eq_refl _ eq_refl _).
  - repeat (apply Forall_cons; [reflexivity|]). apply Forall_nil.
  - repeat (apply Forall_cons; [reflexivity|]). apply Forall_nil.
Defined.

Lemma agent_without_result_witness :
  ClaudeCodeAgent.tryItem ClaudeCodeAgent.sampleStringify false
    {| ClaudeCodeAgent.yielded :=
         [ClaudeCodeAgent.assistantMessage; ClaudeCodeAgent.assistantMessage];
       ClaudeCodeAgent.thrown := None |}
  = inl (PlainError "Claude Code Agent finished without a result.").
Proof.
  apply (@agent_without_result ClaudeCodeAgent.sampleStringify false
           {| ClaudeCodeAgent.yielded :=
                [ClaudeCodeAgent.assistantMessage; ClaudeCodeAgent.assistantMessage];
              ClaudeCodeAgent.thrown := None |}).
  repeat (apply Forall_cons; [split; reflexivity|]). apply Forall_nil.
Defined.

(* --------------------------------------------------------------------- *)
(** ** The handler of the MCP tool adapter                                *)
(* --------------------------------------------------------------------- *)

Section AdapterFacts.
Import McpToolAdapter.

Lemma isMetadata_neq k k' : isMetadata k = true -> isMetadata k' = false ->
                            String.eqb k k' = false.
Proof.
  intros Hk Hk'. destruct (String.eqb k k') eqn:E; [|reflexivity].
  apply String.eqb_eq in E. subst. congruence.
Qed.

Lemma get_actualArgs key properties :
  isMetadata key = false -> get key (actualArgs properties) = get key properties.
Proof.
  intros Hkey. induction properties as [|[k v] properties IH]; [reflexivity|].
  cbn [actualArgs filter fst get]. fold (actualArgs properties).
  destruct (isMetadata k) eqn:Ek; cbn [negb].
  - now rewrite (isMetadata_neq _ _ Ek Hkey).
  - cbn [get]. destruct (String.eqb k key); [reflexivity | exact IH].
Qed.

(** X24. The wrapper of the SDK does not reach the tool: two argument
    objects that differ only in their [signal], [_meta] and [requestId]
    properties, and have some other property, give the tool the same input
    and so the handler the same answer. *)
Theorem metadata_is_invisible stringify name method properties properties' :
  actualArgs properties = actualArgs properties' ->
  actualArgs properties <> [] ->
  unwrapInput (JsObject properties) = unwrapInput (JsObject properties')
  /\ handler stringify name method (JsObject properties)
     = handler stringify name method (JsObject properties').
Proof.
  intros Heq Hne.
  assert (unwrapInput (JsObject properties) = unwrapInput (JsObject properties')) as H.
  { unfold unwrapInput. rewrite <- Heq.
    destruct (get "input" (actualArgs properties)); [reflexivity|].
    destruct (actualArgs properties); [congruence | reflexivity]. }
  split; [exact H|]. unfold handler. now rewrite H.
Qed.

(** X25. An [input] property takes precedence: when the arguments have
    one, the tool is called with its value alone, and every other property
    is dropped. *)
Theorem input_field_wins properties input :
  get "input" properties = Some input ->
  unwrapInput (JsObject properties) = input.
Proof.
  intros H. unfold unwrapInput. rewrite get_actualArgs by reflexivity. now rewrite H.
Qed.

(** X26. Arguments that carry nothing but the wrapper of the SDK are
    passed on as they are, wrapper included. *)
Theorem metadata_only_args_kept properties :
  Forall (fun kv => isMetadata (fst kv) = true) properties ->
  unwrapInput (JsObject properties) = JsObject properties.
Proof.
  intros H. unfold unwrapInput.
  assert (actualArgs properties = []) as ->; [|reflexivity].
  induction H as [|[k v] properties Hk _ IH]; [reflexivity|].
  cbn [actualArgs filter fst] in *. now rewrite Hk.
Qed.

End AdapterFacts.

Lemma metadata_is_invisible_witness :
  McpToolAdapter.unwrapInput
    (McpToolAdapter.JsObject
       [("signal"%string, McpToolAdapter.JsNull);
        ("expression"%string, McpToolAdapter.JsString "2+2")])
  = McpToolAdapter.unwrapInput
      (McpToolAdapter.JsObject
         [("expression"%string, McpToolAdapter.JsString "2+2");
          ("requestId"%string, McpToolAdapter.JsNumber 7)])
  /\ McpToolAdapter.handler (fun _ => "{}"%string) "Calculator"
       (fun v => inr v)
       (McpToolAdapter.JsObject
          [("signal"%string, McpToolAdapter.JsNull);
           ("expression"%string, McpToolAdapter.JsString "2+2")])
     = McpToolAdapter.handler (fun _ => "{}"%string) "Calculator"
         (fun v => inr v)
         (McpToolAdapter.JsObject
            [("expression"%string, McpToolAdapter.JsString "2+2");
             ("requestId"%string, McpToolAdapter.JsNumber 7)]).
Proof.
  apply metadata_is_invisible; [reflexivity | discriminate].
Defined.

Lemma input_field_wins_witness :
  McpToolAdapter.unwrapInput
    (McpToolAdapter.JsObject
       [("_meta"%string, McpToolAdapter.JsNull);
        ("input"%string, McpToolAdapter.JsString "2+2");
        ("precision"%string, McpToolAdapter.JsNumber 3)])
  = McpToolAdapter.JsString "2+2".
Proof.
  apply input_field_wins. reflexivity.
Defined.

Lemma metadata_only_args_kept_witness :
  McpToolAdapter.unwrapInput
    (McpToolAdapter.JsObject
       [("signal"%string, McpToolAdapter.JsNull);
        ("requestId"%string, McpToolAdapter.JsNumber 7)])
  = McpToolAdapter.JsObject
      [("signal"%string, McpToolAdapter.JsNull);
       ("requestId"%string, McpToolAdapter.JsNumber 7)].
Proof.
  apply metadata_only_args_kept.
  repeat (apply Forall_cons; [reflexivity|]). apply Forall_nil.
Defined.
